(** * subdir: the fetch-and-assemble engine and its provider adapters

    A shallow embedding of
      - web/lib/client-download.ts  (the browser engine: walker, scheduler,
        relativizer, archive assembly),
      - web/lib/providers/{github,gitlab,bitbucket}.ts (the web adapters),
      - cli/src/download.ts and cli/src/providers/{github,gitlab}.ts
        (the command-line engine and its adapters),
      - web/lib/errors.ts, web/lib/providers/index.ts and the URL helpers
        of the download form (the errors, provider detection and URL
        parsing),
    followed by the properties the specification states about them and
    by further properties of the code. *)

From Stdlib Require Import ZArith Lia.
From stdpp Require Import gmap strings list sorting pretty.

Local Open Scope Z_scope.

(** ** JavaScript string primitives used by the sources

    A JavaScript string is a sequence of code units; [startsWith], [slice]
    and [replace] act on that sequence.  We use Rocq strings, whose elements
    play the role of code units ("/" is a single unit in both). *)

Module JsString.

(** [s.startsWith(p)] *)
Definition startsWith (s p : string) : bool := String.prefix p s.

(** [s.slice(n)] for [0 <= n]: the string without its first [n] units. *)
Fixpoint slice (n : nat) (s : string) : string :=
  match n, s with
  | O, _ => s
  | S _, EmptyString => EmptyString
  | S n', String _ s' => slice n' s'
  end.

(** [s.slice(0, n)] *)
Fixpoint take (n : nat) (s : string) : string :=
  match n, s with
  | O, _ => EmptyString
  | S _, EmptyString => EmptyString
  | S n', String c s' => String c (take n' s')
  end.

(** [s.indexOf(p)]: index of the first occurrence of [p] in [s]. *)
Fixpoint indexOf (p s : string) : option nat :=
  if String.prefix p s then Some O
  else match s with
       | EmptyString => None
       | String _ s' => S <$> indexOf p s'
       end.

(** [s.replace(p, "")] with a string pattern: the first occurrence of
    [p] is removed, anywhere in [s]; without an occurrence [s] is
    returned unchanged. *)
Definition replace_first_by_empty (s p : string) : string :=
  match indexOf p s with
  | Some i => take i s +:+ slice (i + String.length p) s
  | None => s
  end.

(** [s.replace(/^\//, "")] and
    [s.startsWith("/") ? s.slice(1) : s]: one leading slash removed. *)
Definition strip_leading_slash (s : string) : string :=
  if startsWith s "/" then slice 1 s else s.

(** A string is truthy when it is not empty. *)
Definition truthy (s : string) : bool :=
  match s with EmptyString => false | _ => true end.

End JsString.

(** ** Data model (web/lib/types.ts, cli/src/types.ts) *)

Definition bytes := list Byte.byte.

(** [FileEntry].  The [type] field is declared ["file" | "dir"]; at run time
    it is a string, and the walkers compare it with ["file"] and ["dir"]. *)
Record FileEntry := mkFileEntry {
  name : string;
  path : string;
  type : string;
  size : Z;
  downloadUrl : option string;
  sha : option string;
  id : option string;
}.

(** [FetchConfig].  Its [signal] is not a field here: what it does is seen
    in the transport, where an aborted request ends as [FetchAborted]. *)
Record FetchConfig := mkFetchConfig {
  owner : string;
  repo : string;
  branch : string;
  cfg_path : string;
  token : option string;
}.

(** [{ ...config, path: p }] *)
Definition with_path (config : FetchConfig) (p : string) : FetchConfig :=
  {| owner := owner config; repo := repo config; branch := branch config;
     cfg_path := p; token := token config |}.

Record FileWithContent := mkFileWithContent {
  relativePath : string;
  content : bytes;
}.

(** ** Path relativization *)

(** client-download.ts, inside [downloadBatch]:
<<
  const relativePath = config.path
    ? file.path.startsWith(config.path + "/")
      ? file.path.slice(config.path.length + 1)
      : file.path.startsWith(config.path)
      ? file.path.slice(config.path.length)
      : file.path
    : file.path;
  ... relativePath.startsWith("/") ? relativePath.slice(1) : relativePath
>> *)
Definition web_relativePath (rootPath fullPath : string) : string :=
  let relativePath :=
    if JsString.truthy rootPath then
      if JsString.startsWith fullPath (rootPath +:+ "/") then
        JsString.slice (String.length rootPath + 1) fullPath
      else if JsString.startsWith fullPath rootPath then
        JsString.slice (String.length rootPath) fullPath
      else fullPath
    else fullPath in
  if JsString.startsWith relativePath "/" then JsString.slice 1 relativePath
  else relativePath.

(** cli/src/download.ts, [collectFiles]:
<<
  const relativePath = item.path.replace(basePath, "").replace(/^\//, "");
>> *)
Definition cli_relativePath (basePath fullPath : string) : string :=
  JsString.strip_leading_slash
    (JsString.replace_first_by_empty fullPath basePath).


(** ** Errors (web/lib/errors.ts) *)

Inductive DownloadErrorCode :=
  | RATE_LIMITED | NOT_FOUND | AUTH_REQUIRED | INVALID_TOKEN | NETWORK_ERROR
  | EMPTY_DIRECTORY | FILE_TOO_LARGE | CORS_BLOCKED | INVALID_URL
  | PROVIDER_ERROR.

Record DownloadError := mkDownloadError {
  message : string;
  code : DownloadErrorCode;
  suggestion : string;
  retryable : bool;
}.

Definition createRateLimitError (provider : string) : DownloadError :=
  mkDownloadError (provider +:+ " API rate limit exceeded") RATE_LIMITED
    ("Add a " +:+ provider +:+ " token to increase the limit") true.
Definition createNotFoundError : DownloadError :=
  mkDownloadError "Repository or path not found" NOT_FOUND
    "Check URL—repo or path may not exist" false.
Definition createAuthRequiredError : DownloadError :=
  mkDownloadError "Authentication required" AUTH_REQUIRED
    "This repo is private. Add a token." true.
Definition createInvalidTokenError : DownloadError :=
  mkDownloadError "Invalid or expired token" INVALID_TOKEN
    "Token may be expired or lack permissions" true.
Definition createNetworkError : DownloadError :=
  mkDownloadError "Network error" NETWORK_ERROR "Check your connection" true.
Definition createEmptyDirectoryError : DownloadError :=
  mkDownloadError "Directory is empty" EMPTY_DIRECTORY
    "Directory exists but contains no files" false.
Definition createFileTooLargeError (filename : string) : DownloadError :=
  mkDownloadError ("File too large: " +:+ filename) FILE_TOO_LARGE
    "File exceeds 100MB browser download limit" false.
Definition createProviderError (msg : string) : DownloadError :=
  mkDownloadError msg PROVIDER_ERROR "Try again or check the URL" true.

(** What a JavaScript [throw] can carry in these sources. *)
Inductive exn :=
  | EDownload (e : DownloadError)   (* a [DownloadError] *)
  | EAbort                          (* the transport's [AbortError], rethrown *)
  | EError (msg : string).          (* [new Error(msg)], or a runtime error *)

(** ** Promises, events and the engine monad *)

(** A settled promise: the instant at which it settles and how.  Time only
    orders the settlements of promises started together ([Promise.all]). *)
Record promise (A : Type) := mkPromise {
  requests : list string;     (* URLs requested from the transport *)
  settles_at : nat;
  outcome : exn + A;
}.
Arguments mkPromise {A} _ _ _.
Arguments requests {A} _.
Arguments settles_at {A} _.
Arguments outcome {A} _.

Inductive phase := fetching | downloading | zipping.

Record DownloadProgress := mkProgress {
  progress_phase : phase;
  current : nat;
  total : nat;
  currentFile : option string;
}.

(** What the engine does, in the order it does it. *)
Inductive event :=
  | EvProgress (p : DownloadProgress)        (* onProgress(p) *)
  | EvList (dir : string) (failed : option exn)
      (* provider.fetchContents for [dir], awaited *)
  | EvStart (file : FileEntry)               (* provider.downloadFile called *)
  | EvSettle (file : FileEntry) (failed : option exn)
      (* the promise of that call settled *)
  | EvZipFile (relPath : string) (data : bytes)   (* zip.file(...) *)
  | EvSave (filename : string)               (* the archive handed over *)
  | EvCliProgress (current total : nat) (filename : string)
      (* the command line's onProgress(current, total, filename) *)
  | EvLog (msg : string)                     (* console.log(msg) *)
  | EvMkdir (dir : string) (failed : option exn)
      (* mkdir(dir, {recursive}), awaited *)
  | EvWriteFile (dest : string) (data : bytes) (failed : option exn).
      (* writeFile(dest, data), awaited *)

Inductive res (A : Type) :=
  | Done (a : A)
  | Threw (e : exn)
  | OutOfFuel.
Arguments Done {A} _.
Arguments Threw {A} _.
Arguments OutOfFuel {A}.

(** A computation is the events it emitted and how it ended. *)
Definition M (A : Type) : Type := list event * res A.

Definition ret {A} (a : A) : M A := ([], Done a).
Definition throw {A} (e : exn) : M A := ([], Threw e).
Definition out_of_fuel {A} : M A := ([], OutOfFuel).
Definition emit (ev : event) : M unit := ([ev], Done tt).
Definition bind {A B} (m : M A) (f : A -> M B) : M B :=
  match m with
  | (l, Done a) => let '(l', r) := f a in (l ++ l', r)
  | (l, Threw e) => (l, Threw e)
  | (l, OutOfFuel) => (l, OutOfFuel)
  end.

Notation "x <- m ;; k" := (bind m (fun x => k))
  (at level 100, m at next level, right associativity).
Notation "m ;;; k" := (bind m (fun _ => k))
  (at level 100, right associativity).

Definition trace {A} (m : M A) : list event := fst m.
Definition result {A} (m : M A) : res A := snd m.

(** [await p] *)
Definition await {A} (p : promise A) : M A :=
  match outcome p with
  | inl e => throw e
  | inr a => ret a
  end.

(** [for (const x of l) { s = body(x, s) }] *)
Fixpoint for_of {A S} (body : A -> S -> M S) (l : list A) (s : S) : M S :=
  match l with
  | [] => ret s
  | x :: l' => s' <- body x s ;; for_of body l' s'
  end.

(** ** The provider interface (web/lib/types.ts, [RepoProvider]) *)

Record RepoProvider := mkProvider {
  prov_name : string;
  fetchContents : FetchConfig -> promise (list FileEntry);
  downloadFile : FileEntry -> FetchConfig -> promise bytes;
}.

(** [await provider.fetchContents(config)] *)
Definition await_fetchContents (provider : RepoProvider) (config : FetchConfig)
  : M (list FileEntry) :=
  match outcome (fetchContents provider config) with
  | inl e => emit (EvList (cfg_path config) (Some e)) ;;; throw e
  | inr entries => emit (EvList (cfg_path config) None) ;;; ret entries
  end.

(** ** web/lib/client-download.ts *)

Definition CONCURRENT_DOWNLOADS : nat := 6.

(** [collectFilesRecursively]; [collectedFiles] is the array the calls
    share, threaded through.  The recursion follows the provider's answers,
    so it is bounded by [fuel]. *)
Fixpoint collectFilesRecursively (fuel : nat) (provider : RepoProvider)
    (config : FetchConfig) (basePath : string)
    (collectedFiles : list FileEntry) : M (list FileEntry) :=
  match fuel with
  | O => out_of_fuel
  | S fuel' =>
    entries <- await_fetchContents provider config ;;
    for_of (fun entry collectedFiles =>
      collectedFiles <-
        (if String.eqb (type entry) "file" then
           ret (collectedFiles ++ [entry])
         else if String.eqb (type entry) "dir" then
           collectFilesRecursively fuel' provider
             (with_path config (path entry)) basePath collectedFiles
         else ret collectedFiles) ;;
      emit (EvProgress (mkProgress fetching (length collectedFiles)
                          (length collectedFiles) None)) ;;;
      ret collectedFiles) entries collectedFiles
  end.

(** The synchronous part of the callbacks of [batch.map(async (file) => ...)]:
    each reports progress and calls [provider.downloadFile] before any of the
    promises settles. *)
Definition start_batch (provider : RepoProvider) (config : FetchConfig)
    (total completed : nat) (batch : list FileEntry)
  : M (list (FileEntry * promise bytes)) :=
  for_of (fun file started =>
    emit (EvProgress (mkProgress downloading completed total
                        (Some (name file)))) ;;;
    emit (EvStart file) ;;;
    ret (started ++ [(file, downloadFile provider file config)])) batch [].

Definition settles_before (a b : FileEntry * promise bytes) : Prop :=
  (settles_at a.2 <= settles_at b.2)%nat.

Global Instance settles_before_dec : RelDecision settles_before.
Proof. intros a b. unfold settles_before. apply _. Defined.

(** The continuations of the callbacks run as their promises settle, the
    earliest first.  [Promise.all] rejects with the first rejection; the
    awaiting loop then throws and nothing later is observed. *)
Fixpoint settle_batch (pending : list (FileEntry * promise bytes))
    (completed : nat) : M nat :=
  match pending with
  | [] => ret completed
  | (file, p) :: pending' =>
    match outcome p with
    | inl e => emit (EvSettle file (Some e)) ;;; throw e
    | inr _ => emit (EvSettle file None) ;;; settle_batch pending' (S completed)
    end
  end.

(** What each callback returns, in the order of [batch]
    ([Promise.all] keeps the order of its input). *)
Definition batch_values (config : FetchConfig)
    (started : list (FileEntry * promise bytes)) : list FileWithContent :=
  omap (fun fp : FileEntry * promise bytes =>
          match outcome fp.2 with
          | inr data =>
            Some {| relativePath :=
                      web_relativePath (cfg_path config) (path fp.1);
                    content := data |}
          | inl _ => None
          end) started.

(** [downloadBatch], with the counter [completed] it shares with its
    caller threaded through. *)
Definition downloadBatch (provider : RepoProvider) (config : FetchConfig)
    (total completed : nat) (batch : list FileEntry)
  : M (nat * list FileWithContent) :=
  started <- start_batch provider config total completed batch ;;
  completed <- settle_batch (merge_sort settles_before started) completed ;;
  ret (completed, batch_values config started).

(** [for (let i = 0; i < files.length; i += CONCURRENT_DOWNLOADS)]; the loop
    runs at most [files.length] times, which [n] counts down. *)
Fixpoint download_loop (n : nat) (provider : RepoProvider)
    (config : FetchConfig) (files : list FileEntry) (i completed : nat)
    (results : list FileWithContent) : M (list FileWithContent) :=
  if bool_decide (i < length files)%nat then
    match n with
    | O => out_of_fuel
    | S n' =>
      let batch := take CONCURRENT_DOWNLOADS (drop i files) in
      cr <- downloadBatch provider config (length files) completed batch ;;
      download_loop n' provider config files (i + CONCURRENT_DOWNLOADS)
        cr.1 (results ++ cr.2)
    end
  else ret results.

(** [collectFiles] *)
Definition collectFiles (fuel : nat) (provider : RepoProvider)
    (config : FetchConfig) : M (list FileWithContent) :=
  emit (EvProgress (mkProgress fetching 0 0 None)) ;;;
  files <- collectFilesRecursively fuel provider config (cfg_path config) [] ;;
  if bool_decide (length files = 0%nat) then
    throw (EDownload createEmptyDirectoryError)
  else
    download_loop (length files) provider config files 0 0 [].

(** The [JSZip] object as the calls [zip.file(name, data)] leave it: the
    data last given under each name. *)
Definition zip_file (zip : gmap string bytes) (file : FileWithContent)
  : gmap string bytes :=
  <[relativePath file := content file]> zip.

(** [createAndDownloadZip].  The trace records the calls of [zip.file] and
    the hand-over; the value returned is the [JSZip] object those calls
    filled.  The file [zip.generateAsync] makes of that object is the
    library's work (which entries and folders it writes for the names it
    was given is not decided by these sources) and is not modelled. *)
Definition createAndDownloadZip (files : list FileWithContent)
    (filename : string) : M (gmap string bytes) :=
  emit (EvProgress (mkProgress zipping 0 (length files) None)) ;;;
  zi <- for_of (fun file (zi : gmap string bytes * nat) =>
          emit (EvZipFile (relativePath file) (content file)) ;;;
          emit (EvProgress (mkProgress zipping (zi.2 + 1) (length files)
                              (Some (relativePath file)))) ;;;
          ret (zip_file zi.1 file, (zi.2 + 1)%nat)) files (∅, 0%nat) ;;
  emit (EvSave filename) ;;;
  ret zi.1.

(** [s.split("/")]; the slash is code unit 47. *)
Fixpoint split_slash (cur : string) (s : string) : list string :=
  match s with
  | EmptyString => [String.rev cur]
  | String c s' =>
    if Ascii.eqb c (Ascii.ascii_of_nat 47)
    then String.rev cur :: split_slash "" s'
    else split_slash (String c cur) s'
  end.

(** [config.path.split("/").filter(Boolean).pop() || config.repo], behind the
    test [config.path ? ... : config.repo]. *)
Definition dirName (config : FetchConfig) : string :=
  if JsString.truthy (cfg_path config) then
    match last (filter (fun s => JsString.truthy s = true)
                  (split_slash "" (cfg_path config))) with
    | Some d => d
    | None => repo config
    end
  else repo config.

(** [downloadDirectory] *)
Definition downloadDirectory (fuel : nat) (provider : RepoProvider)
    (config : FetchConfig) : M (gmap string bytes) :=
  files <- collectFiles fuel provider config ;;
  createAndDownloadZip files (dirName config +:+ ".zip").

(** ** The transport and the providers' wire data *)

(** cli/src/types.ts, [GitHubContent]: an item of the GitHub contents API. *)
Record GitHubContent := mkGitHubContent {
  gh_name : string;
  gh_path : string;
  gh_sha : string;
  gh_size : Z;
  gh_download_url : option string;     (* [string | null] *)
  gh_type : string;   (* "file" | "dir" | "symlink" | "submodule" *)
}.

(** cli/src/types.ts, [GitLabTreeItem]: an item of the GitLab tree API.
    It has no size. *)
Record GitLabTreeItem := mkGitLabTreeItem {
  gl_id : string;
  gl_name : string;
  gl_type : string;   (* "tree" | "blob" | ... *)
  gl_path : string;
  gl_mode : string;
}.

(** An item of the Bitbucket source API, as bitbucket.ts reads it. *)
Record BitbucketItem := mkBitbucketItem {
  bb_path : string;
  bb_type : string;
  bb_size : option Z;
  bb_commit_hash : option string;
}.

(** What [response.json()] can yield for the requests these sources make. *)
Inductive json :=
  | JGitHubArray (items : list GitHubContent)
  | JGitHubObject (item : GitHubContent)
  | JGitHubBlob (blob_content : string)
  | JGitLabTree (items : list GitLabTreeItem)
  | JBitbucketPage (values : option (list BitbucketItem)).

Record Response := mkResponse {
  status : Z;
  statusText : string;
  x_ratelimit_remaining : option string;
  json_body : option json;    (* [None]: the body is not JSON *)
  raw_body : bytes;           (* [response.arrayBuffer()] *)
}.

(** [response.ok] *)
Definition ok (r : Response) : bool :=
  (200 <=? status r) && (status r <=? 299).

(** How [await fetch(url, ...)] ends. *)
Inductive fetched :=
  | FetchAborted                 (* rejects with an [AbortError] *)
  | FetchFailed                  (* rejects with a [TypeError] (network) *)
  | FetchResponse (r : Response).

Record reply := mkReply {
  arrives_at : nat;
  fetch_result : fetched;
}.

(** [x || 0] on a number *)
Definition or_zero (x : Z) : Z := if x =? 0 then 0 else x.

(** [s || d] on an optional string: [undefined], [null] and [""] are falsy. *)
Definition or_else (s : option string) (d : string) : string :=
  match s with
  | Some u => if JsString.truthy u then u else d
  | None => d
  end.

Definition truthy_opt (s : option string) : bool :=
  match s with Some u => JsString.truthy u | None => false end.

Definition eq_opt_string (a : option string) (b : string) : bool :=
  match a with Some u => String.eqb u b | None => false end.

Definition MAX_FILE_SIZE : Z := 100 * 1024 * 1024.

(** The runtime error of reading a body of the wrong shape. *)
Definition bad_body : exn := EError "unexpected response body".

Section WebProviders.

(** The browser's [fetch], given the URL and the token sent in the
    headers, and the builtins [encodeURIComponent] and [atob]. *)
Variable fetch : string -> option string -> reply.
Variable encodeURIComponent : string -> string.
Variable atob : string -> option string.
(** [bytes[i] = binaryString.charCodeAt(i)] *)
Variable charCodes : string -> bytes.

(** The [try { response = await fetch(...) } catch ...] of every adapter
    call, followed by [k] on the response.  A response that has arrived
    comes with its body: a read of the body that fails midway, which the
    adapters do not catch, is not modelled. *)
Definition fetch_then {A} (url : string) (tok : option string)
    (k : Response -> exn + A) : promise A :=
  let r := fetch url tok in
  mkPromise [url] (arrives_at r)
    match fetch_result r with
    | FetchAborted => inl EAbort
    | FetchFailed => inl (EDownload createNetworkError)
    | FetchResponse response => k response
    end.

(** *** web/lib/providers/github.ts *)

Definition GITHUB_API : string := "https://api.github.com".

Definition github_entry (item : GitHubContent) : FileEntry :=
  {| name := gh_name item;
     path := gh_path item;
     type := if String.eqb (gh_type item) "dir" then "dir" else "file";
     size := or_zero (gh_size item);
     downloadUrl := gh_download_url item;
     sha := Some (gh_sha item);
     id := None |}.

Definition github_fetchContents (config : FetchConfig)
  : promise (list FileEntry) :=
  let url := GITHUB_API +:+ "/repos/" +:+ owner config +:+ "/"
             +:+ repo config +:+ "/contents/" +:+ cfg_path config
             +:+ "?ref=" +:+ branch config in
  fetch_then url (token config) (fun response =>
    if negb (ok response) then
      if status response =? 404 then inl (EDownload createNotFoundError)
      else if status response =? 403 then
        if eq_opt_string (x_ratelimit_remaining response) "0" then
          inl (EDownload (createRateLimitError "GitHub"))
        else inl (EDownload createInvalidTokenError)
      else if status response =? 401 then
        inl (EDownload createAuthRequiredError)
      else inl (EDownload (createProviderError
                  ("GitHub API error: " +:+ pretty (status response))))
    else
      match json_body response with
      | Some (JGitHubArray items) => inr (map github_entry items)
      | Some (JGitHubObject item) => inr [github_entry item]
      | _ => inl bad_body
      end).

Definition github_downloadFile (file : FileEntry) (config : FetchConfig)
  : promise bytes :=
  if size file >? MAX_FILE_SIZE then
    mkPromise [] 0%nat (inl (EDownload (createFileTooLargeError (name file))))
  else if (size file >? 1024 * 1024) && truthy_opt (sha file) then
    let blobUrl := GITHUB_API +:+ "/repos/" +:+ owner config +:+ "/"
                   +:+ repo config +:+ "/git/blobs/"
                   +:+ or_else (sha file) "" in
    fetch_then blobUrl (token config) (fun response =>
      if negb (ok response) then
        inl (EDownload (createProviderError
               ("Failed to download blob: " +:+ pretty (status response))))
      else
        match json_body response with
        | Some (JGitHubBlob blob_content) =>
          match atob blob_content with
          | Some binaryString => inr (charCodes binaryString)
          | None => inl (EError "InvalidCharacterError")
          end
        | _ => inl bad_body
        end)
  else
    let rawUrl :=
      or_else (downloadUrl file)
        ("https://raw.githubusercontent.com/" +:+ owner config +:+ "/"
         +:+ repo config +:+ "/" +:+ branch config +:+ "/" +:+ path file) in
    fetch_then rawUrl (token config) (fun response =>
      if negb (ok response) then
        inl (EDownload (createProviderError
               ("Failed to download file: " +:+ pretty (status response))))
      else inr (raw_body response)).

Definition github : RepoProvider :=
  mkProvider "github" github_fetchContents github_downloadFile.

(** *** web/lib/providers/gitlab.ts *)

Definition GITLAB_API : string := "https://gitlab.com/api/v4".

Definition encodeProjectId (owner repo : string) : string :=
  encodeURIComponent (owner +:+ "/" +:+ repo).

Definition gitlab_entry (item : GitLabTreeItem) : FileEntry :=
  {| name := gl_name item;
     path := gl_path item;
     type := if String.eqb (gl_type item) "tree" then "dir" else "file";
     size := 0;   (* GitLab tree API doesn't return size *)
     downloadUrl := None;
     sha := None;
     id := Some (gl_id item) |}.

Definition gitlab_fetchContents (config : FetchConfig)
  : promise (list FileEntry) :=
  let projectId := encodeProjectId (owner config) (repo config) in
  let encodedPath :=
    if JsString.truthy (cfg_path config)
    then "&path=" +:+ encodeURIComponent (cfg_path config) else "" in
  let url := GITLAB_API +:+ "/projects/" +:+ projectId
             +:+ "/repository/tree?ref=" +:+ branch config +:+ encodedPath
             +:+ "&per_page=100" in
  fetch_then url (token config) (fun response =>
    if negb (ok response) then
      if status response =? 404 then inl (EDownload createNotFoundError)
      else if status response =? 401 then
        inl (EDownload createAuthRequiredError)
      else inl (EDownload (createProviderError
                  ("GitLab API error: " +:+ pretty (status response))))
    else
      match json_body response with
      | Some (JGitLabTree items) => inr (map gitlab_entry items)
      | _ => inl bad_body
      end).

Definition gitlab_downloadFile (file : FileEntry) (config : FetchConfig)
  : promise bytes :=
  if size file >? MAX_FILE_SIZE then
    mkPromise [] 0%nat (inl (EDownload (createFileTooLargeError (name file))))
  else
    let projectId := encodeProjectId (owner config) (repo config) in
    let encodedPath := encodeURIComponent (path file) in
    let url := GITLAB_API +:+ "/projects/" +:+ projectId
               +:+ "/repository/files/" +:+ encodedPath +:+ "/raw?ref="
               +:+ branch config in
    fetch_then url (token config) (fun response =>
      if negb (ok response) then
        inl (EDownload (createProviderError
               ("Failed to download file: " +:+ pretty (status response))))
      else inr (raw_body response)).

Definition gitlab : RepoProvider :=
  mkProvider "gitlab" gitlab_fetchContents gitlab_downloadFile.

(** *** web/lib/providers/bitbucket.ts *)

Definition BITBUCKET_API : string := "https://api.bitbucket.org/2.0".

Definition bitbucket_entry (item : BitbucketItem) : FileEntry :=
  {| name := or_else (last (split_slash "" (bb_path item))) (bb_path item);
     path := bb_path item;
     type := if String.eqb (bb_type item) "commit_directory"
             then "dir" else "file";
     size := match bb_size item with Some n => or_zero n | None => 0 end;
     downloadUrl := None;
     sha := bb_commit_hash item;
     id := None |}.

Definition bitbucket_fetchContents (config : FetchConfig)
  : promise (list FileEntry) :=
  let encodedPath :=
    if JsString.truthy (cfg_path config)
    then "/" +:+ encodeURIComponent (cfg_path config) else "" in
  let url := BITBUCKET_API +:+ "/repositories/" +:+ owner config +:+ "/"
             +:+ repo config +:+ "/src/" +:+ branch config +:+ encodedPath
             +:+ "?pagelen=100" in
  fetch_then url (token config) (fun response =>
    if negb (ok response) then
      if status response =? 404 then inl (EDownload createNotFoundError)
      else if status response =? 401 then
        inl (EDownload createAuthRequiredError)
      else if status response =? 429 then
        inl (EDownload (createRateLimitError "Bitbucket"))
      else inl (EDownload (createProviderError
                  ("Bitbucket API error: " +:+ pretty (status response))))
    else
      match json_body response with
      | Some (JBitbucketPage (Some items)) => inr (map bitbucket_entry items)
      | Some (JBitbucketPage None) => inr []
      | _ => inl bad_body
      end).

Definition bitbucket_downloadFile (file : FileEntry) (config : FetchConfig)
  : promise bytes :=
  if size file >? MAX_FILE_SIZE then
    mkPromise [] 0%nat (inl (EDownload (createFileTooLargeError (name file))))
  else
    let encodedPath := encodeURIComponent (path file) in
    let url := BITBUCKET_API +:+ "/repositories/" +:+ owner config +:+ "/"
               +:+ repo config +:+ "/src/" +:+ branch config +:+ "/"
               +:+ encodedPath in
    fetch_then url (token config) (fun response =>
      if negb (ok response) then
        inl (EDownload (createProviderError
               ("Failed to download file: " +:+ pretty (status response))))
      else inr (raw_body response)).

Definition bitbucket : RepoProvider :=
  mkProvider "bitbucket" bitbucket_fetchContents bitbucket_downloadFile.

End WebProviders.

(** ** The command-line engine (cli/src) *)

(** cli/src/types.ts, [RepoProvider]: [downloadFile] takes the token.  A
    listing that never ends (GitLab's page loop) has no promise. *)
Record CliRepoProvider := mkCliProvider {
  cli_name : string;
  cli_fetchContents : FetchConfig -> option (promise (list FileEntry));
  cli_downloadFile : FileEntry -> option string -> promise bytes;
}.

(** Two awaits in sequence. *)
Definition promise_bind {A B} (p : promise A) (k : A -> promise B)
  : promise B :=
  match outcome p with
  | inl e => mkPromise (requests p) (settles_at p) (inl e)
  | inr a =>
    let q := k a in
    mkPromise (requests p ++ requests q) (settles_at p + settles_at q)
      (outcome q)
  end.

Definition LARGE_FILE_THRESHOLD : Z := 1024 * 1024.

Section CliProviders.

(** Node's [fetch] (URL and token), [encodeURIComponent] and
    [Buffer.from(s, "base64")]. *)
Variable fetch : string -> option string -> reply.
Variable encodeURIComponent : string -> string.
Variable from_base64 : string -> bytes.

(** [await fetch(...)] without a [catch]: a rejection propagates as it is. *)
Definition cli_fetch_then {A} (url : string) (tok : option string)
    (k : Response -> exn + A) : promise A :=
  let r := fetch url tok in
  mkPromise [url] (arrives_at r)
    match fetch_result r with
    | FetchAborted => inl EAbort
    | FetchFailed => inl (EError "fetch failed")
    | FetchResponse response => k response
    end.

(** *** cli/src/providers/github.ts *)

Definition API_BASE_GITHUB : string := "https://api.github.com".

Definition fetchContentsApi (owner repo path branch : string)
    (tok : option string) : promise (list GitHubContent) :=
  let url := API_BASE_GITHUB +:+ "/repos/" +:+ owner +:+ "/" +:+ repo
             +:+ "/contents/" +:+ path +:+ "?ref=" +:+ branch in
  cli_fetch_then url tok (fun res =>
    if negb (ok res) then
      if status res =? 404 then inl (EError ("Path not found: " +:+ path))
      else if status res =? 403 then
        if eq_opt_string (x_ratelimit_remaining res) "0" then
          inl (EError
            "GitHub API rate limit exceeded. Use --token for higher limits.")
        else inl (EError "Access forbidden. Check your token permissions.")
      else if status res =? 401 then inl (EError "Invalid GitHub token.")
      else inl (EError ("GitHub API error: " +:+ pretty (status res)
                        +:+ " " +:+ statusText res))
    else
      match json_body res with
      | Some (JGitHubArray items) => inr items
      | Some (JGitHubObject item) => inr [item]
      | _ => inl bad_body
      end).

Definition fetchBlob (owner repo sha : string) (tok : option string)
  : promise bytes :=
  let url := API_BASE_GITHUB +:+ "/repos/" +:+ owner +:+ "/" +:+ repo
             +:+ "/git/blobs/" +:+ sha in
  cli_fetch_then url tok (fun res =>
    if negb (ok res) then
      inl (EError ("Failed to fetch blob: " +:+ pretty (status res)
                   +:+ " " +:+ statusText res))
    else
      match json_body res with
      | Some (JGitHubBlob blob_content) => inr (from_base64 blob_content)
      | _ => inl bad_body
      end).

Definition downloadRaw (downloadUrl : string) (tok : option string)
  : promise bytes :=
  cli_fetch_then downloadUrl tok (fun res =>
    if negb (ok res) then
      inl (EError ("Failed to download file: " +:+ pretty (status res)
                   +:+ " " +:+ statusText res))
    else inr (raw_body res)).

Definition is_file_or_dir (item : GitHubContent) : bool :=
  String.eqb (gh_type item) "file" || String.eqb (gh_type item) "dir".

Definition cli_github_entry (item : GitHubContent) : FileEntry :=
  {| name := gh_name item;
     path := gh_path item;
     type := gh_type item;
     size := gh_size item;
     downloadUrl := gh_download_url item;
     sha := Some (gh_sha item);
     id := None |}.

(** [github.fetchContents] *)
Definition cli_github_fetchContents (config : FetchConfig)
  : promise (list FileEntry) :=
  promise_bind
    (fetchContentsApi (owner config) (repo config) (cfg_path config)
       (branch config) (token config))
    (fun contents =>
       mkPromise [] 0%nat
         (inr (map cli_github_entry
                 (filter (fun item => is_file_or_dir item = true)
                    contents)))).

(** [github.downloadFile] *)
Definition cli_github_downloadFile (file : FileEntry) (tok : option string)
  : promise bytes :=
  if (size file >? LARGE_FILE_THRESHOLD) || negb (truthy_opt (downloadUrl file))
  then mkPromise [] 0%nat
         (inl (EError "Use downloadGitHubFile with config for this file"))
  else downloadRaw (or_else (downloadUrl file) "") tok.

Definition downloadGitHubFile (file : FileEntry) (config : FetchConfig)
  : promise bytes :=
  if (size file >? LARGE_FILE_THRESHOLD) || negb (truthy_opt (downloadUrl file))
  then
    if negb (truthy_opt (sha file)) then
      mkPromise [] 0%nat
        (inl (EError ("Cannot download file without sha: " +:+ path file)))
    else fetchBlob (owner config) (repo config) (or_else (sha file) "")
           (token config)
  else downloadRaw (or_else (downloadUrl file) "") (token config).

Definition cli_github : CliRepoProvider :=
  mkCliProvider "github" (fun config => Some (cli_github_fetchContents config))
    cli_github_downloadFile.

(** *** cli/src/providers/gitlab.ts *)

Definition API_BASE_GITLAB : string := "https://gitlab.com/api/v4".

Definition cli_encodeProjectId (owner repo : string) : string :=
  encodeURIComponent (owner +:+ "/" +:+ repo).

Definition perPage : nat := 100.

(** The [while (true)] page loop; [fuel] bounds the pages read. *)
Fixpoint gitlab_pages (fuel : nat) (config : FetchConfig) (page : nat)
    (allItems : list GitLabTreeItem)
  : option (promise (list GitLabTreeItem)) :=
  match fuel with
  | O => None
  | S fuel' =>
    let url := API_BASE_GITLAB +:+ "/projects/"
               +:+ cli_encodeProjectId (owner config) (repo config)
               +:+ "/repository/tree?path="
               +:+ encodeURIComponent (cfg_path config)
               +:+ "&ref=" +:+ branch config
               +:+ "&per_page=" +:+ pretty perPage
               +:+ "&page=" +:+ pretty page in
    let p := cli_fetch_then url (token config) (fun res =>
      if negb (ok res) then
        if status res =? 404 then
          inl (EError ("Path not found: " +:+ cfg_path config))
        else if status res =? 401 then
          inl (EError
            "GitLab authentication failed. Use --token for private repos.")
        else inl (EError ("GitLab API error: " +:+ pretty (status res)
                          +:+ " " +:+ statusText res))
      else
        match json_body res with
        | Some (JGitLabTree items) => inr items
        | _ => inl bad_body
        end) in
    match outcome p with
    | inl e => Some (mkPromise (requests p) (settles_at p) (inl e))
    | inr items =>
      if bool_decide (length items < perPage)%nat then
        Some (mkPromise (requests p) (settles_at p)
                (inr (allItems ++ items)))
      else
        match gitlab_pages fuel' config (S page) (allItems ++ items) with
        | Some q =>
          Some (mkPromise (requests p ++ requests q)
                  (settles_at p + settles_at q) (outcome q))
        | None => None
        end
    end
  end.

Definition cli_gitlab_entry (item : GitLabTreeItem) : FileEntry :=
  {| name := gl_name item;
     path := gl_path item;
     type := if String.eqb (gl_type item) "tree" then "dir" else "file";
     size := 0;   (* GitLab tree API doesn't return size *)
     downloadUrl := None;
     sha := None;
     id := Some (gl_id item) |}.

(** [gitlab.fetchContents] *)
Definition cli_gitlab_fetchContents (fuel : nat) (config : FetchConfig)
  : option (promise (list FileEntry)) :=
  match gitlab_pages fuel config 1 [] with
  | Some p =>
    Some (promise_bind p (fun allItems =>
            mkPromise [] 0%nat (inr (map cli_gitlab_entry allItems))))
  | None => None
  end.

(** [gitlab.downloadFile] *)
Definition cli_gitlab_downloadFile (file : FileEntry) (tok : option string)
  : promise bytes :=
  mkPromise [] 0%nat (inl (EError "Use downloadGitLabFile with config")).

Definition downloadGitLabFile (file : FileEntry) (config : FetchConfig)
  : promise bytes :=
  let url := API_BASE_GITLAB +:+ "/projects/"
             +:+ cli_encodeProjectId (owner config) (repo config)
             +:+ "/repository/files/" +:+ encodeURIComponent (path file)
             +:+ "/raw?ref=" +:+ branch config in
  cli_fetch_then url (token config) (fun res =>
    if negb (ok res) then
      inl (EError ("Failed to download file " +:+ path file +:+ ": "
                   +:+ pretty (status res) +:+ " " +:+ statusText res))
    else inr (raw_body res)).

Definition cli_gitlab (fuel : nat) : CliRepoProvider :=
  mkCliProvider "gitlab" (cli_gitlab_fetchContents fuel)
    cli_gitlab_downloadFile.

(** *** cli/src/download.ts *)

Record FileToDownload := mkFileToDownload {
  ftd_file : FileEntry;
  ftd_relativePath : string;
}.

(** [await provider.fetchContents(config)] *)
Definition cli_await_fetchContents (provider : CliRepoProvider)
    (config : FetchConfig) : M (list FileEntry) :=
  match cli_fetchContents provider config with
  | None => out_of_fuel
  | Some p =>
    match outcome p with
    | inl e => emit (EvList (cfg_path config) (Some e)) ;;; throw e
    | inr entries => emit (EvList (cfg_path config) None) ;;; ret entries
    end
  end.

(** [collectFiles] *)
Fixpoint cli_collectFiles (fuel : nat) (provider : CliRepoProvider)
    (config : FetchConfig) (basePath : string) : M (list FileToDownload) :=
  match fuel with
  | O => out_of_fuel
  | S fuel' =>
    contents <- cli_await_fetchContents provider config ;;
    for_of (fun item files =>
      let relativePath := cli_relativePath basePath (path item) in
      if String.eqb (type item) "file" then
        ret (files ++ [mkFileToDownload item relativePath])
      else if String.eqb (type item) "dir" then
        subFiles <- cli_collectFiles fuel' provider
                      (with_path config (path item)) basePath ;;
        ret (files ++ subFiles)
      else ret files) contents []
  end.

(** [downloadFileContent] *)
Definition downloadFileContent (provider : CliRepoProvider)
    (file : FileEntry) (config : FetchConfig) : promise bytes :=
  if String.eqb (cli_name provider) "github" then
    downloadGitHubFile file config
  else if String.eqb (cli_name provider) "gitlab" then
    downloadGitLabFile file config
  else cli_downloadFile provider file (token config).

(** Node's [path.join] and [path.dirname]. *)
Variable join : string -> string -> string.
Variable dirname : string -> string.

(** Node's [fs/promises]: how [mkdir(dir, { recursive: true })] and
    [writeFile(dest, data)] settle, [None] when they fulfil and the error
    when they reject. *)
Variable mkdir : string -> option exn.
Variable writeFile : string -> bytes -> option exn.

(** [await mkdir(dir, { recursive: true })] *)
Definition await_mkdir (dir : string) : M unit :=
  match mkdir dir with
  | Some e => emit (EvMkdir dir (Some e)) ;;; throw e
  | None => emit (EvMkdir dir None)
  end.

(** [await writeFile(dest, data)] *)
Definition await_writeFile (dest : string) (data : bytes) : M unit :=
  match writeFile dest data with
  | Some e => emit (EvWriteFile dest data (Some e)) ;;; throw e
  | None => emit (EvWriteFile dest data None)
  end.

(** [downloadDirectory]; [outputDir] is the extra field of
    [DownloadConfig]. *)
Definition cli_downloadDirectory (fuel : nat) (provider : CliRepoProvider)
    (config : FetchConfig) (outputDir : string) : M unit :=
  files <- cli_collectFiles fuel provider config (cfg_path config) ;;
  if bool_decide (length files = 0%nat) then
    emit (EvLog "No files found in directory.") ;;; ret tt
  else
    _ <- for_of (fun ftd (current : nat) =>
           let current := S current in
           let destPath := join outputDir (ftd_relativePath ftd) in
           emit (EvCliProgress current (length files)
                   (ftd_relativePath ftd)) ;;;
           await_mkdir (dirname destPath) ;;;
           emit (EvStart (ftd_file ftd)) ;;;
           data <- await (downloadFileContent provider (ftd_file ftd)
                            config) ;;
           await_writeFile destPath data ;;;
           ret current) files 0%nat ;;
    ret tt.

End CliProviders.

(** * Notions the properties are stated with *)

(** ** Repository trees and the providers that serve them *)

#[local] Set Warnings "-register-all".

(** A node is the entry a listing reports for it and, for a directory, the
    nodes its own listing reports. *)
Inductive tree := Node (entry : FileEntry) (children : list tree).

Definition root_entry (t : tree) : FileEntry :=
  match t with Node e _ => e end.

Definition is_file (e : FileEntry) : bool := String.eqb (type e) "file".
Definition is_dir (e : FileEntry) : bool := String.eqb (type e) "dir".

(** The file entries reachable through directories, depth first. *)
Fixpoint files_of (t : tree) : list FileEntry :=
  match t with
  | Node e children =>
    if is_file e then [e]
    else if is_dir e then concat (map files_of children)
    else []
  end.

Definition files_under (ts : list tree) : list FileEntry :=
  concat (map files_of ts).

(** [N]: the number of file nodes reachable through directories. *)
Fixpoint count_files (t : tree) : nat :=
  match t with
  | Node e children =>
    if is_file e then 1%nat
    else if is_dir e then
      foldr (fun c n => (count_files c + n)%nat) 0%nat children
    else 0%nat
  end.

Definition count_under (ts : list tree) : nat :=
  foldr (fun c n => (count_files c + n)%nat) 0%nat ts.

(** Every entry reachable through directories, files or not. *)
Fixpoint entries_of (t : tree) : list FileEntry :=
  match t with
  | Node e children =>
    e :: (if is_file e then []
          else if is_dir e then concat (map entries_of children) else [])
  end.

Definition entries_under (ts : list tree) : list FileEntry :=
  concat (map entries_of ts).

(** Nesting depth: the listing calls a walk stacks below this node. *)
Fixpoint depth (t : tree) : nat :=
  match t with
  | Node e children =>
    if is_file e then 0%nat
    else if is_dir e then
      S (foldr (fun c n => max (depth c) n) 0%nat children)
    else 0%nat
  end.

Definition depth_under (ts : list tree) : nat :=
  foldr (fun c n => max (depth c) n) 0%nat ts.

(** A listing function serves a tree when listing each reachable directory
    answers with the entries of its children. *)
Fixpoint serves (ls : FetchConfig -> option (exn + list FileEntry))
    (config : FetchConfig) (t : tree) : Prop :=
  match t with
  | Node e children =>
    is_file e = false -> is_dir e = true ->
    ls (with_path config (path e)) = Some (inr (map root_entry children)) /\
    (fix all (l : list tree) : Prop :=
       match l with
       | [] => True
       | c :: l' => serves ls config c /\ all l'
       end) children
  end.

Definition serves_all (ls : FetchConfig -> option (exn + list FileEntry))
    (config : FetchConfig) (ts : list tree) : Prop :=
  Forall (serves ls config) ts.

(** The provider answers the root listing with [ts] and serves each. *)
Definition serves_root (ls : FetchConfig -> option (exn + list FileEntry))
    (config : FetchConfig) (ts : list tree) : Prop :=
  ls config = Some (inr (map root_entry ts)) /\ serves_all ls config ts.

Definition web_listing (provider : RepoProvider)
  : FetchConfig -> option (exn + list FileEntry) :=
  fun config => Some (outcome (fetchContents provider config)).

Definition cli_listing (provider : CliRepoProvider)
  : FetchConfig -> option (exn + list FileEntry) :=
  fun config => outcome <$> cli_fetchContents provider config.

(** ** The bodies of the walkers' loops *)

(** The body of the walker's [for] loop. *)
Definition walk_step (fuel : nat) (provider : RepoProvider)
    (config : FetchConfig) (basePath : string)
    (entry : FileEntry) (collectedFiles : list FileEntry)
  : M (list FileEntry) :=
  collectedFiles <-
    (if String.eqb (type entry) "file" then
       ret (collectedFiles ++ [entry])
     else if String.eqb (type entry) "dir" then
       collectFilesRecursively fuel provider
         (with_path config (path entry)) basePath collectedFiles
     else ret collectedFiles) ;;
  emit (EvProgress (mkProgress fetching (length collectedFiles)
                      (length collectedFiles) None)) ;;;
  ret collectedFiles.

(** What the command-line walker records for a file. *)
Definition to_download (basePath : string) (e : FileEntry) : FileToDownload :=
  mkFileToDownload e (cli_relativePath basePath (path e)).

(** The body of the command-line walker's [for] loop. *)
Definition cli_walk_step (fuel : nat) (provider : CliRepoProvider)
    (config : FetchConfig) (basePath : string)
    (item : FileEntry) (files : list FileToDownload)
  : M (list FileToDownload) :=
  let relativePath := cli_relativePath basePath (path item) in
  if String.eqb (type item) "file" then
    ret (files ++ [mkFileToDownload item relativePath])
  else if String.eqb (type item) "dir" then
    subFiles <- cli_collectFiles fuel provider
                  (with_path config (path item)) basePath ;;
    ret (files ++ subFiles)
  else ret files.

(** ** Batches, their results and the phases of a run *)

Definition started_of (provider : RepoProvider) (config : FetchConfig)
    (batch : list FileEntry) : list (FileEntry * promise bytes) :=
  map (fun file => (file, downloadFile provider file config)) batch.

Definition start_events (total completed : nat) (batch : list FileEntry)
  : list event :=
  concat (map (fun file =>
                 [EvProgress (mkProgress downloading completed total
                                (Some (name file)));
                  EvStart file]) batch).

(** Whether the promise of a started download fulfils. *)
Definition fulfils (fp : FileEntry * promise bytes) : Prop :=
  exists data, outcome fp.2 = inr data.

Definition settled_ok (fp : FileEntry * promise bytes) : event :=
  EvSettle fp.1 None.

(** What the callback of a file returns, when its download fulfils. *)
Definition file_result (provider : RepoProvider) (config : FetchConfig)
    (file : FileEntry) : option FileWithContent :=
  match outcome (downloadFile provider file config) with
  | inr data =>
    Some {| relativePath := web_relativePath (cfg_path config) (path file);
            content := data |}
  | inl _ => None
  end.

Definition download_fulfils (provider : RepoProvider) (config : FetchConfig)
    (file : FileEntry) : Prop :=
  exists data, outcome (downloadFile provider file config) = inr data.

Global Instance download_fulfils_dec provider config file :
  Decision (download_fulfils provider config file).
Proof.
  unfold download_fulfils.
  destruct (outcome (downloadFile provider file config)) as [e|data].
  - right. by intros [data [=]].
  - left. by exists data.
Defined.

(** The events of enumeration. *)
Definition enumeration_event (ev : event) : Prop :=
  match ev with
  | EvList _ _ => True
  | EvProgress p => progress_phase p = fetching
  | _ => False
  end.

(** The events of the download phase. *)
Definition download_event (ev : event) : Prop :=
  match ev with
  | EvStart _ | EvSettle _ _ => True
  | EvProgress p => progress_phase p = downloading
  | _ => False
  end.

(** The events of archive assembly. *)
Definition archive_event (ev : event) : Prop :=
  match ev with
  | EvZipFile _ _ | EvSave _ => True
  | EvProgress p => progress_phase p = zipping
  | _ => False
  end.

(** The calls of [zip.file] a trace records, in order: the name and the
    data given. *)
Definition zipped_files (l : list event) : list (string * bytes) :=
  omap (fun ev => match ev with
                  | EvZipFile relPath data => Some (relPath, data)
                  | _ => None
                  end) l.

(** ** The invariant of download tasks *)

(** Whether the backslash (code unit 92) occurs in [s]. *)
Fixpoint has_backslash (s : string) : bool :=
  match s with
  | EmptyString => false
  | String c s' => Ascii.eqb c (Ascii.ascii_of_nat 92) || has_backslash s'
  end.

(** The invariant of section 3 on one [relativePath]: non-empty,
    forward-slash separators, no leading slash. *)
Definition valid_relativePath (r : string) : Prop :=
  r <> "" /\ has_backslash r = false /\ JsString.startsWith r "/" = false.

(** The invariant on the tasks of one operation. *)
Definition task_invariant (relativePaths : list string) : Prop :=
  Forall valid_relativePath relativePaths /\ NoDup relativePaths.

(** The relative paths of the tasks of a web run, once it has its results. *)
Definition web_tasks (m : M (list FileWithContent)) : list string :=
  match result m with
  | Done results => map relativePath results
  | _ => []
  end.

(** The relative paths of the tasks of a run of the command line, once its
    traversal has returned them. *)
Definition cli_tasks (m : M (list FileToDownload)) : list string :=
  match result m with
  | Done files => map ftd_relativePath files
  | _ => []
  end.


(** A single-file request, as the GitHub contents API answers it: the
    listing of [src/index.ts] is the object describing that file. *)
Definition single_file_item : GitHubContent :=
  mkGitHubContent "index.ts" "src/index.ts" "3b18e512" 5
    (Some "https://raw.githubusercontent.com/owner/repo/main/src/index.ts")
    "file".

Definition single_file_fetch (url : string) (tok : option string) : reply :=
  if String.eqb url
       "https://api.github.com/repos/owner/repo/contents/src/index.ts?ref=main"
  then mkReply 1 (FetchResponse
         (mkResponse 200 "OK" None (Some (JGitHubObject single_file_item)) []))
  else if String.eqb url
       "https://raw.githubusercontent.com/owner/repo/main/src/index.ts"
  then mkReply 1 (FetchResponse
         (mkResponse 200 "OK" None None
            [Byte.x68; Byte.x65; Byte.x6c; Byte.x6c; Byte.x6f]))
  else mkReply 1 (FetchResponse (mkResponse 404 "Not Found" None None [])).

Definition single_file_config : FetchConfig :=
  mkFetchConfig "owner" "repo" "main" "src/index.ts" None.

Definition single_file_github : RepoProvider :=
  github single_file_fetch (fun _ => None) (fun _ => []).

(** The same request through the command line's GitHub adapter. *)
Definition single_file_cli_github : CliRepoProvider :=
  cli_github single_file_fetch.

(** ** Example repositories *)

(** The scenario of section 8: a root holding [a.txt], [sub/b.txt] and
    [sub/nested/c.txt]. *)
Module Example.

Definition file_a := mkFileEntry "a.txt" "docs/a.txt" "file" 3 None None None.
Definition dir_sub := mkFileEntry "sub" "docs/sub" "dir" 0 None None None.
Definition file_b :=
  mkFileEntry "b.txt" "docs/sub/b.txt" "file" 2 None None None.
Definition dir_nested :=
  mkFileEntry "nested" "docs/sub/nested" "dir" 0 None None None.
Definition file_c :=
  mkFileEntry "c.txt" "docs/sub/nested/c.txt" "file" 1 None None None.

Definition repository : list tree :=
  [Node file_a [];
   Node dir_sub [Node file_b []; Node dir_nested [Node file_c []]]].

Definition config : FetchConfig :=
  mkFetchConfig "owner" "repo" "main" "docs" None.

Definition listing (dir : string) : exn + list FileEntry :=
  if String.eqb dir "docs" then inr [file_a; dir_sub]
  else if String.eqb dir "docs/sub" then inr [file_b; dir_nested]
  else if String.eqb dir "docs/sub/nested" then inr [file_c]
  else inl (EDownload createNotFoundError).

Definition bytes_a : bytes := [Byte.x61; Byte.x61; Byte.x61].
Definition bytes_b : bytes := [Byte.x62; Byte.x0d; Byte.x0a].
Definition bytes_c : bytes := [Byte.xff].

(** The downloads settle out of order: [c.txt] first, [a.txt] last. *)
Definition download (file : FileEntry) : promise bytes :=
  if String.eqb (path file) "docs/a.txt" then mkPromise [] 9 (inr bytes_a)
  else if String.eqb (path file) "docs/sub/b.txt" then
    mkPromise [] 5 (inr bytes_b)
  else if String.eqb (path file) "docs/sub/nested/c.txt" then
    mkPromise [] 2 (inr bytes_c)
  else mkPromise [] 1 (inl (EDownload (createProviderError
                              "Failed to download file: 404"))).

Definition provider : RepoProvider :=
  mkProvider "example"
    (fun config => mkPromise [] 1 (listing (cfg_path config)))
    (fun file _ => download file).

(** The same repository behind the command line's interface. *)
Definition cli_provider : CliRepoProvider :=
  mkCliProvider "example"
    (fun config => Some (mkPromise [] 1 (listing (cfg_path config))))
    (fun file _ => download file).

(** The same repository, where the download of [sub/b.txt] is refused. *)
Definition refusing_provider : RepoProvider :=
  mkProvider "example"
    (fun config => mkPromise [] 1 (listing (cfg_path config)))
    (fun file _ =>
       if String.eqb (path file) "docs/sub/b.txt" then
         mkPromise [] 5 (inl (EDownload (createProviderError
                                "Failed to download file: 403")))
       else download file).

(** The same repository, where listing [sub/nested] is refused. *)
Definition unlistable_provider : RepoProvider :=
  mkProvider "example"
    (fun config =>
       mkPromise [] 1
         (if String.eqb (cfg_path config) "docs/sub/nested"
          then inl (EDownload createAuthRequiredError)
          else listing (cfg_path config)))
    (fun file _ => download file).

(** A root holding only an empty directory. *)
Definition dir_empty := mkFileEntry "empty" "docs/empty" "dir" 0 None None None.

Definition empty_provider : RepoProvider :=
  mkProvider "example"
    (fun config =>
       mkPromise [] 1
         (if String.eqb (cfg_path config) "docs" then inr [dir_empty]
          else if String.eqb (cfg_path config) "docs/empty" then inr []
          else inl (EDownload createNotFoundError)))
    (fun file _ => download file).

End Example.

(** ** The events of a run *)

Definition started_fetching : event :=
  EvProgress (mkProgress fetching 0 0 None).

(** The events of [createAndDownloadZip]'s loop, from index [i]. *)
Fixpoint zip_events (total i : nat) (files : list FileWithContent)
  : list event :=
  match files with
  | [] => []
  | file :: files' =>
    EvZipFile (relativePath file) (content file)
    :: EvProgress (mkProgress zipping (i + 1) total
                     (Some (relativePath file)))
    :: zip_events total (i + 1) files'
  end.

(** The command line on a root holding only an empty directory. *)
Definition empty_cli_provider : CliRepoProvider :=
  mkCliProvider "example"
    (fun config => Some (fetchContents Example.empty_provider config))
    (fun file _ => Example.download file).

Definition no_fetch (url : string) (tok : option string) : reply :=
  mkReply 0 FetchFailed.

(** ** Failures *)

(** The events that record a failed enumeration call or a rejected
    download, with the error. *)
Definition failure_of (ev : event) : option exn :=
  match ev with
  | EvList _ (Some e) => Some e
  | EvSettle _ (Some e) => Some e
  | _ => None
  end.

(** A computation fails fast when a recorded failure is what it throws. *)
Definition fails_fast {A} (m : M A) : Prop :=
  forall ev e, ev ∈ trace m -> failure_of ev = Some e -> result m = Threw e.

(** The trace of [collectFiles] has no event of archive assembly. *)
Definition before_archive (ev : event) : Prop :=
  enumeration_event ev \/ download_event ev.

(** Nothing was put in an archive and none was handed over. *)
Definition no_archive (l : list event) : Prop :=
  forall ev, ev ∈ l -> ~ archive_event ev.

(** ** Outstanding calls *)

(** What an event does to the number of outstanding downloadFile calls. *)
Definition delta (ev : event) : Z :=
  match ev with
  | EvStart _ => 1
  | EvSettle _ _ => -1
  | _ => 0
  end.

(** The downloadFile calls outstanding after the events [l]. *)
Definition outstanding (l : list event) : Z :=
  foldr (fun ev n => delta ev + n) 0 l.

(** At every instant of [l], between none and [limit] calls are
    outstanding. *)
Definition within (limit : Z) (l : list event) : Prop :=
  forall k, 0 <= outstanding (take k l) <= limit.

(** A computation keeps within the limit when at every instant of its
    trace at most [CONCURRENT_DOWNLOADS] calls are outstanding, and none is
    when it returns. *)
Definition keeps_limit {A} (m : M A) : Prop :=
  within (Z.of_nat CONCURRENT_DOWNLOADS) (trace m) /\
  (forall a, result m = Done a -> outstanding (trace m) = 0).

(** A GitLab repository whose root [data] holds one file, [big.bin]. *)
Module GitLabExample.

Definition item : GitLabTreeItem :=
  mkGitLabTreeItem "8d14cbf9" "big.bin" "blob" "data/big.bin" "100644".

Definition config : FetchConfig :=
  mkFetchConfig "owner" "repo" "main" "data" None.

(** A stand-in for [encodeURIComponent] that only escapes the slash. *)
Fixpoint encode (s : string) : string :=
  match s with
  | EmptyString => EmptyString
  | String c s' =>
    if Ascii.eqb c (Ascii.ascii_of_nat 47) then "%2F" +:+ encode s'
    else String c (encode s')
  end.

Definition tree_url : string :=
  "https://gitlab.com/api/v4/projects/owner%2Frepo/repository/tree?ref=main&path=data&per_page=100".

Definition raw_url : string :=
  "https://gitlab.com/api/v4/projects/owner%2Frepo/repository/files/data%2Fbig.bin/raw?ref=main".

(** The server: the tree of [data], and the content [body] of the file. *)
Definition fetch (body : bytes) (url : string) (tok : option string) : reply :=
  if String.eqb url tree_url then
    mkReply 1 (FetchResponse
      (mkResponse 200 "OK" None (Some (JGitLabTree [item])) []))
  else if String.eqb url raw_url then
    mkReply 7 (FetchResponse (mkResponse 200 "OK" None None body))
  else mkReply 1 (FetchResponse (mkResponse 404 "Not Found" None None [])).

Definition provider (body : bytes) : RepoProvider :=
  gitlab (fetch body) encode.

(** The entry the adapter reports for the file. *)
Definition entry : FileEntry :=
  mkFileEntry "big.bin" "data/big.bin" "file" 0 None None (Some "8d14cbf9").

(** A content of 100MB and one byte. *)
Definition big : bytes := replicate (Z.to_nat 104857601) Byte.x00.

End GitLabExample.

(** A GitHub directory [docs] holding a file and a symbolic link, and a
    directory [deps] holding a file and a submodule. *)
Module GitHubExample.

Definition item_a : GitHubContent :=
  mkGitHubContent "a.txt" "docs/a.txt" "78981922" 3
    (Some "https://raw.githubusercontent.com/owner/repo/main/docs/a.txt")
    "file".

Definition item_link : GitHubContent :=
  mkGitHubContent "latest" "docs/latest" "1de56593" 5
    (Some "https://raw.githubusercontent.com/owner/repo/main/docs/latest")
    "symlink".

Definition item_b : GitHubContent :=
  mkGitHubContent "b.txt" "deps/b.txt" "61780798" 1
    (Some "https://raw.githubusercontent.com/owner/repo/main/deps/b.txt")
    "file".

Definition item_module : GitHubContent :=
  mkGitHubContent "vendor" "deps/vendor" "f2ad6c76" 0 None "submodule".

Definition bytes_a : bytes := [Byte.x61; Byte.x61; Byte.x61].
Definition bytes_b : bytes := [Byte.x62].
(** What the raw URL of a symbolic link serves: the path it points to. *)
Definition bytes_link : bytes :=
  [Byte.x61; Byte.x2e; Byte.x74; Byte.x78; Byte.x74].

Definition fetch (url : string) (tok : option string) : reply :=
  let json_reply j := mkReply 1 (FetchResponse
                        (mkResponse 200 "OK" None (Some j) [])) in
  let raw_reply b := mkReply 1 (FetchResponse
                       (mkResponse 200 "OK" None None b)) in
  if String.eqb url
       "https://api.github.com/repos/owner/repo/contents/docs?ref=main"
  then json_reply (JGitHubArray [item_a; item_link])
  else if String.eqb url
       "https://api.github.com/repos/owner/repo/contents/deps?ref=main"
  then json_reply (JGitHubArray [item_b; item_module])
  else if String.eqb url
       "https://raw.githubusercontent.com/owner/repo/main/docs/a.txt"
  then raw_reply bytes_a
  else if String.eqb url
       "https://raw.githubusercontent.com/owner/repo/main/docs/latest"
  then raw_reply bytes_link
  else if String.eqb url
       "https://raw.githubusercontent.com/owner/repo/main/deps/b.txt"
  then raw_reply bytes_b
  else mkReply 1 (FetchResponse (mkResponse 404 "Not Found" None None [])).

Definition docs : FetchConfig := mkFetchConfig "owner" "repo" "main" "docs" None.
Definition deps : FetchConfig := mkFetchConfig "owner" "repo" "main" "deps" None.

Definition web : RepoProvider := github fetch (fun _ => None) (fun _ => []).

End GitHubExample.

(** * Further code and notions *)

(** ** What a trace records *)

(** The directories [fetchContents] was called for, in order. *)
Definition listed_dirs (l : list event) : list string :=
  omap (fun ev => match ev with EvList dir _ => Some dir | _ => None end) l.

(** The files [downloadFile] was called for, in order. *)
Definition started_files (l : list event) : list FileEntry :=
  omap (fun ev => match ev with EvStart file => Some file | _ => None end) l.

(** The calls of [writeFile] that fulfilled, in order: the destination and
    the data written. *)
Definition written_files (l : list event) : list (string * bytes) :=
  omap (fun ev => match ev with
                  | EvWriteFile dest data None => Some (dest, data)
                  | _ => None
                  end) l.

(** The paths of the directories reachable through directories, each
    before the directories below it. *)
Fixpoint dirs_of (t : tree) : list string :=
  match t with
  | Node e children =>
    if is_file e then []
    else if is_dir e then path e :: concat (map dirs_of children)
    else []
  end.

Definition dirs_under (ts : list tree) : list string :=
  concat (map dirs_of ts).

(** A progress report a percentage can be made of: [current] does not
    exceed [total], and stays below it while files are still downloading. *)
Definition sound_progress (ev : event) : Prop :=
  match ev with
  | EvProgress p =>
    (current p <= total p)%nat /\
    (progress_phase p = downloading -> (current p < total p)%nat)
  | _ => True
  end.

(** Two providers that answer alike, whenever their answers arrive. *)
Definition same_answers (p q : RepoProvider) : Prop :=
  (forall config,
     outcome (fetchContents p config) = outcome (fetchContents q config)) /\
  (forall file config,
     outcome (downloadFile p file config)
     = outcome (downloadFile q file config)).

(** The provider [p] with its answers arriving at other instants. *)
Definition retimed (p : RepoProvider)
    (listing_time : FetchConfig -> nat)
    (download_time : FileEntry -> FetchConfig -> nat) : RepoProvider :=
  mkProvider (prov_name p)
    (fun config =>
       mkPromise (requests (fetchContents p config)) (listing_time config)
         (outcome (fetchContents p config)))
    (fun file config =>
       mkPromise (requests (downloadFile p file config))
         (download_time file config)
         (outcome (downloadFile p file config))).

(** ** Listings under the root *)


(** ** The command line's write loop *)

Section CliWrites.

Variable fetch : string -> option string -> reply.
Variable encodeURIComponent : string -> string.
Variable from_base64 : string -> bytes.
Variable join : string -> string -> string.
Variable dirname : string -> string.
Variable mkdir : string -> option exn.
Variable writeFile : string -> bytes -> option exn.

(** The body of [downloadDirectory]'s [for] loop, [total] being
    [files.length]. *)
Definition cli_write_step (provider : CliRepoProvider) (config : FetchConfig)
    (outputDir : string) (total : nat) (ftd : FileToDownload) (current : nat)
  : M nat :=
  let current := S current in
  let destPath := join outputDir (ftd_relativePath ftd) in
  emit (EvCliProgress current total (ftd_relativePath ftd)) ;;;
  await_mkdir mkdir (dirname destPath) ;;;
  emit (EvStart (ftd_file ftd)) ;;;
  data <- await (downloadFileContent fetch encodeURIComponent from_base64
                   provider (ftd_file ftd) config) ;;
  await_writeFile writeFile destPath data ;;;
  ret current.

(** What the three awaits of the loop's body come to for one file: the
    error of the first that rejects ([mkdir], the download, [writeFile], in
    that order), or else the destination and the data written there. *)
Definition cli_file_outcome (provider : CliRepoProvider)
    (config : FetchConfig) (outputDir : string) (ftd : FileToDownload)
  : exn + (string * bytes) :=
  let destPath := join outputDir (ftd_relativePath ftd) in
  match mkdir (dirname destPath) with
  | Some e => inl e
  | None =>
    match outcome (downloadFileContent fetch encodeURIComponent from_base64
                     provider (ftd_file ftd) config) with
    | inl e => inl e
    | inr data =>
      match writeFile destPath data with
      | Some e => inl e
      | None => inr (destPath, data)
      end
    end
  end.

(** The directory of a file can be made, its content arrives and the write
    is accepted. *)
Definition cli_fulfils (provider : CliRepoProvider) (config : FetchConfig)
    (outputDir : string) (ftd : FileToDownload) : Prop :=
  exists data,
    mkdir (dirname (join outputDir (ftd_relativePath ftd))) = None /\
    outcome (downloadFileContent fetch encodeURIComponent from_base64
               provider (ftd_file ftd) config) = inr data /\
    writeFile (join outputDir (ftd_relativePath ftd)) data = None.

(** What is written for files whose content arrives: each at
    [join(outputDir, relativePath)], with the content downloaded. *)
Definition cli_writes (provider : CliRepoProvider) (config : FetchConfig)
    (outputDir : string) (files : list FileToDownload)
  : list (string * bytes) :=
  omap (fun ftd =>
          match outcome (downloadFileContent fetch encodeURIComponent
                           from_base64 provider (ftd_file ftd) config) with
          | inr data => Some (join outputDir (ftd_relativePath ftd), data)
          | inl _ => None
          end) files.

End CliWrites.

(** A stand-in for [path.join] on two relative paths. *)
Definition join_paths (a b : string) : string := a +:+ "/" +:+ b.

(** A file system that accepts every call. *)
Definition accepting_mkdir (dir : string) : option exn := None.
Definition accepting_writeFile (dest : string) (data : bytes) : option exn :=
  None.

(** A file system in which [out/sub/b.txt] cannot be written. *)
Definition refusing_writeFile (dest : string) (data : bytes) : option exn :=
  if String.eqb dest "out/sub/b.txt" then
    Some (EError "EACCES: permission denied, open 'out/sub/b.txt'")
  else None.

(** ** The pages of the command line's GitLab listing *)

Section GitLabPages.

Variable fetch : string -> option string -> reply.
Variable encodeURIComponent : string -> string.

(** The URL [gitlab.fetchContents] requests for a page. *)
Definition gitlab_page_url (config : FetchConfig) (page : nat) : string :=
  API_BASE_GITLAB +:+ "/projects/"
  +:+ cli_encodeProjectId encodeURIComponent (owner config) (repo config)
  +:+ "/repository/tree?path="
  +:+ encodeURIComponent (cfg_path config)
  +:+ "&ref=" +:+ branch config
  +:+ "&per_page=" +:+ pretty perPage
  +:+ "&page=" +:+ pretty page.

(** The server answers the request for [page] with [items]. *)
Definition serves_page (config : FetchConfig) (page : nat)
    (items : list GitLabTreeItem) : Prop :=
  exists r,
    fetch_result (fetch (gitlab_page_url config page) (token config))
    = FetchResponse r /\
    ok r = true /\
    json_body r = Some (JGitLabTree items).

End GitLabPages.

(** A GitLab directory of 101 entries, served in pages of 100. *)
Module GitLabPagesExample.

Definition config : FetchConfig :=
  mkFetchConfig "owner" "repo" "main" "data" None.

Definition item (n : nat) : GitLabTreeItem :=
  mkGitLabTreeItem "8d14cbf9" ("f" +:+ pretty n) "blob"
    ("data/f" +:+ pretty n) "100644".

Definition first_page : list GitLabTreeItem := map item (seq 0 100).
Definition second_page : list GitLabTreeItem := [item 100].

Definition fetch (url : string) (tok : option string) : reply :=
  let json_reply items := mkReply 1 (FetchResponse
                            (mkResponse 200 "OK" None
                               (Some (JGitLabTree items)) [])) in
  if String.eqb url (gitlab_page_url GitLabExample.encode config 1)
  then json_reply first_page
  else if String.eqb url (gitlab_page_url GitLabExample.encode config 2)
  then json_reply second_page
  else mkReply 1 (FetchResponse (mkResponse 404 "Not Found" None None [])).

(** A server that answers every page with the same 100 entries. *)
Definition endless_fetch (url : string) (tok : option string) : reply :=
  mkReply 1 (FetchResponse
    (mkResponse 200 "OK" None (Some (JGitLabTree first_page)) [])).

End GitLabPagesExample.

(** ** What a settled adapter call says about the transport *)

(** A call one of whose requests was aborted rejects with the transport's
    [AbortError], and a call rejects with a [DownloadError] of code
    [NETWORK_ERROR] exactly when one of its requests failed in the
    network. *)
Definition reports_transport {A} (fetch : string -> option string -> reply)
    (tok : option string) (p : promise A) : Prop :=
  ((exists url, url ∈ requests p /\
                fetch_result (fetch url tok) = FetchAborted) ->
   outcome p = inl EAbort) /\
  ((exists e, outcome p = inl (EDownload e) /\ code e = NETWORK_ERROR) <->
   exists url, url ∈ requests p /\
               fetch_result (fetch url tok) = FetchFailed).

(** A continuation on the response that reports no network error. *)
Definition transport_free {A} (k : Response -> exn + A) : Prop :=
  forall r e, k r = inl (EDownload e) -> code e <> NETWORK_ERROR.

(** The first code unit of a string. *)
Definition first_unit (s : string) : option Ascii.ascii :=
  match s with
  | EmptyString => None
  | String c _ => Some c
  end.

(** The messages with which the command line's [github.downloadFile] and
    [gitlab.downloadFile] refuse to download. *)
Definition redirect_message (msg : string) : Prop :=
  msg = "Use downloadGitHubFile with config for this file" \/
  msg = "Use downloadGitLabFile with config".

(** ** Path segments *)

(** [xs.join("/")] *)
Fixpoint join_slash (xs : list string) : string :=
  match xs with
  | [] => ""
  | x :: xs' =>
    match xs' with
    | [] => x
    | _ :: _ => x +:+ "/" +:+ join_slash xs'
    end
  end.

(** Whether the slash (code unit 47) does not occur in [s]. *)
Fixpoint no_slash (s : string) : bool :=
  match s with
  | EmptyString => true
  | String c s' => negb (Ascii.eqb c (Ascii.ascii_of_nat 47)) && no_slash s'
  end.

(** A path segment: not empty, and without a slash. *)
Definition segment (s : string) : Prop := s <> "" /\ no_slash s = true.

(** A path in normal form: segments joined by single slashes, so without
    a leading, a trailing or a doubled slash. *)
Definition normal_path (s : string) : Prop :=
  exists segs, s = join_slash segs /\ Forall segment segs.

(** ** Repository URLs (web/lib/providers and the download form) *)

(** JavaScript's relative index of [slice]: a negative index counts from
    the end, and every index is clamped to the array. *)
Definition js_rel (len : nat) (i : Z) : nat :=
  if i <? 0 then Z.to_nat (Z.max 0 (Z.of_nat len + i))
  else Nat.min (Z.to_nat i) len.

(** [xs.slice(start)] and [xs.slice(start, stop)] *)
Definition js_slice_from {A} (xs : list A) (start : Z) : list A :=
  drop (js_rel (length xs) start) xs.
Definition js_slice {A} (xs : list A) (start stop : Z) : list A :=
  take (js_rel (length xs) stop - js_rel (length xs) start)
    (drop (js_rel (length xs) start) xs).

(** [xs[i]]: [undefined] out of range. *)
Definition js_at {A} (xs : list A) (i : Z) : option A :=
  if i <? 0 then None else xs !! Z.to_nat i.

(** [xs.indexOf(x)] on strings: -1 when [x] is no element. *)
Fixpoint js_indexOf (x : string) (xs : list string) : Z :=
  match xs with
  | [] => -1
  | y :: xs' =>
    if String.eqb y x then 0
    else let i := js_indexOf x xs' in if i <? 0 then -1 else i + 1
  end.

(** What the sources read of [new URL(url)]. *)
Record Location := mkLocation {
  hostname : string;
  pathname : string;
}.

(** [ParsedUrl] (web/lib/types.ts).  [parsed_repo] is [undefined] where
    the GitLab adapter reads [parts[treeIndex - 1]] out of range. *)
Record ParsedUrl := mkParsedUrl {
  parsed_owner : string;
  parsed_repo : option string;
  parsed_branch : string;
  parsed_path : string;
}.

(** What every successful [parseUrl] returns: a branch that is a segment,
    a path and an owner in normal form and, unless it is [undefined], a
    repository name that is a segment. *)
Definition well_formed (parsed : ParsedUrl) : Prop :=
  segment (parsed_branch parsed) /\
  normal_path (parsed_path parsed) /\
  normal_path (parsed_owner parsed) /\
  (forall r, parsed_repo parsed = Some r -> segment r).

(** The [canHandle] and [parseUrl] of a [RepoProvider]. *)
Record UrlProvider := mkUrlProvider {
  url_name : string;
  canHandle : string -> bool;
  parseUrl : string -> exn + ParsedUrl;
}.

Section WebUrls.

(** The constructor [new URL(url)]; [None] when it throws its
    [TypeError]. *)
Variable URL : string -> option Location.

(** The [TypeError] of [new URL]. *)
Definition invalid_url : exn := EError "Invalid URL".

(** [parsed.pathname.split("/").filter(Boolean)] *)
Definition pathname_parts (p : string) : list string :=
  filter (fun s => JsString.truthy s = true) (split_slash "" p).

(** [try { return new URL(url).hostname === host } catch { return false }] *)
Definition canHandle_host (host url : string) : bool :=
  match URL url with
  | Some parsed => String.eqb (hostname parsed) host
  | None => false
  end.

(** github.ts, [parseUrl].  The test [parts.length < 2] is the last case
    of the match on [parts]; [parts[3]] is read where [parts.length > 3],
    so it is defined. *)
Definition github_parseUrl (url : string) : exn + ParsedUrl :=
  match URL url with
  | None => inl invalid_url
  | Some parsed =>
    let parts := pathname_parts (pathname parsed) in
    match parts with
    | owner :: repo :: _ =>
      if bool_decide (3 < length parts)%nat
         && (eq_opt_string (js_at parts 2) "tree"
             || eq_opt_string (js_at parts 2) "blob")
      then inr (mkParsedUrl owner (Some repo) (default "" (js_at parts 3))
                  (join_slash (js_slice_from parts 4)))
      else inr (mkParsedUrl owner (Some repo) "main" "")
    | _ => inl (EError "Invalid GitHub URL: missing owner/repo")
    end
  end.

Definition github_urls : UrlProvider :=
  mkUrlProvider "github" (canHandle_host "github.com") github_parseUrl.

(** gitlab.ts, [parseUrl].  With [treeIndex = 0], [parts[treeIndex - 1]]
    is [undefined] and [parts.slice(0, treeIndex - 1)] is
    [parts.slice(0, -1)]. *)
Definition gitlab_parseUrl (url : string) : exn + ParsedUrl :=
  match URL url with
  | None => inl invalid_url
  | Some parsed =>
    let parts := pathname_parts (pathname parsed) in
    if bool_decide (length parts < 2)%nat then
      inl (EError "Invalid GitLab URL: missing owner/repo")
    else
      let treeIndex := js_indexOf "-" parts in
      if treeIndex =? -1 then
        inr (mkParsedUrl (join_slash (js_slice parts 0 (-1)))
               (js_at parts (Z.of_nat (length parts) - 1)) "main" "")
      else
        let repo := js_at parts (treeIndex - 1) in
        let owner := join_slash (js_slice parts 0 (treeIndex - 1)) in
        if eq_opt_string (js_at parts (treeIndex + 1)) "tree"
           || eq_opt_string (js_at parts (treeIndex + 1)) "blob"
        then inr (mkParsedUrl owner repo
                    (or_else (js_at parts (treeIndex + 2)) "main")
                    (join_slash (js_slice_from parts (treeIndex + 3))))
        else inr (mkParsedUrl owner repo "main" "")
  end.

Definition gitlab_urls : UrlProvider :=
  mkUrlProvider "gitlab" (canHandle_host "gitlab.com") gitlab_parseUrl.

(** bitbucket.ts, [parseUrl], of the same shape as GitHub's. *)
Definition bitbucket_parseUrl (url : string) : exn + ParsedUrl :=
  match URL url with
  | None => inl invalid_url
  | Some parsed =>
    let parts := pathname_parts (pathname parsed) in
    match parts with
    | workspace :: repo :: _ =>
      if bool_decide (3 < length parts)%nat
         && eq_opt_string (js_at parts 2) "src"
      then inr (mkParsedUrl workspace (Some repo) (default "" (js_at parts 3))
                  (join_slash (js_slice_from parts 4)))
      else inr (mkParsedUrl workspace (Some repo) "main" "")
    | _ => inl (EError "Invalid Bitbucket URL: missing workspace/repo")
    end
  end.

Definition bitbucket_urls : UrlProvider :=
  mkUrlProvider "bitbucket" (canHandle_host "bitbucket.org")
    bitbucket_parseUrl.

(** providers/index.ts *)
Definition providers : list UrlProvider :=
  [github_urls; gitlab_urls; bitbucket_urls].

Definition detectProvider (url : string) : option UrlProvider :=
  List.find (fun provider => canHandle provider url) providers.

Definition getProviderName (url : string) : option string :=
  url_name <$> detectProvider url.

(** download-form.tsx *)
Definition detectProviderName (url : string) : option string :=
  match URL url with
  | Some parsed =>
    if String.eqb (hostname parsed) "github.com" then Some "github"
    else if String.eqb (hostname parsed) "gitlab.com" then Some "gitlab"
    else if String.eqb (hostname parsed) "bitbucket.org" then Some "bitbucket"
    else None
  | None => None
  end.

Definition isValidRepoUrl (url : string) : bool :=
  match detectProviderName url with
  | None => false
  | Some _ =>
    match URL url with
    | Some parsed =>
      bool_decide (2 <= length (pathname_parts (pathname parsed)))%nat
    | None => false
    end
  end.

End WebUrls.

(** A stand-in for [new URL] on URLs of the form [https://host/path]. *)
Definition https_URL (url : string) : option Location :=
  if JsString.startsWith url "https://" then
    let rest := JsString.slice 8 url in
    match JsString.indexOf "/" rest with
    | Some i => Some (mkLocation (JsString.take i rest) (JsString.slice i rest))
    | None => Some (mkLocation rest "/")
    end
  else None.

(** ** Errors (web/lib/errors.ts), continued *)

Definition createCorsError : DownloadError :=
  mkDownloadError "CORS blocked" CORS_BLOCKED
    "Try a different browser or use a token" true.
Definition createInvalidUrlError : DownloadError :=
  mkDownloadError "Invalid URL" INVALID_URL
    "Enter a valid GitHub, GitLab, or Bitbucket URL" false.

(** The errors the factories of errors.ts make. *)
Inductive from_factory : DownloadError -> Prop :=
  | made_RateLimit provider : from_factory (createRateLimitError provider)
  | made_NotFound : from_factory createNotFoundError
  | made_AuthRequired : from_factory createAuthRequiredError
  | made_InvalidToken : from_factory createInvalidTokenError
  | made_Network : from_factory createNetworkError
  | made_EmptyDirectory : from_factory createEmptyDirectoryError
  | made_FileTooLarge filename :
      from_factory (createFileTooLargeError filename)
  | made_Cors : from_factory createCorsError
  | made_InvalidUrl : from_factory createInvalidUrlError
  | made_Provider msg : from_factory (createProviderError msg).

(** The codes of the errors that may be retried. *)
Definition retryable_code (c : DownloadErrorCode) : bool :=
  match c with
  | NOT_FOUND | EMPTY_DIRECTORY | FILE_TOO_LARGE | INVALID_URL => false
  | _ => true
  end.

(** An error made by a factory other than [createCorsError] and
    [createInvalidUrlError]. *)
Definition engine_error (e : DownloadError) : Prop :=
  from_factory e /\ code e <> CORS_BLOCKED /\ code e <> INVALID_URL.

(** An event that records a failure records a rejection of the
    provider: of a listing, or of the download of the file of the event. *)
Definition genuine (provider : RepoProvider) (config : FetchConfig)
    (ev : event) : Prop :=
  match ev with
  | EvList dir (Some e) =>
    exists config', outcome (fetchContents provider config') = inl e
  | EvSettle file (Some e) =>
    outcome (downloadFile provider file config) = inl e
  | _ => True
  end.

(** What a computation throws is recorded in its trace. *)
Definition throws_recorded {A} (m : M A) : Prop :=
  forall e, result m = Threw e ->
            exists ev, ev ∈ trace m /\ failure_of ev = Some e.

(** * Properties *)

(** ** Strings *)

Module JsStringFacts.
Import JsString.

Lemma app_nil (r : string) : "" +:+ r = r.
Proof. reflexivity. Qed.

Lemma app_cons (c : Ascii.ascii) (s r : string) :
  String c s +:+ r = String c (s +:+ r).
Proof. reflexivity. Qed.

Lemma prefix_app (p r : string) : String.prefix p (p +:+ r) = true.
Proof.
  induction p as [|c p IH]; [rewrite app_nil|rewrite app_cons]; simpl.
  - by destruct r.
  - destruct (Ascii.ascii_dec c c); [exact IH | congruence].
Qed.

Lemma slice_app (p r : string) : slice (String.length p) (p +:+ r) = r.
Proof.
  induction p as [|c p IH]; [rewrite app_nil|rewrite app_cons]; simpl;
    [done | exact IH].
Qed.

Lemma prefix_split (p s : string) :
  String.prefix p s = true -> s = p +:+ slice (String.length p) s.
Proof.
  revert s. induction p as [|c p IH]; intros s H; simpl in *.
  - by destruct s.
  - destruct s as [|d s]; simpl in H; [discriminate|].
    destruct (Ascii.ascii_dec c d) as [->|]; [|discriminate].
    rewrite app_cons. f_equal. by apply IH.
Qed.

Lemma app_assoc (a b c : string) : (a +:+ b) +:+ c = a +:+ (b +:+ c).
Proof.
  induction a as [|x a IH]; [done|]. by rewrite !app_cons, IH.
Qed.

Lemma length_app (a b : string) :
  String.length (a +:+ b) = (String.length a + String.length b)%nat.
Proof.
  induction a as [|x a IH]; [done|]. rewrite app_cons. simpl. by rewrite IH.
Qed.

End JsStringFacts.

(** ** The relativizers and [dirName] on examples *)

Example web_rel_1 : web_relativePath "src" "src/a/b.txt" = "a/b.txt".
Proof. reflexivity. Qed.
Example web_rel_2 : web_relativePath "" "/a/b.txt" = "a/b.txt".
Proof. reflexivity. Qed.
Example web_rel_3 : web_relativePath "src" "srcfoo/a.txt" = "foo/a.txt".
Proof. reflexivity. Qed.
Example web_rel_4 : web_relativePath "src/index.ts" "src/index.ts" = "".
Proof. reflexivity. Qed.
Example cli_rel_1 : cli_relativePath "src" "src/a/b.txt" = "a/b.txt".
Proof. reflexivity. Qed.
Example cli_rel_2 : cli_relativePath "b" "a/b/c" = "a//c".
Proof. reflexivity. Qed.
Example cli_rel_3 : cli_relativePath "" "/a/b" = "a/b".
Proof. reflexivity. Qed.

Example dirName_1 :
  dirName (mkFetchConfig "o" "r" "main" "src/components" None) = "components".
Proof. reflexivity. Qed.
Example dirName_2 : dirName (mkFetchConfig "o" "r" "main" "" None) = "r".
Proof. reflexivity. Qed.

(** ** The engine monad *)

Lemma bind_Done {A B} (l : list event) (a : A) (f : A -> M B) :
  bind (l, Done a) f = (l ++ trace (f a), result (f a)).
Proof. unfold bind, trace, result. by destruct (f a). Qed.

Lemma bind_Threw {A B} (l : list event) (e : exn) (f : A -> M B) :
  bind (l, Threw e) f = (l, Threw e).
Proof. reflexivity. Qed.

Lemma result_bind_Done {A B} (m : M A) (a : A) (f : A -> M B) :
  result m = Done a -> result (bind m f) = result (f a).
Proof.
  destruct m as [l r]. intros H. change (r = Done a) in H. subst r.
  by rewrite bind_Done.
Qed.

Lemma result_bind_inv {A B} (m : M A) (f : A -> M B) (b : B) :
  result (bind m f) = Done b ->
  exists a, result m = Done a /\ result (f a) = Done b.
Proof.
  destruct m as [l [a|e|]]; [|done..].
  rewrite bind_Done. simpl. eauto.
Qed.

(** ** Repository trees *)

Lemma tree_ind_forall (P : tree -> Prop) :
  (forall e children, Forall P children -> P (Node e children)) ->
  forall t, P t.
Proof.
  intros step. fix IH 1. intros [e children]. apply step.
  induction children as [|c cs IHcs]; constructor; [apply IH | exact IHcs].
Qed.

Lemma serves_Node ls config e children :
  serves ls config (Node e children) <->
  (is_file e = false -> is_dir e = true ->
   ls (with_path config (path e)) = Some (inr (map root_entry children)) /\
   serves_all ls config children).
Proof.
  unfold serves_all. simpl.
  assert (Hall : (fix all (l : list tree) : Prop :=
            match l with
            | [] => True
            | c :: l' => serves ls config c /\ all l'
            end) children <-> Forall (serves ls config) children).
  { induction children as [|c cs IH]; [by split; [constructor|]|].
    rewrite Forall_cons. by rewrite IH. }
  split; intros H Hf Hd; (split; [apply H | apply Hall, H]); done.
Qed.

Lemma with_path_with_path config p q :
  with_path (with_path config p) q = with_path config q.
Proof. reflexivity. Qed.

Lemma serves_with_path ls config p t :
  serves ls (with_path config p) t <-> serves ls config t.
Proof.
  induction t as [e children IH] using tree_ind_forall.
  rewrite !serves_Node, with_path_with_path. unfold serves_all.
  assert (Forall (serves ls (with_path config p)) children <->
          Forall (serves ls config) children) as ->; [|done].
  induction IH as [|c cs Hc _ IHcs]; [by split; constructor|].
  by rewrite !Forall_cons, Hc, IHcs.
Qed.

Lemma length_files_of t : length (files_of t) = count_files t.
Proof.
  induction t as [e children IH] using tree_ind_forall. simpl.
  destruct (is_file e); [done|]. destruct (is_dir e); [|done].
  induction IH as [|c cs Hc _ IHcs]; simpl; [done|].
  by rewrite length_app, Hc, IHcs.
Qed.

Lemma length_files_under ts : length (files_under ts) = count_under ts.
Proof.
  unfold files_under, count_under.
  induction ts as [|t ts IH]; simpl; [done|].
  by rewrite length_app, length_files_of, IH.
Qed.

Lemma files_of_sublist t : files_of t `sublist_of` entries_of t.
Proof.
  induction t as [e children IH] using tree_ind_forall. simpl.
  destruct (is_file e); [by apply sublist_skip || reflexivity|].
  destruct (is_dir e); [|by apply sublist_nil_l].
  apply sublist_cons.
  induction IH as [|c cs Hc _ IHcs]; simpl; [done|].
  by apply sublist_app.
Qed.

Lemma files_under_sublist ts : files_under ts `sublist_of` entries_under ts.
Proof.
  unfold files_under, entries_under.
  induction ts as [|t ts IH]; simpl; [done|].
  apply sublist_app; [apply files_of_sublist | exact IH].
Qed.

(** ** The walkers on a served tree *)

Lemma collectFilesRecursively_S fuel provider config basePath acc :
  collectFilesRecursively (S fuel) provider config basePath acc =
  (entries <- await_fetchContents provider config ;;
   for_of (walk_step fuel provider config basePath) entries acc).
Proof. reflexivity. Qed.

Lemma await_fetchContents_ok provider config entries :
  outcome (fetchContents provider config) = inr entries ->
  await_fetchContents provider config
  = ([EvList (cfg_path config) None], Done entries).
Proof. unfold await_fetchContents. by intros ->. Qed.

Lemma foldl_app_files (ts : list tree) (acc : list FileEntry) :
  foldl (fun s t => s ++ files_of t) acc ts = acc ++ files_under ts.
Proof.
  unfold files_under. revert acc.
  induction ts as [|t ts IH]; intros acc; simpl.
  - by rewrite app_nil_r.
  - by rewrite IH, app_assoc.
Qed.

Lemma walk_forest fuel provider config basePath ts :
  Forall (fun t => forall acc,
            result (walk_step fuel provider config basePath (root_entry t) acc)
            = Done (acc ++ files_of t)) ts ->
  forall acc,
    result (for_of (walk_step fuel provider config basePath)
              (map root_entry ts) acc)
    = Done (acc ++ files_under ts).
Proof.
  intros H acc. rewrite <- foldl_app_files. revert acc.
  induction H as [|t ts Ht _ IH]; intros acc; simpl; [done|].
  rewrite (result_bind_Done _ _ _ (Ht acc)). apply IH.
Qed.

Lemma depth_under_le ts fuel :
  (depth_under ts <= fuel)%nat <-> Forall (fun t => (depth t <= fuel)%nat) ts.
Proof.
  unfold depth_under. induction ts as [|t ts IH]; simpl.
  - split; [constructor | lia].
  - rewrite Forall_cons, <- IH. lia.
Qed.

(** One step of the web walker on a served node adds exactly the files the
    node holds. *)
Lemma walk_tree provider basePath t :
  forall config fuel acc,
    serves (web_listing provider) config t ->
    (depth t <= fuel)%nat ->
    result (walk_step fuel provider config basePath (root_entry t) acc)
    = Done (acc ++ files_of t).
Proof.
  induction t as [e children IH] using tree_ind_forall.
  intros config fuel acc Hs' Hd.
  pose proof (proj1 (serves_Node _ _ _ _) Hs') as Hs. clear Hs'.
  simpl in Hd |- *. unfold walk_step, is_file, is_dir in *.
  destruct (String.eqb (type e) "file") eqn:Hf.
  { by erewrite result_bind_Done by reflexivity. }
  destruct (String.eqb (type e) "dir") eqn:Hdir.
  2:{ erewrite result_bind_Done by reflexivity. by rewrite app_nil_r. }
  destruct fuel as [|fuel]; [lia|].
  destruct (Hs eq_refl eq_refl) as [Hls Hall]. unfold web_listing in Hls.
  injection Hls as Hls.
  assert (Hrec : result (collectFilesRecursively (S fuel) provider
                   (with_path config (path e)) basePath acc)
                 = Done (acc ++ files_under children)).
  { rewrite collectFilesRecursively_S.
    rewrite (await_fetchContents_ok _ _ _ Hls), bind_Done. simpl.
    apply walk_forest.
    assert (Hdepth : Forall (fun t => (depth t <= fuel)%nat) children).
    { apply depth_under_le. unfold depth_under. lia. }
    unfold serves_all in Hall.
    clear Hls Hs Hd. induction IH as [|c cs Hc _ IHcs]; [constructor|].
    inversion Hall; subst. inversion Hdepth; subst.
    constructor; [|by apply IHcs].
    intros acc'. apply Hc; [|done]. by apply serves_with_path. }
  by erewrite result_bind_Done by exact Hrec.
Qed.

(** The web walker on a served root returns the files under it, depth
    first, for every fuel above the nesting depth. *)
Lemma collectFilesRecursively_served provider config basePath ts fuel acc :
  serves_root (web_listing provider) config ts ->
  (depth_under ts < fuel)%nat ->
  result (collectFilesRecursively fuel provider config basePath acc)
  = Done (acc ++ files_under ts).
Proof.
  intros [Hls Hall] Hfuel. destruct fuel as [|fuel]; [lia|].
  unfold web_listing in Hls. injection Hls as Hls.
  rewrite collectFilesRecursively_S.
  rewrite (await_fetchContents_ok _ _ _ Hls), bind_Done. simpl.
  apply walk_forest.
  assert (Hdepth : Forall (fun t => (depth t <= fuel)%nat) ts).
  { apply depth_under_le. lia. }
  unfold serves_all in Hall. clear Hls Hfuel.
  induction Hall as [|t ts' Ht _ IH]; [constructor|].
  inversion Hdepth; subst. constructor; [|by apply IH].
  intros acc'. by apply walk_tree.
Qed.

Lemma cli_collectFiles_S fuel provider config basePath :
  cli_collectFiles (S fuel) provider config basePath =
  (contents <- cli_await_fetchContents provider config ;;
   for_of (cli_walk_step fuel provider config basePath) contents []).
Proof. reflexivity. Qed.

Lemma cli_await_fetchContents_ok provider config entries :
  cli_listing provider config = Some (inr entries) ->
  cli_await_fetchContents provider config
  = ([EvList (cfg_path config) None], Done entries).
Proof.
  unfold cli_listing, cli_await_fetchContents.
  destruct (cli_fetchContents provider config) as [p|]; [|done].
  simpl. intros [= ->]. done.
Qed.

Lemma cli_walk_forest fuel provider config basePath ts :
  Forall (fun t => forall acc,
            result (cli_walk_step fuel provider config basePath
                      (root_entry t) acc)
            = Done (acc ++ map (to_download basePath) (files_of t))) ts ->
  forall acc,
    result (for_of (cli_walk_step fuel provider config basePath)
              (map root_entry ts) acc)
    = Done (acc ++ map (to_download basePath) (files_under ts)).
Proof.
  unfold files_under.
  induction 1 as [|t ts Ht _ IH]; intros acc; simpl.
  - by rewrite app_nil_r.
  - rewrite (result_bind_Done _ _ _ (Ht acc)), IH.
    by rewrite map_app, app_assoc.
Qed.

Lemma cli_walk_tree provider basePath t :
  forall config fuel acc,
    serves (cli_listing provider) config t ->
    (depth t <= fuel)%nat ->
    result (cli_walk_step fuel provider config basePath (root_entry t) acc)
    = Done (acc ++ map (to_download basePath) (files_of t)).
Proof.
  induction t as [e children IH] using tree_ind_forall.
  intros config fuel acc Hs' Hd.
  pose proof (proj1 (serves_Node _ _ _ _) Hs') as Hs. clear Hs'.
  simpl in Hd |- *. unfold cli_walk_step, is_file, is_dir in *.
  destruct (String.eqb (type e) "file") eqn:Hf; [done|].
  destruct (String.eqb (type e) "dir") eqn:Hdir.
  2:{ simpl. by rewrite app_nil_r. }
  destruct fuel as [|fuel]; [lia|].
  destruct (Hs eq_refl eq_refl) as [Hls Hall].
  assert (Hrec : result (cli_collectFiles (S fuel) provider
                   (with_path config (path e)) basePath)
                 = Done (map (to_download basePath) (files_under children))).
  { rewrite cli_collectFiles_S.
    rewrite (cli_await_fetchContents_ok _ _ _ Hls), bind_Done. simpl.
    rewrite cli_walk_forest; [done|].
    assert (Hdepth : Forall (fun t => (depth t <= fuel)%nat) children).
    { apply depth_under_le. unfold depth_under. lia. }
    unfold serves_all in Hall.
    clear Hls Hs Hd. induction IH as [|c cs Hc _ IHcs]; [constructor|].
    inversion Hall; subst. inversion Hdepth; subst.
    constructor; [|by apply IHcs].
    intros acc'. apply Hc; [|done]. by apply serves_with_path. }
  by erewrite result_bind_Done by exact Hrec.
Qed.

Lemma cli_collectFiles_served provider config basePath ts fuel :
  serves_root (cli_listing provider) config ts ->
  (depth_under ts < fuel)%nat ->
  result (cli_collectFiles fuel provider config basePath)
  = Done (map (to_download basePath) (files_under ts)).
Proof.
  intros [Hls Hall] Hfuel. destruct fuel as [|fuel]; [lia|].
  rewrite cli_collectFiles_S.
  rewrite (cli_await_fetchContents_ok _ _ _ Hls), bind_Done. simpl.
  rewrite cli_walk_forest; [done|].
  assert (Hdepth : Forall (fun t => (depth t <= fuel)%nat) ts).
  { apply depth_under_le. lia. }
  unfold serves_all in Hall. clear Hls Hfuel.
  induction Hall as [|t ts' Ht _ IH]; [constructor|].
  inversion Hdepth; subst. constructor; [|by apply IH].
  intros acc'. by apply cli_walk_tree.
Qed.

(** ** The download scheduler *)

Lemma start_batch_from provider config total completed batch :
  forall acc,
    for_of (fun file started =>
      emit (EvProgress (mkProgress downloading completed total
                          (Some (name file)))) ;;;
      emit (EvStart file) ;;;
      ret (started ++ [(file, downloadFile provider file config)])) batch acc
    = (start_events total completed batch,
       Done (acc ++ started_of provider config batch)).
Proof.
  unfold start_events, started_of.
  induction batch as [|file batch IH]; intros acc; simpl.
  - by rewrite app_nil_r.
  - rewrite IH. simpl. by rewrite <- app_assoc.
Qed.

Lemma start_batch_eq provider config total completed batch :
  start_batch provider config total completed batch
  = (start_events total completed batch,
     Done (started_of provider config batch)).
Proof. unfold start_batch. by rewrite start_batch_from. Qed.

Lemma fulfils_or_rejects (fp : FileEntry * promise bytes) :
  fulfils fp \/ exists e, outcome fp.2 = inl e.
Proof.
  unfold fulfils. destruct (outcome fp.2) as [e|data]; eauto.
Qed.

Lemma settle_batch_all pending completed :
  Forall fulfils pending ->
  settle_batch pending completed
  = (map settled_ok pending, Done (completed + length pending)%nat).
Proof.
  intros H. revert completed.
  induction H as [|[file p] pending [data Hp] _ IH]; intros completed; simpl.
  - by rewrite Nat.add_0_r.
  - simpl in Hp. rewrite Hp, IH. simpl. do 2 f_equal. lia.
Qed.

Lemma settle_batch_rejection pre fp post e completed :
  Forall fulfils pre ->
  outcome fp.2 = inl e ->
  settle_batch (pre ++ fp :: post) completed
  = (map settled_ok pre ++ [EvSettle fp.1 (Some e)], Threw e).
Proof.
  intros H He. revert completed.
  induction H as [|[file p] pre [data Hp] _ IH]; intros completed; simpl.
  - destruct fp as [file p]. simpl in *. by rewrite He.
  - simpl in Hp. rewrite Hp, IH. done.
Qed.

(** A list of started downloads either all fulfil or has a first (in the
    order of the list) that rejects. *)
Lemma first_rejection (l : list (FileEntry * promise bytes)) :
  Forall fulfils l \/
  exists pre fp post e,
    l = pre ++ fp :: post /\ Forall fulfils pre /\ outcome fp.2 = inl e.
Proof.
  induction l as [|fp l IH]; [by left|].
  destruct (fulfils_or_rejects fp) as [Hok|[e He]].
  - destruct IH as [IH|(pre & fp' & post & e & -> & Hpre & He)].
    + left. by constructor.
    + right. exists (fp :: pre), fp', post, e. repeat split; [|done].
      by constructor.
  - right. exists [], fp, l, e. by repeat split.
Qed.

Lemma batch_values_started provider config batch :
  batch_values config (started_of provider config batch)
  = omap (file_result provider config) batch.
Proof.
  unfold batch_values, started_of, file_result.
  induction batch as [|file batch IH]; [done|].
  cbn [map omap list_omap fst snd].
  destruct (outcome (downloadFile provider file config)); [exact IH|].
  f_equal. exact IH.
Qed.

Lemma started_fulfil provider config batch :
  Forall (download_fulfils provider config) batch <->
  Forall fulfils (started_of provider config batch).
Proof.
  unfold started_of. by rewrite Forall_map.
Qed.

Lemma sorted_fulfil (l : list (FileEntry * promise bytes)) :
  Forall fulfils (merge_sort settles_before l) <-> Forall fulfils l.
Proof.
  by rewrite (merge_sort_Permutation settles_before l).
Qed.

(** A batch whose downloads all fulfil: every file of the batch yields its
    result, in the order of the batch. *)
Lemma downloadBatch_ok provider config total completed batch :
  Forall (download_fulfils provider config) batch ->
  downloadBatch provider config total completed batch
  = (start_events total completed batch
     ++ map settled_ok
          (merge_sort settles_before (started_of provider config batch)),
     Done ((completed + length batch)%nat,
           omap (file_result provider config) batch)).
Proof.
  intros H. unfold downloadBatch.
  rewrite start_batch_eq, bind_Done.
  rewrite settle_batch_all by by apply sorted_fulfil, started_fulfil.
  rewrite bind_Done. simpl. rewrite app_nil_r. do 3 f_equal.
  - rewrite (merge_sort_Permutation settles_before _).
    unfold started_of. by rewrite length_map.
  - apply batch_values_started.
Qed.

(** A batch with a rejecting download: the batch throws the reason of the
    earliest rejection, which is the reason of one of its files. *)
Lemma downloadBatch_rejects provider config total completed batch :
  ~ Forall (download_fulfils provider config) batch ->
  exists file e pre,
    file ∈ batch /\
    outcome (downloadFile provider file config) = inl e /\
    Forall fulfils pre /\
    (length pre < length batch)%nat /\
    downloadBatch provider config total completed batch
    = (start_events total completed batch
       ++ map settled_ok pre ++ [EvSettle file (Some e)], Threw e).
Proof.
  intros H. unfold downloadBatch. rewrite start_batch_eq, bind_Done.
  destruct (first_rejection
              (merge_sort settles_before (started_of provider config batch)))
    as [Hall|(pre & [file p] & post & e & Hsplit & Hpre & He)].
  { destruct H. by apply started_fulfil, sorted_fulfil. }
  assert (Hin : (file, p) ∈ started_of provider config batch).
  { rewrite <- (merge_sort_Permutation settles_before), Hsplit.
    apply elem_of_app. right. by left. }
  apply list_elem_of_fmap in Hin as (file' & [= <- ->] & Hin).
  exists file, e, pre. repeat split; [done..| |].
  - assert (Hlen : length (pre ++ (file, downloadFile provider file config)
                             :: post) = length batch).
    { rewrite <- Hsplit, (merge_sort_Permutation settles_before _).
      unfold started_of. by rewrite length_map. }
    rewrite length_app in Hlen. simpl in Hlen. lia.
  - rewrite Hsplit, (settle_batch_rejection _ _ _ e) by done.
    rewrite bind_Threw. done.
Qed.

Lemma download_loop_unfold n provider config files i completed results :
  download_loop n provider config files i completed results =
  if bool_decide (i < length files)%nat then
    match n with
    | O => out_of_fuel
    | S n' =>
      cr <- downloadBatch provider config (length files) completed
              (take CONCURRENT_DOWNLOADS (drop i files)) ;;
      download_loop n' provider config files (i + CONCURRENT_DOWNLOADS)
        cr.1 (results ++ cr.2)
    end
  else ret results.
Proof. by destruct n. Qed.

Lemma drop_batch {A} (l : list A) (i : nat) :
  drop i l = take CONCURRENT_DOWNLOADS (drop i l)
             ++ drop (i + CONCURRENT_DOWNLOADS) l.
Proof. by rewrite <- drop_drop, take_drop. Qed.

(** When every download fulfils, the loop returns one result per file, in
    the order of the files, and never runs out of its [files.length]
    iterations. *)
Lemma download_loop_ok provider config files :
  forall n i completed results,
    (length files - i <= n)%nat ->
    Forall (download_fulfils provider config) (drop i files) ->
    result (download_loop n provider config files i completed results)
    = Done (results ++ omap (file_result provider config) (drop i files)).
Proof.
  induction n as [|n IH]; intros i completed results Hn Hall;
    rewrite download_loop_unfold; case_bool_decide as Hi.
  - lia.
  - rewrite drop_ge by lia. simpl. by rewrite app_nil_r.
  - rewrite (drop_batch files i) in Hall. apply Forall_app in Hall as [Hb Hr].
    rewrite (downloadBatch_ok _ _ _ _ _ Hb), bind_Done. simpl.
    rewrite IH; [|unfold CONCURRENT_DOWNLOADS; lia|done].
    rewrite (drop_batch files i) at 2. by rewrite omap_app, app_assoc.
  - rewrite drop_ge by lia. simpl. by rewrite app_nil_r.
Qed.

(** When some download rejects, the loop throws the reason of one of the
    rejecting files. *)
Lemma download_loop_rejects provider config files :
  forall n i completed results,
    (length files - i <= n)%nat ->
    ~ Forall (download_fulfils provider config) (drop i files) ->
    exists file e,
      file ∈ files /\
      outcome (downloadFile provider file config) = inl e /\
      result (download_loop n provider config files i completed results)
      = Threw e.
Proof.
  induction n as [|n IH]; intros i completed results Hn Hall;
    rewrite download_loop_unfold; case_bool_decide as Hi.
  - lia.
  - destruct Hall. rewrite drop_ge by lia. constructor.
  - destruct (decide (Forall (download_fulfils provider config)
                        (take CONCURRENT_DOWNLOADS (drop i files))))
      as [Hb|Hb].
    + rewrite (downloadBatch_ok _ _ _ _ _ Hb), bind_Done. simpl.
      apply IH; [unfold CONCURRENT_DOWNLOADS; lia|].
      intros Hr. apply Hall. rewrite (drop_batch files i).
      by apply Forall_app.
    + destruct (downloadBatch_rejects provider config (length files)
                  completed _ Hb) as (file & e & pre & Hin & He & _ & _ & ->).
      exists file, e. repeat split; [|done..].
      eapply subseteq_drop, subseteq_take, Hin.
  - destruct Hall. rewrite drop_ge by lia. constructor.
Qed.

(** ** Classes of events and how traces compose *)

Lemma trace_bind_Forall {A B} (P : event -> Prop) (m : M A) (f : A -> M B) :
  Forall P (trace m) ->
  (forall a, result m = Done a -> Forall P (trace (f a))) ->
  Forall P (trace (bind m f)).
Proof.
  destruct m as [l [a|e|]]; intros Hm Hf; [|done..].
  rewrite bind_Done. simpl. apply Forall_app. split; [done|]. by apply Hf.
Qed.

Lemma trace_for_of_Forall {A S} (P : event -> Prop) (body : A -> S -> M S)
    (l : list A) :
  (forall x s, x ∈ l -> Forall P (trace (body x s))) ->
  forall s, Forall P (trace (for_of body l s)).
Proof.
  induction l as [|x l IH]; intros Hbody s; simpl; [constructor|].
  apply trace_bind_Forall.
  - apply Hbody. by left.
  - intros s' _. apply IH. intros y s'' Hy. apply Hbody. by right.
Qed.

Lemma await_fetchContents_enumeration provider config :
  Forall enumeration_event (trace (await_fetchContents provider config)).
Proof.
  unfold await_fetchContents.
  destruct (outcome (fetchContents provider config)); by repeat constructor.
Qed.

Lemma collectFilesRecursively_enumeration provider basePath :
  forall fuel config acc,
    Forall enumeration_event
      (trace (collectFilesRecursively fuel provider config basePath acc)).
Proof.
  induction fuel as [|fuel IH]; intros config acc; [constructor|].
  rewrite collectFilesRecursively_S. apply trace_bind_Forall.
  { apply await_fetchContents_enumeration. }
  intros entries _. apply trace_for_of_Forall. intros entry s _.
  unfold walk_step. apply trace_bind_Forall.
  - destruct (String.eqb (type entry) "file"); [constructor|].
    destruct (String.eqb (type entry) "dir"); [apply IH | constructor].
  - intros c _. by repeat constructor.
Qed.

Lemma start_events_download total completed batch :
  Forall download_event (start_events total completed batch).
Proof.
  unfold start_events. induction batch as [|file batch IH]; simpl;
    by repeat constructor.
Qed.

Lemma settle_batch_cons file p pending completed :
  settle_batch ((file, p) :: pending) completed =
  match outcome p with
  | inl e => emit (EvSettle file (Some e)) ;;; throw e
  | inr _ => emit (EvSettle file None) ;;; settle_batch pending (S completed)
  end.
Proof. reflexivity. Qed.

Lemma settle_batch_download pending :
  forall completed,
    Forall download_event (trace (settle_batch pending completed)).
Proof.
  induction pending as [|[file p] pending IH]; intros completed;
    [constructor|].
  rewrite settle_batch_cons.
  destruct (outcome p) as [e|data]; [by repeat constructor|].
  apply trace_bind_Forall; [by repeat constructor|]. intros _ _. apply IH.
Qed.

Lemma downloadBatch_download provider config total completed batch :
  Forall download_event
    (trace (downloadBatch provider config total completed batch)).
Proof.
  unfold downloadBatch. rewrite start_batch_eq.
  apply trace_bind_Forall; [apply start_events_download|].
  intros started _. apply trace_bind_Forall; [apply settle_batch_download|].
  intros c _. constructor.
Qed.

Lemma download_loop_download provider config files :
  forall n i completed results,
    Forall download_event
      (trace (download_loop n provider config files i completed results)).
Proof.
  induction n as [|n IH]; intros i completed results;
    rewrite download_loop_unfold; case_bool_decide; try constructor.
  apply trace_bind_Forall; [apply downloadBatch_download|].
  intros cr _. apply IH.
Qed.

(** ** Path relativization: what the two relativizers compute *)

Lemma truthy_iff (s : string) : JsString.truthy s = true <-> s <> "".
Proof. destruct s; simpl; split; congruence. Qed.

Lemma prefix_app_same (p a b : string) :
  String.prefix (p +:+ a) (p +:+ b) = String.prefix a b.
Proof.
  induction p as [|c p IH]; [done|].
  rewrite !JsStringFacts.app_cons. simpl.
  destruct (Ascii.ascii_dec c c); [exact IH | congruence].
Qed.

Lemma prefix_app_l (p q s : string) :
  String.prefix (p +:+ q) s = true -> String.prefix p s = true.
Proof.
  intros H. apply JsStringFacts.prefix_split in H. rewrite H.
  rewrite JsStringFacts.app_assoc. apply JsStringFacts.prefix_app.
Qed.

Lemma strip_leading_slash_id (s : string) :
  JsString.startsWith s "/" = false -> JsString.strip_leading_slash s = s.
Proof. unfold JsString.strip_leading_slash. by intros ->. Qed.

Lemma web_relativePath_strip (rootPath fullPath : string) :
  web_relativePath rootPath fullPath =
  JsString.strip_leading_slash
    (if JsString.truthy rootPath then
       if JsString.startsWith fullPath (rootPath +:+ "/") then
         JsString.slice (String.length rootPath + 1) fullPath
       else if JsString.startsWith fullPath rootPath then
         JsString.slice (String.length rootPath) fullPath
       else fullPath
     else fullPath).
Proof. reflexivity. Qed.

(** [fullPath] is [rootPath + "/" + rest]. *)
Lemma web_relativePath_slash (rootPath rest : string) :
  rootPath <> "" ->
  web_relativePath rootPath (rootPath +:+ "/" +:+ rest)
  = JsString.strip_leading_slash rest.
Proof.
  intros Hroot. rewrite web_relativePath_strip.
  apply truthy_iff in Hroot as ->.
  unfold JsString.startsWith. rewrite <- JsStringFacts.app_assoc.
  rewrite JsStringFacts.prefix_app.
  replace (String.length rootPath + 1)%nat
    with (String.length (rootPath +:+ "/"))
    by (rewrite JsStringFacts.length_app; reflexivity).
  by rewrite JsStringFacts.slice_app.
Qed.

(** [fullPath] is [rootPath + rest], where [rest] does not start with a
    slash. *)
Lemma web_relativePath_glued (rootPath rest : string) :
  rootPath <> "" ->
  JsString.startsWith rest "/" = false ->
  web_relativePath rootPath (rootPath +:+ rest) = rest.
Proof.
  intros Hroot Hrest. rewrite web_relativePath_strip.
  apply truthy_iff in Hroot as ->.
  unfold JsString.startsWith in *.
  rewrite prefix_app_same, Hrest, JsStringFacts.prefix_app, JsStringFacts.slice_app.
  by apply strip_leading_slash_id.
Qed.

(** [rootPath] is empty, or [fullPath] does not start with it. *)
Lemma web_relativePath_verbatim (rootPath fullPath : string) :
  rootPath = "" \/ JsString.startsWith fullPath rootPath = false ->
  web_relativePath rootPath fullPath = JsString.strip_leading_slash fullPath.
Proof.
  intros [->|H]; [done|]. rewrite web_relativePath_strip.
  destruct (JsString.truthy rootPath); [|done].
  destruct (JsString.startsWith fullPath (rootPath +:+ "/")) eqn:Hs.
  - apply prefix_app_l in Hs. unfold JsString.startsWith in H. congruence.
  - by rewrite H.
Qed.

Lemma indexOf_prefix (p s : string) :
  String.prefix p s = true -> JsString.indexOf p s = Some O.
Proof. intros H. destruct s; cbn [JsString.indexOf]; by rewrite H. Qed.

(** The command line's relativizer, when [fullPath] starts with
    [basePath]. *)
Lemma cli_relativePath_prefix (basePath rest : string) :
  cli_relativePath basePath (basePath +:+ rest)
  = JsString.strip_leading_slash rest.
Proof.
  unfold cli_relativePath, JsString.replace_first_by_empty.
  rewrite (indexOf_prefix _ _ (JsStringFacts.prefix_app basePath rest)).
  f_equal. simpl. rewrite JsStringFacts.slice_app.
  by destruct (basePath +:+ rest).
Qed.





(** ** The invariant of download tasks *)






Example single_file_run :
  result (collectFiles 1 single_file_github single_file_config)
  = Done [mkFileWithContent ""
            [Byte.x68; Byte.x65; Byte.x6c; Byte.x6c; Byte.x6f]].
Proof. vm_compute. reflexivity. Qed.

Example single_file_cli_run :
  result (cli_collectFiles 1 single_file_cli_github single_file_config
            "src/index.ts")
  = Done [mkFileToDownload (cli_github_entry single_file_item) ""].
Proof. vm_compute. reflexivity. Qed.

(** C4 fails on a request for a single file.  Both GitHub adapters turn
    the object the contents API answers such a request with into a listing
    of that one file, whose path is the root path itself: the web engine
    and the command line each create one task for it, and its relativePath
    is the empty string. *)
Theorem C4_single_file_task_has_empty_relativePath :
  web_tasks (collectFiles 1 single_file_github single_file_config) = [""] /\
  cli_tasks (cli_collectFiles 1 single_file_cli_github single_file_config
               (cfg_path single_file_config)) = [""] /\
  ~ task_invariant
      (web_tasks (collectFiles 1 single_file_github single_file_config)) /\
  ~ task_invariant
      (cli_tasks (cli_collectFiles 1 single_file_cli_github
                    single_file_config (cfg_path single_file_config))).
Proof.
  assert (Hempty : ~ task_invariant [""]).
  { intros [H _]. inversion H as [|r rs [Hne _] _]. by apply Hne. }
  unfold web_tasks, cli_tasks. change (cfg_path single_file_config)
    with "src/index.ts". rewrite single_file_run, single_file_cli_run.
  by repeat split.
Qed.

(** ** Traversal *)

Module ExampleFacts.
Import Example.

Lemma provider_serves :
  serves_root (web_listing provider) config repository.
Proof.
  split; [reflexivity|].
  repeat (constructor || (apply serves_Node; intros _ _; split;
                          [reflexivity|]) || discriminate).
Qed.

Lemma cli_provider_serves :
  serves_root (cli_listing cli_provider) config repository.
Proof.
  split; [reflexivity|].
  repeat (constructor || (apply serves_Node; intros _ _; split;
                          [reflexivity|]) || discriminate).
Qed.

End ExampleFacts.

Lemma NoDup_files_under (ts : list tree) :
  NoDup (entries_under ts) -> NoDup (files_under ts).
Proof. intros H. eapply sublist_NoDup; [exact H|apply files_under_sublist]. Qed.

(** C2: when the provider serves a repository tree [ts] under the root,
    with N file entries at any depth, the recursive collection step (of the
    web engine and of the command line) returns exactly the file entries of
    the tree, each once: N entries, and no duplicates among them when the
    entries of the tree are distinct.  The walk needs one nested call per
    level, so it completes for every fuel above the nesting depth. *)
Theorem C2_traversal_exhaustive (config : FetchConfig) (basePath : string)
    (ts : list tree) :
  (forall provider fuel,
     serves_root (web_listing provider) config ts ->
     (depth_under ts < fuel)%nat ->
     result (collectFilesRecursively fuel provider config basePath [])
     = Done (files_under ts)) /\
  (forall provider fuel,
     serves_root (cli_listing provider) config ts ->
     (depth_under ts < fuel)%nat ->
     result (cli_collectFiles fuel provider config basePath)
     = Done (map (to_download basePath) (files_under ts))) /\
  length (files_under ts) = count_under ts /\
  (NoDup (entries_under ts) -> NoDup (files_under ts)).
Proof.
  repeat split.
  - intros provider fuel Hs Hfuel.
    by rewrite (collectFilesRecursively_served _ _ _ ts).
  - intros provider fuel Hs Hfuel. by apply cli_collectFiles_served.
  - apply length_files_under.
  - apply NoDup_files_under.
Qed.

Lemma C2_traversal_exhaustive_witness :
  result (collectFilesRecursively 3 Example.provider Example.config "docs" [])
    = Done [Example.file_a; Example.file_b; Example.file_c] /\
  result (cli_collectFiles 3 Example.cli_provider Example.config "docs")
    = Done [mkFileToDownload Example.file_a "a.txt";
            mkFileToDownload Example.file_b "sub/b.txt";
            mkFileToDownload Example.file_c "sub/nested/c.txt"] /\
  count_under Example.repository = 3%nat /\
  NoDup [Example.file_a; Example.file_b; Example.file_c].
Proof.
  pose proof (C2_traversal_exhaustive Example.config "docs" Example.repository)
    as (Hweb & Hcli & Hcount & Hnodup).
  split; [|split; [|split]].
  - apply (Hweb Example.provider 3%nat ExampleFacts.provider_serves).
    vm_compute. lia.
  - apply (Hcli Example.cli_provider 3%nat ExampleFacts.cli_provider_serves).
    vm_compute. lia.
  - rewrite <- Hcount. reflexivity.
  - apply Hnodup. vm_compute.
    repeat (apply NoDup_cons; split;
            [rewrite ?elem_of_cons, elem_of_nil; intros H;
             repeat destruct H as [H|H]; discriminate || done|]).
    apply NoDup_nil. done.
Defined.

(** ** The shape of a run *)

Lemma collectFiles_walk fuel provider config :
  collectFiles fuel provider config =
  (files <- (emit started_fetching ;;;
             collectFilesRecursively fuel provider config (cfg_path config)
               []) ;;
   if bool_decide (length files = 0%nat) then
     throw (EDownload createEmptyDirectoryError)
   else download_loop (length files) provider config files 0 0 []).
Proof.
  unfold collectFiles, started_fetching, emit, bind.
  destruct (collectFilesRecursively fuel provider config (cfg_path config) [])
    as [l [files|e|]]; [|done..].
  simpl. by destruct (if bool_decide (length files = 0%nat) then _ else _).
Qed.

Lemma collectFiles_empty fuel provider config :
  result (collectFilesRecursively fuel provider config (cfg_path config) [])
  = Done [] ->
  collectFiles fuel provider config
  = (started_fetching
     :: trace (collectFilesRecursively fuel provider config
                 (cfg_path config) []),
     Threw (EDownload createEmptyDirectoryError)).
Proof.
  intros H. rewrite collectFiles_walk.
  destruct (collectFilesRecursively fuel provider config (cfg_path config) [])
    as [l r]. change (r = Done []) in H. subst r.
  unfold emit. rewrite !bind_Done. simpl. by rewrite app_nil_r.
Qed.

Lemma collectFiles_files fuel provider config files :
  result (collectFilesRecursively fuel provider config (cfg_path config) [])
  = Done files ->
  files <> [] ->
  collectFiles fuel provider config
  = (started_fetching
     :: trace (collectFilesRecursively fuel provider config
                 (cfg_path config) [])
     ++ trace (download_loop (length files) provider config files 0 0 []),
     result (download_loop (length files) provider config files 0 0 [])).
Proof.
  intros H Hne. rewrite collectFiles_walk.
  destruct (collectFilesRecursively fuel provider config (cfg_path config) [])
    as [l r]. change (r = Done files) in H. subst r.
  unfold emit. rewrite !bind_Done. simpl.
  rewrite bool_decide_false by by destruct files.
  by destruct (download_loop (length files) provider config files 0 0 []).
Qed.

Lemma collectFiles_threw fuel provider config e :
  result (collectFilesRecursively fuel provider config (cfg_path config) [])
  = Threw e ->
  result (collectFiles fuel provider config) = Threw e.
Proof.
  intros H. rewrite collectFiles_walk.
  destruct (collectFilesRecursively fuel provider config (cfg_path config) [])
    as [l r]. change (r = Threw e) in H. by subst r.
Qed.

Lemma zip_loop total files :
  forall (zip : gmap string bytes) (i : nat),
    for_of (fun file (zi : gmap string bytes * nat) =>
      emit (EvZipFile (relativePath file) (content file)) ;;;
      emit (EvProgress (mkProgress zipping (zi.2 + 1) total
                          (Some (relativePath file)))) ;;;
      ret (zip_file zi.1 file, (zi.2 + 1)%nat)) files (zip, i)
    = (zip_events total i files,
       Done (foldl zip_file zip files, (i + length files)%nat)).
Proof.
  induction files as [|file files IH]; intros zip i; simpl.
  - by rewrite Nat.add_0_r.
  - rewrite IH. simpl. do 3 f_equal. lia.
Qed.

Lemma createAndDownloadZip_eq files filename :
  createAndDownloadZip files filename
  = (EvProgress (mkProgress zipping 0 (length files) None)
     :: zip_events (length files) 0 files ++ [EvSave filename],
     Done (foldl zip_file ∅ files)).
Proof.
  unfold createAndDownloadZip. rewrite zip_loop.
  unfold emit. by rewrite !bind_Done.
Qed.

Lemma downloadDirectory_done fuel provider config results :
  result (collectFiles fuel provider config) = Done results ->
  downloadDirectory fuel provider config
  = (trace (collectFiles fuel provider config)
     ++ trace (createAndDownloadZip results (dirName config +:+ ".zip")),
     Done (foldl zip_file ∅ results)).
Proof.
  intros H. unfold downloadDirectory.
  destruct (collectFiles fuel provider config) as [l r].
  change (r = Done results) in H. subst r.
  by rewrite bind_Done, createAndDownloadZip_eq.
Qed.

Lemma downloadDirectory_not_done fuel provider config :
  (forall results, result (collectFiles fuel provider config) <> Done results) ->
  trace (downloadDirectory fuel provider config)
  = trace (collectFiles fuel provider config) /\
  (forall e, result (collectFiles fuel provider config) = Threw e ->
             result (downloadDirectory fuel provider config) = Threw e) /\
  (forall archive,
     result (downloadDirectory fuel provider config) <> Done archive).
Proof.
  intros H. unfold downloadDirectory.
  destruct (collectFiles fuel provider config) as [l [results|e|]];
    [by destruct (H results)|..]; repeat split; try done.
  by intros e' [= ->].
Qed.

(** ** Empty directories *)

Lemma cli_downloadDirectory_empty fetch encodeURIComponent from_base64
    join dirname mkdir writeFile fuel provider config outputDir :
  result (cli_collectFiles fuel provider config (cfg_path config)) = Done [] ->
  cli_downloadDirectory fetch encodeURIComponent from_base64 join dirname
    mkdir writeFile fuel provider config outputDir
  = (trace (cli_collectFiles fuel provider config (cfg_path config))
     ++ [EvLog "No files found in directory."], Done tt).
Proof.
  intros H. unfold cli_downloadDirectory.
  destruct (cli_collectFiles fuel provider config (cfg_path config))
    as [l r]. change (r = Done []) in H. subst r.
  by rewrite bind_Done.
Qed.

(** C6, as stated, fails on the command-line engine: its traversal of a
    root holding only an empty directory completes with no file, and the
    operation then returns normally instead of failing. *)
Lemma C6_counterexample :
  result (cli_collectFiles 2 empty_cli_provider Example.config "docs")
  = Done [] /\
  result (cli_downloadDirectory no_fetch (fun s => s) (fun _ => []) String.append
            (fun s => s) (fun _ => None) (fun _ _ => None)
            2 empty_cli_provider Example.config "out")
  <> Threw (EDownload createEmptyDirectoryError).
Proof. split; [reflexivity|discriminate]. Qed.

(** C6 (amended): when the traversal of the web engine completes having
    discovered no file, the run fails with EmptyDirectory; what it did up
    to then is the complete enumeration and nothing else: no download was
    started and nothing was put in or handed over as an archive.  When the
    traversal of the command-line engine completes having discovered no
    file, the operation reports "No files found in directory." and returns
    without an error, having downloaded and written nothing. *)
Theorem C6_empty_directory (fuel : nat) (config : FetchConfig) :
  (forall provider,
     result (collectFilesRecursively fuel provider config (cfg_path config)
               []) = Done [] ->
     result (downloadDirectory fuel provider config)
     = Threw (EDownload createEmptyDirectoryError) /\
     code createEmptyDirectoryError = EMPTY_DIRECTORY /\
     trace (downloadDirectory fuel provider config)
     = started_fetching
       :: trace (collectFilesRecursively fuel provider config
                   (cfg_path config) []) /\
     Forall enumeration_event
       (trace (downloadDirectory fuel provider config))) /\
  (forall fetch encodeURIComponent from_base64 join dirname mkdir writeFile
          provider outputDir,
     result (cli_collectFiles fuel provider config (cfg_path config))
     = Done [] ->
     cli_downloadDirectory fetch encodeURIComponent from_base64 join dirname
       mkdir writeFile fuel provider config outputDir
     = (trace (cli_collectFiles fuel provider config (cfg_path config))
        ++ [EvLog "No files found in directory."], Done tt)).
Proof.
  split.
  - intros provider Hwalk.
    pose proof (collectFiles_empty _ _ _ Hwalk) as Hcollect.
    destruct (downloadDirectory_not_done fuel provider config)
      as (Htrace & Hthrew & _).
    { intros results. by rewrite Hcollect. }
    rewrite Htrace, Hcollect. repeat split.
    + apply Hthrew. by rewrite Hcollect.
    + constructor; [done|]. apply collectFilesRecursively_enumeration.
  - intros. by apply cli_downloadDirectory_empty.
Qed.

Lemma C6_empty_directory_witness :
  (result (downloadDirectory 2 Example.empty_provider Example.config)
   = Threw (EDownload createEmptyDirectoryError) /\
   trace (downloadDirectory 2 Example.empty_provider Example.config)
   = [started_fetching; EvList "docs" None; EvList "docs/empty" None;
      EvProgress (mkProgress fetching 0 0 None)]) /\
  cli_downloadDirectory no_fetch (fun s => s) (fun _ => []) String.append
            (fun s => s) (fun _ => None) (fun _ _ => None)
    2 empty_cli_provider Example.config "out"
  = ([EvList "docs" None; EvList "docs/empty" None;
      EvLog "No files found in directory."], Done tt).
Proof.
  destruct (C6_empty_directory 2 Example.config) as [Hweb Hcli]. split.
  - destruct (Hweb Example.empty_provider) as (Hres & _ & Htrace & _);
      [reflexivity|].
    split; [exact Hres|]. rewrite Htrace. reflexivity.
  - rewrite Hcli; reflexivity.
Defined.

(** ** Archive assembly *)

(** The result of a file whose download fulfils. *)
Lemma file_result_fulfils provider config file :
  download_fulfils provider config file ->
  exists data,
    outcome (downloadFile provider file config) = inr data /\
    file_result provider config file
    = Some (mkFileWithContent
              (web_relativePath (cfg_path config) (path file)) data).
Proof.
  intros [data H]. exists data. split; [done|].
  unfold file_result. by rewrite H.
Qed.

(** When every download fulfils, the results are the files' results, one
    per file and in the order of the files. *)
Lemma results_of_files provider config files :
  Forall (download_fulfils provider config) files ->
  exists results,
    omap (file_result provider config) files = results /\
    Forall2 (fun file r =>
               relativePath r = web_relativePath (cfg_path config) (path file)
               /\ outcome (downloadFile provider file config)
                  = inr (content r)) files results.
Proof.
  induction 1 as [|file files Hfile _ (results & Hres & Hall)].
  - exists []. by split; [|constructor].
  - destruct (file_result_fulfils _ _ _ Hfile) as (data & Hdata & Hr).
    exists (mkFileWithContent
              (web_relativePath (cfg_path config) (path file)) data
            :: results).
    split; [|by constructor].
    cbn [omap list_omap]. by rewrite Hr, <- Hres.
Qed.

(** A run whose traversal found [files] and whose downloads all fulfil
    returns their results. *)
Lemma collectFiles_ok fuel provider config files :
  result (collectFilesRecursively fuel provider config (cfg_path config) [])
  = Done files ->
  files <> [] ->
  Forall (download_fulfils provider config) files ->
  result (collectFiles fuel provider config)
  = Done (omap (file_result provider config) files).
Proof.
  intros Hwalk Hne Hall. rewrite (collectFiles_files _ _ _ _ Hwalk Hne).
  cbn [result snd]. rewrite download_loop_ok; [done|lia|by rewrite drop_0].
Qed.

Example single_file_download :
  trace (downloadDirectory 1 single_file_github single_file_config)
  = [started_fetching;
     EvList "src/index.ts" None;
     EvProgress (mkProgress fetching 1 1 None);
     EvProgress (mkProgress downloading 0 1 (Some "index.ts"));
     EvStart (github_entry single_file_item);
     EvSettle (github_entry single_file_item) None;
     EvProgress (mkProgress zipping 0 1 None);
     EvZipFile "" [Byte.x68; Byte.x65; Byte.x6c; Byte.x6c; Byte.x6f];
     EvProgress (mkProgress zipping 1 1 (Some ""));
     EvSave "index.ts.zip"].
Proof. vm_compute. reflexivity. Qed.

(** C1 fails on a request for a single file, which the GitHub adapter
    supports.  The traversal discovers the file and its five bytes are
    downloaded, but the relative path computed for it is empty: the one
    call of [zip.file] is made with the empty string for the entry's name,
    a name no path leads to.  The archive is then handed over as
    [index.ts.zip] and the run ends normally. *)
Theorem C1_single_file_entry_has_no_name :
  result (collectFilesRecursively 1 single_file_github single_file_config
            (cfg_path single_file_config) [])
  = Done [github_entry single_file_item] /\
  zipped_files
    (trace (downloadDirectory 1 single_file_github single_file_config))
  = [("", [Byte.x68; Byte.x65; Byte.x6c; Byte.x6c; Byte.x6f])] /\
  last (trace (downloadDirectory 1 single_file_github single_file_config))
  = Some (EvSave "index.ts.zip") /\
  exists archive,
    result (downloadDirectory 1 single_file_github single_file_config)
    = Done archive.
Proof.
  split; [vm_compute; reflexivity|].
  rewrite single_file_download. split; [reflexivity|].
  split; [reflexivity|].
  eexists. by rewrite (downloadDirectory_done _ _ _ _ single_file_run).
Qed.

(** ** Failures abort the run *)

Lemma fails_fast_quiet {A} (m : M A) :
  Forall (fun ev => failure_of ev = None) (trace m) -> fails_fast m.
Proof.
  intros H ev e Hin He. rewrite Forall_forall in H.
  rewrite (H ev Hin) in He. discriminate.
Qed.

Lemma fails_fast_bind {A B} (m : M A) (f : A -> M B) :
  fails_fast m -> (forall a, fails_fast (f a)) -> fails_fast (bind m f).
Proof.
  destruct m as [l [a|e'|]]; intros Hm Hf ev e Hin He.
  - rewrite bind_Done in Hin |- *. simpl in Hin.
    apply elem_of_app in Hin as [Hin|Hin].
    + specialize (Hm ev e Hin He). discriminate.
    + apply (Hf a ev e Hin He).
  - specialize (Hm ev e Hin He). by injection Hm as ->.
  - specialize (Hm ev e Hin He). discriminate.
Qed.

Lemma fails_fast_for_of {A S} (body : A -> S -> M S) (l : list A) :
  (forall x s, fails_fast (body x s)) ->
  forall s, fails_fast (for_of body l s).
Proof.
  intros Hbody. induction l as [|x l IH]; intros s; simpl.
  - by apply fails_fast_quiet.
  - by apply fails_fast_bind.
Qed.

Lemma fails_fast_await_fetchContents provider config :
  fails_fast (await_fetchContents provider config).
Proof.
  unfold await_fetchContents.
  destruct (outcome (fetchContents provider config)) as [e|entries].
  - intros ev e' Hin He. apply list_elem_of_singleton in Hin as ->.
    by injection He as <-.
  - apply fails_fast_quiet. by repeat constructor.
Qed.

Lemma fails_fast_collectFilesRecursively provider basePath :
  forall fuel config acc,
    fails_fast (collectFilesRecursively fuel provider config basePath acc).
Proof.
  induction fuel as [|fuel IH]; intros config acc.
  { by apply fails_fast_quiet. }
  rewrite collectFilesRecursively_S. apply fails_fast_bind.
  { apply fails_fast_await_fetchContents. }
  intros entries. apply fails_fast_for_of. intros entry s.
  unfold walk_step. apply fails_fast_bind.
  - destruct (String.eqb (type entry) "file");
      [by apply fails_fast_quiet|].
    destruct (String.eqb (type entry) "dir");
      [apply IH | by apply fails_fast_quiet].
  - intros c. apply fails_fast_quiet. by repeat constructor.
Qed.

Lemma fails_fast_settle_batch pending :
  forall completed, fails_fast (settle_batch pending completed).
Proof.
  induction pending as [|[file p] pending IH]; intros completed.
  { by apply fails_fast_quiet. }
  rewrite settle_batch_cons. destruct (outcome p) as [e|data].
  - intros ev e' Hin He. apply list_elem_of_singleton in Hin as ->.
    by injection He as <-.
  - apply fails_fast_bind; [|by intros _].
    apply fails_fast_quiet. by repeat constructor.
Qed.

Lemma start_events_quiet total completed batch :
  Forall (fun ev => failure_of ev = None) (start_events total completed batch).
Proof.
  unfold start_events. induction batch as [|file batch IH]; simpl;
    by repeat constructor.
Qed.

Lemma fails_fast_downloadBatch provider config total completed batch :
  fails_fast (downloadBatch provider config total completed batch).
Proof.
  unfold downloadBatch. rewrite start_batch_eq. apply fails_fast_bind.
  { apply fails_fast_quiet, start_events_quiet. }
  intros started. apply fails_fast_bind; [apply fails_fast_settle_batch|].
  intros c. by apply fails_fast_quiet.
Qed.

Lemma fails_fast_download_loop provider config files :
  forall n i completed results,
    fails_fast (download_loop n provider config files i completed results).
Proof.
  induction n as [|n IH]; intros i completed results;
    rewrite download_loop_unfold; case_bool_decide;
    try by apply fails_fast_quiet.
  apply fails_fast_bind; [apply fails_fast_downloadBatch|].
  intros cr. apply IH.
Qed.

Lemma fails_fast_collectFiles fuel provider config :
  fails_fast (collectFiles fuel provider config).
Proof.
  rewrite collectFiles_walk. apply fails_fast_bind.
  - apply fails_fast_bind; [apply fails_fast_quiet; by repeat constructor|].
    intros _. apply fails_fast_collectFilesRecursively.
  - intros files. case_bool_decide; [by apply fails_fast_quiet|].
    apply fails_fast_download_loop.
Qed.

Lemma zip_events_quiet total files :
  forall i, Forall (fun ev => failure_of ev = None) (zip_events total i files).
Proof. induction files as [|file files IH]; intros i; by repeat constructor. Qed.

Lemma fails_fast_downloadDirectory fuel provider config :
  fails_fast (downloadDirectory fuel provider config).
Proof.
  unfold downloadDirectory. apply fails_fast_bind.
  { apply fails_fast_collectFiles. }
  intros files. rewrite createAndDownloadZip_eq. apply fails_fast_quiet.
  cbn [trace fst]. constructor; [done|]. apply Forall_app. split.
  - apply zip_events_quiet.
  - by repeat constructor.
Qed.

Lemma collectFiles_before_archive fuel provider config :
  Forall before_archive (trace (collectFiles fuel provider config)).
Proof.
  rewrite collectFiles_walk. apply trace_bind_Forall.
  - apply trace_bind_Forall; [repeat constructor; by left|].
    intros _ _. eapply Forall_impl;
      [apply collectFilesRecursively_enumeration|]. by left.
  - intros files _. case_bool_decide; [constructor|].
    eapply Forall_impl; [apply download_loop_download|]. by right.
Qed.

Lemma before_archive_no_archive (l : list event) :
  Forall before_archive l -> no_archive l.
Proof.
  intros H ev Hin Harch. rewrite Forall_forall in H.
  destruct (H ev Hin) as [He|Hd]; destruct ev as [[[] ? ? ?]| | | | | | | | |];
    simpl in *; congruence || done.
Qed.

(** A run that does not end with an archive produced none on the way. *)
Lemma no_archive_without_result fuel provider config :
  (forall archive,
     result (downloadDirectory fuel provider config) <> Done archive) ->
  no_archive (trace (downloadDirectory fuel provider config)).
Proof.
  intros H.
  destruct (result (collectFiles fuel provider config)) as [results|e|] eqn:Hc.
  { destruct (H (foldl zip_file ∅ results)).
    by rewrite (downloadDirectory_done _ _ _ _ Hc). }
  all: destruct (downloadDirectory_not_done fuel provider config)
         as (-> & _ & _); [intros results; by rewrite Hc|];
       apply before_archive_no_archive, collectFiles_before_archive.
Qed.

(** C5: a run in which an enumeration call fails or a download is rejected
    aborts with that error, and no archive is produced: nothing was put in
    an archive and none was handed over.  In particular a run whose
    traversal throws throws the same error, and a run whose traversal found
    [files] of which one cannot be downloaded throws the rejection of one of
    the files instead of returning the others. *)
Theorem C5_fail_fast (fuel : nat) (provider : RepoProvider)
    (config : FetchConfig) :
  (forall ev e,
     ev ∈ trace (downloadDirectory fuel provider config) ->
     failure_of ev = Some e ->
     result (downloadDirectory fuel provider config) = Threw e /\
     no_archive (trace (downloadDirectory fuel provider config))) /\
  (forall e,
     result (collectFilesRecursively fuel provider config (cfg_path config)
               []) = Threw e ->
     result (downloadDirectory fuel provider config) = Threw e /\
     no_archive (trace (downloadDirectory fuel provider config))) /\
  (forall files file,
     result (collectFilesRecursively fuel provider config (cfg_path config)
               []) = Done files ->
     file ∈ files ->
     ~ download_fulfils provider config file ->
     exists file' e,
       file' ∈ files /\
       outcome (downloadFile provider file' config) = inl e /\
       result (downloadDirectory fuel provider config) = Threw e /\
       no_archive (trace (downloadDirectory fuel provider config))).
Proof.
  assert (Habort : forall e,
            result (downloadDirectory fuel provider config) = Threw e ->
            no_archive (trace (downloadDirectory fuel provider config))).
  { intros e He. apply no_archive_without_result. intros archive.
    by rewrite He. }
  assert (Hcollect : forall e,
            result (collectFiles fuel provider config) = Threw e ->
            result (downloadDirectory fuel provider config) = Threw e).
  { intros e He.
    destruct (downloadDirectory_not_done fuel provider config)
      as (_ & Hthrew & _); [intros results; by rewrite He|].
    by apply Hthrew. }
  split; [|split].
  - intros ev e Hin He.
    pose proof (fails_fast_downloadDirectory fuel provider config ev e Hin He).
    eauto.
  - intros e Hwalk. apply collectFiles_threw in Hwalk. eauto.
  - intros files file Hwalk Hin Hfile.
    assert (Hne : files <> []) by (intros ->; by apply elem_of_nil in Hin).
    destruct (download_loop_rejects provider config files (length files)
                0 0 []) as (file' & e & Hin' & He & Hloop).
    { lia. }
    { rewrite drop_0, Forall_forall. intros Hall.
      by apply Hfile, Hall. }
    exists file', e. split; [done|]. split; [done|].
    assert (result (downloadDirectory fuel provider config) = Threw e).
    { apply Hcollect. by rewrite (collectFiles_files _ _ _ _ Hwalk Hne). }
    eauto.
Qed.

Lemma C5_fail_fast_witness :
  (result (downloadDirectory 3 Example.refusing_provider Example.config)
   = Threw (EDownload (createProviderError "Failed to download file: 403")) /\
   no_archive
     (trace (downloadDirectory 3 Example.refusing_provider Example.config))) /\
  (result (downloadDirectory 3 Example.unlistable_provider Example.config)
   = Threw (EDownload createAuthRequiredError) /\
   no_archive
     (trace (downloadDirectory 3 Example.unlistable_provider
               Example.config))).
Proof.
  split.
  - apply (proj1 (C5_fail_fast 3 Example.refusing_provider Example.config)
             (EvSettle Example.file_b
                (Some (EDownload (createProviderError
                                    "Failed to download file: 403"))))).
    + apply list_elem_of_lookup_2 with (i := 16%nat). vm_compute. reflexivity.
    + reflexivity.
  - apply (proj1 (C5_fail_fast 3 Example.unlistable_provider Example.config)
             (EvList "docs/sub/nested"
                (Some (EDownload createAuthRequiredError)))).
    + apply list_elem_of_lookup_2 with (i := 5%nat). vm_compute. reflexivity.
    + reflexivity.
Defined.

(** ** Bounded concurrency *)

Lemma outstanding_app (l1 l2 : list event) :
  outstanding (l1 ++ l2) = outstanding l1 + outstanding l2.
Proof.
  unfold outstanding. induction l1 as [|ev l1 IH]; simpl; [done|].
  rewrite IH. lia.
Qed.

Lemma outstanding_quiet (l : list event) :
  Forall (fun ev => delta ev = 0) l -> outstanding l = 0.
Proof.
  unfold outstanding. induction 1 as [|ev l Hev _ IH]; simpl; [done|]. lia.
Qed.

Lemma within_quiet (limit : Z) (l : list event) :
  0 <= limit -> Forall (fun ev => delta ev = 0) l -> within limit l.
Proof.
  intros Hlimit H k. rewrite outstanding_quiet; [lia|].
  by apply Forall_take.
Qed.

Lemma within_app (limit : Z) (l1 l2 : list event) :
  within limit l1 -> outstanding l1 = 0 -> within limit l2 ->
  within limit (l1 ++ l2).
Proof.
  intros H1 Hzero H2 k. rewrite take_app, outstanding_app.
  destruct (decide (k <= length l1)%nat) as [Hk|Hk].
  - replace (k - length l1)%nat with 0%nat by lia.
    rewrite take_0. specialize (H1 k). simpl. lia.
  - rewrite take_ge by lia. rewrite Hzero. apply H2.
Qed.

(** Dispatching: events that start calls or leave their number alone. *)
Lemma outstanding_dispatch (l : list event) :
  Forall (fun ev => delta ev = 0 \/ delta ev = 1) l ->
  forall k, 0 <= outstanding (take k l) <= outstanding l.
Proof.
  unfold outstanding. induction 1 as [|ev l Hev _ IH]; intros k.
  - rewrite take_nil. simpl. lia.
  - destruct k as [|k]; simpl.
    + specialize (IH 0%nat). rewrite take_0 in IH. simpl in IH. lia.
    + specialize (IH k). lia.
Qed.

(** Settling: events that each end one call. *)
Lemma outstanding_settle (l : list event) :
  Forall (fun ev => delta ev = -1) l ->
  outstanding l = - Z.of_nat (length l).
Proof.
  unfold outstanding. induction 1 as [|ev l Hev _ IH]; simpl; [done|]. lia.
Qed.

Lemma outstanding_start_events total completed batch :
  outstanding (start_events total completed batch) = Z.of_nat (length batch)
  /\ Forall (fun ev => delta ev = 0 \/ delta ev = 1)
       (start_events total completed batch).
Proof.
  unfold start_events, outstanding.
  induction batch as [|file batch [IH1 IH2]]; simpl; [by split|].
  split; [lia|]. constructor; [by left|]. constructor; [by right|done].
Qed.

Lemma settle_batch_trace pending :
  forall completed,
    Forall (fun ev => delta ev = -1) (trace (settle_batch pending completed))
    /\ (length (trace (settle_batch pending completed)) <= length pending)%nat
    /\ (forall c, result (settle_batch pending completed) = Done c ->
          length (trace (settle_batch pending completed)) = length pending).
Proof.
  induction pending as [|[file p] pending IH]; intros completed.
  { simpl. repeat split; [constructor|lia]. }
  rewrite settle_batch_cons. destruct (outcome p) as [e|data].
  - simpl. repeat split; [by repeat constructor|lia|done].
  - destruct (IH (S completed)) as (IH1 & IH2 & IH3).
    unfold emit. rewrite bind_Done. cbn [trace result fst snd].
    repeat split.
    + by constructor.
    + simpl. lia.
    + intros c Hc. simpl. f_equal. by eapply IH3.
Qed.

(** One batch: at every instant at most the batch's calls are
    outstanding, and none is when the batch returns. *)
Lemma downloadBatch_within provider config total completed batch :
  within (Z.of_nat (length batch))
    (trace (downloadBatch provider config total completed batch)) /\
  (forall a,
     result (downloadBatch provider config total completed batch) = Done a ->
     outstanding (trace (downloadBatch provider config total completed batch))
     = 0).
Proof.
  unfold downloadBatch. rewrite start_batch_eq, bind_Done.
  set (pending := merge_sort settles_before
                    (started_of provider config batch)).
  assert (Hlen : length pending = length batch).
  { unfold pending. rewrite (merge_sort_Permutation settles_before _).
    unfold started_of. by rewrite length_map. }
  destruct (settle_batch_trace pending completed) as (Hs1 & Hs2 & Hs3).
  destruct (outstanding_start_events total completed batch) as [Hd1 Hd2].
  assert (Htrace : trace (c <- settle_batch pending completed ;;
                          ret (c, batch_values config
                                    (started_of provider config batch)))
                   = trace (settle_batch pending completed)).
  { destruct (settle_batch pending completed) as [l [c|e|]]; [|done..].
    rewrite bind_Done. simpl. by rewrite app_nil_r. }
  cbn [trace result fst snd]. fold (trace (c <- settle_batch pending completed ;;
                          ret (c, batch_values config
                                    (started_of provider config batch)))).
  rewrite Htrace. split.
  - intros k. rewrite take_app, outstanding_app.
    pose proof (outstanding_dispatch _ Hd2 k) as Hk.
    destruct (decide (k <= length (start_events total completed batch))%nat).
    + replace (k - length (start_events total completed batch))%nat
        with 0%nat by lia.
      rewrite take_0. simpl. lia.
    + rewrite take_ge by lia. rewrite Hd1.
      rewrite outstanding_settle by by apply Forall_take.
      rewrite length_take. lia.
  - intros a Ha. rewrite outstanding_app, Hd1, (outstanding_settle _ Hs1).
    apply result_bind_inv in Ha as (c & Hc & _).
    rewrite (Hs3 c Hc). lia.
Qed.

Lemma keeps_limit_quiet {A} (m : M A) :
  Forall (fun ev => delta ev = 0) (trace m) -> keeps_limit m.
Proof.
  intros H. split; [by apply within_quiet|].
  intros _ _. by apply outstanding_quiet.
Qed.

Lemma keeps_limit_bind {A B} (m : M A) (f : A -> M B) :
  keeps_limit m -> (forall a, keeps_limit (f a)) -> keeps_limit (bind m f).
Proof.
  destruct m as [l [a|e|]]; intros [Hw Hz] Hf.
  - rewrite bind_Done. destruct (Hf a) as [Hfw Hfz].
    specialize (Hz a eq_refl). unfold trace at 1 in Hz. simpl in Hz.
    unfold trace at 1 in Hw. simpl in Hw. split.
    + unfold trace at 1. simpl. by apply within_app.
    + intros b Hb. unfold trace at 1. simpl.
      rewrite outstanding_app, Hz. by rewrite (Hfz b Hb).
  - by split.
  - by split.
Qed.

Lemma enumeration_event_quiet (ev : event) :
  enumeration_event ev -> delta ev = 0.
Proof. by destruct ev. Qed.

Lemma keeps_limit_downloadBatch provider config total completed batch :
  (length batch <= CONCURRENT_DOWNLOADS)%nat ->
  keeps_limit (downloadBatch provider config total completed batch).
Proof.
  intros Hlen.
  destruct (downloadBatch_within provider config total completed batch)
    as [Hw Hz].
  split; [|done]. intros k. specialize (Hw k). lia.
Qed.

Lemma keeps_limit_download_loop provider config files :
  forall n i completed results,
    keeps_limit (download_loop n provider config files i completed results).
Proof.
  induction n as [|n IH]; intros i completed results;
    rewrite download_loop_unfold; case_bool_decide;
    try by apply keeps_limit_quiet.
  apply keeps_limit_bind; [|intros cr; apply IH].
  apply keeps_limit_downloadBatch. rewrite length_take. lia.
Qed.

Lemma keeps_limit_collectFiles fuel provider config :
  keeps_limit (collectFiles fuel provider config).
Proof.
  rewrite collectFiles_walk. apply keeps_limit_bind.
  - apply keeps_limit_bind; [apply keeps_limit_quiet; by repeat constructor|].
    intros _. apply keeps_limit_quiet.
    eapply Forall_impl; [apply collectFilesRecursively_enumeration|].
    apply enumeration_event_quiet.
  - intros files. case_bool_decide; [by apply keeps_limit_quiet|].
    apply keeps_limit_download_loop.
Qed.

Lemma zip_events_delta total files :
  forall i, Forall (fun ev => delta ev = 0) (zip_events total i files).
Proof. induction files as [|file files IH]; intros i; by repeat constructor. Qed.

Lemma keeps_limit_downloadDirectory fuel provider config :
  keeps_limit (downloadDirectory fuel provider config).
Proof.
  unfold downloadDirectory. apply keeps_limit_bind.
  { apply keeps_limit_collectFiles. }
  intros files. rewrite createAndDownloadZip_eq. apply keeps_limit_quiet.
  cbn [trace fst]. constructor; [done|]. apply Forall_app. split.
  - apply zip_events_delta.
  - by repeat constructor.
Qed.

(** C9: at no instant of a run are more than K = 6 downloadFile calls
    outstanding.  The scheduler dispatches the files in groups of at most
    [CONCURRENT_DOWNLOADS] = 6, the slices [files.slice(i, i + 6)], and when
    the dispatch of a group returns, which is when the next group is taken,
    none of its calls is outstanding. *)
Theorem C9_bounded_concurrency (fuel : nat) (provider : RepoProvider)
    (config : FetchConfig) :
  CONCURRENT_DOWNLOADS = 6%nat /\
  (forall k,
     0 <= outstanding (take k (trace (downloadDirectory fuel provider config)))
       <= 6) /\
  (forall (files : list FileEntry) i,
     (length (take CONCURRENT_DOWNLOADS (drop i files)) <= 6)%nat) /\
  (forall n files i completed results,
     (i < length files)%nat ->
     download_loop (S n) provider config files i completed results
     = (cr <- downloadBatch provider config (length files) completed
                (take CONCURRENT_DOWNLOADS (drop i files)) ;;
        download_loop n provider config files (i + CONCURRENT_DOWNLOADS)
          cr.1 (results ++ cr.2))) /\
  (forall total completed batch a,
     result (downloadBatch provider config total completed batch) = Done a ->
     outstanding (trace (downloadBatch provider config total completed batch))
     = 0).
Proof.
  split; [reflexivity|]. split; [|split; [|split]].
  - apply (keeps_limit_downloadDirectory fuel provider config).
  - intros files i. rewrite length_take. unfold CONCURRENT_DOWNLOADS. lia.
  - intros n files i completed results Hi.
    rewrite download_loop_unfold. by rewrite bool_decide_true.
  - intros total completed batch.
    apply (downloadBatch_within provider config total completed batch).
Qed.

(** ** The size cap *)

(** On an entry whose [size] exceeds the cap, [downloadFile] of each web
    adapter rejects with FileTooLarge, at once and without a request. *)
Lemma downloadFile_too_large fetch encodeURIComponent atob charCodes
    (file : FileEntry) (config : FetchConfig) :
  MAX_FILE_SIZE < size file ->
  let rejected :=
    mkPromise [] 0%nat (inl (EDownload (createFileTooLargeError (name file))))
  in
  github_downloadFile fetch atob charCodes file config = rejected /\
  gitlab_downloadFile fetch encodeURIComponent file config = rejected /\
  bitbucket_downloadFile fetch encodeURIComponent file config = rejected.
Proof.
  intros H. apply Z.gtb_lt in H.
  unfold github_downloadFile, gitlab_downloadFile, bitbucket_downloadFile.
  by rewrite H.
Qed.

(** On an entry whose [size] does not exceed the cap, [downloadFile] of the
    GitLab adapter requests the file and never rejects with FileTooLarge. *)
Lemma gitlab_downloadFile_within_cap fetch encodeURIComponent
    (file : FileEntry) (config : FetchConfig) :
  size file <= MAX_FILE_SIZE ->
  requests (gitlab_downloadFile fetch encodeURIComponent file config) <> [] /\
  forall e,
    outcome (gitlab_downloadFile fetch encodeURIComponent file config)
    = inl (EDownload e) ->
    code e <> FILE_TOO_LARGE.
Proof.
  intros H. unfold gitlab_downloadFile.
  replace (size file >? MAX_FILE_SIZE) with false
    by (symmetry; rewrite Z.gtb_ltb; by apply Z.ltb_ge).
  unfold fetch_then. cbn [requests outcome]. split; [done|].
  intros e. destruct (fetch_result _) as [| |response]; [done| |].
  - by intros [= <-].
  - destruct (negb (ok response)); [|done]. by intros [= <-].
Qed.

Lemma gitlab_entries_size fetch encodeURIComponent config entries file :
  outcome (gitlab_fetchContents fetch encodeURIComponent config)
  = inr entries ->
  file ∈ entries -> size file = 0.
Proof.
  unfold gitlab_fetchContents, fetch_then. cbn [outcome].
  destruct (fetch_result _) as [| |response]; [done..|].
  destruct (negb (ok response)).
  { repeat case_match; done. }
  destruct (json_body response) as [[| | |items|]|]; try done.
  intros [= <-] Hin. by apply list_elem_of_fmap in Hin as (item & -> & _).
Qed.

Lemma promise_bind_outcome {A B} (p : promise A) (k : A -> promise B) b :
  outcome (promise_bind p k) = inr b ->
  exists a, outcome p = inr a /\ outcome (k a) = inr b.
Proof.
  unfold promise_bind. destruct (outcome p) as [e|a]; [done|]. eauto.
Qed.

Lemma cli_gitlab_entries_size fetch encodeURIComponent fuel config p
    entries file :
  cli_gitlab_fetchContents fetch encodeURIComponent fuel config = Some p ->
  outcome p = inr entries ->
  file ∈ entries -> size file = 0.
Proof.
  unfold cli_gitlab_fetchContents.
  destruct (gitlab_pages _ _ _ _ _ _) as [q|]; [|done].
  intros [= <-] Hp Hin.
  apply promise_bind_outcome in Hp as (allItems & _ & [= <-]).
  by apply list_elem_of_fmap in Hin as (item & -> & _).
Qed.

Module GitLabExampleFacts.
Import GitLabExample.

Lemma big_exceeds_cap : MAX_FILE_SIZE < Z.of_nat (length big).
Proof.
  unfold big. rewrite length_replicate, Z2Nat.id by done. reflexivity.
Qed.

(** Whatever the content, the adapter reports size 0, requests the file
    and the run archives it. *)
Lemma transfers (body : bytes) :
  outcome (fetchContents (provider body) config) = inr [entry] /\
  downloadFile (provider body) entry config
  = mkPromise [raw_url] 7 (inr body) /\
  result (downloadDirectory 1 (provider body) config)
  = Done (<["big.bin" := body]> ∅).
Proof. repeat split; vm_compute; reflexivity. Qed.

End GitLabExampleFacts.

(** C7, on the failing input: the GitLab repository whose only file holds
    100MB and one byte.  The adapter reports the file with size 0, so the
    cap of its downloadFile does not apply: the file is requested,
    transferred and archived, and no FileTooLarge is raised. *)
Theorem C7_gitlab_oversized_file_is_transferred :
  MAX_FILE_SIZE < Z.of_nat (length GitLabExample.big) /\
  outcome (fetchContents (GitLabExample.provider GitLabExample.big)
             GitLabExample.config)
  = inr [GitLabExample.entry] /\
  downloadFile (GitLabExample.provider GitLabExample.big)
    GitLabExample.entry GitLabExample.config
  = mkPromise [GitLabExample.raw_url] 7 (inr GitLabExample.big) /\
  result (downloadDirectory 1 (GitLabExample.provider GitLabExample.big)
            GitLabExample.config)
  = Done (<["big.bin" := GitLabExample.big]> ∅).
Proof.
  split; [exact GitLabExampleFacts.big_exceeds_cap|].
  exact (GitLabExampleFacts.transfers GitLabExample.big).
Qed.

(** C10: every entry the GitLab adapters (web and command line) report has
    size 0, whatever the size of the file; so for such an entry the cap of
    the web adapter's downloadFile never applies: the file is requested and
    the promise never rejects with FileTooLarge. *)
Theorem C10_gitlab_size_cap_unreachable fetch encodeURIComponent :
  (forall config entries file,
     outcome (gitlab_fetchContents fetch encodeURIComponent config)
     = inr entries ->
     file ∈ entries ->
     size file = 0 /\
     forall config',
       requests (gitlab_downloadFile fetch encodeURIComponent file config')
       <> [] /\
       forall e,
         outcome (gitlab_downloadFile fetch encodeURIComponent file config')
         = inl (EDownload e) ->
         code e <> FILE_TOO_LARGE) /\
  (forall fuel config p entries file,
     cli_gitlab_fetchContents fetch encodeURIComponent fuel config = Some p ->
     outcome p = inr entries ->
     file ∈ entries -> size file = 0).
Proof.
  split.
  - intros config entries file Hentries Hin.
    pose proof (gitlab_entries_size _ _ _ _ _ Hentries Hin) as Hsize.
    split; [done|]. intros config'.
    apply gitlab_downloadFile_within_cap. rewrite Hsize. done.
  - apply cli_gitlab_entries_size.
Qed.

Lemma C10_gitlab_size_cap_unreachable_witness :
  size GitLabExample.entry = 0 /\
  forall config',
    requests (gitlab_downloadFile (GitLabExample.fetch GitLabExample.big)
                GitLabExample.encode GitLabExample.entry config') <> [] /\
    forall e,
      outcome (gitlab_downloadFile (GitLabExample.fetch GitLabExample.big)
                 GitLabExample.encode GitLabExample.entry config')
      = inl (EDownload e) ->
      code e <> FILE_TOO_LARGE.
Proof.
  apply (proj1 (C10_gitlab_size_cap_unreachable
                  (GitLabExample.fetch GitLabExample.big)
                  GitLabExample.encode)
           GitLabExample.config [GitLabExample.entry]).
  - exact (proj1 (GitLabExampleFacts.transfers GitLabExample.big)).
  - by left.
Defined.

(** ** Entries that are neither files nor directories *)

(** The walkers skip an entry whose [type] is neither ["file"] nor
    ["dir"]: no listing, no download, no error, nothing collected. *)
Lemma walk_step_other_kind fuel provider config basePath entry acc :
  type entry <> "file" -> type entry <> "dir" ->
  walk_step fuel provider config basePath entry acc
  = ([EvProgress (mkProgress fetching (length acc) (length acc) None)],
     Done acc).
Proof.
  intros Hf Hd. unfold walk_step.
  apply String.eqb_neq in Hf as ->. by apply String.eqb_neq in Hd as ->.
Qed.

Lemma cli_walk_step_other_kind fuel provider config basePath item files :
  type item <> "file" -> type item <> "dir" ->
  cli_walk_step fuel provider config basePath item files = ([], Done files).
Proof.
  intros Hf Hd. unfold cli_walk_step.
  apply String.eqb_neq in Hf as ->. by apply String.eqb_neq in Hd as ->.
Qed.

(** The command line's GitHub adapter drops the items that are neither
    files nor directories. *)
Lemma cli_github_drops_other_kinds fetch config entries :
  outcome (cli_github_fetchContents fetch config) = inr entries ->
  exists contents,
    outcome (fetchContentsApi fetch (owner config) (repo config)
               (cfg_path config) (branch config) (token config))
    = inr contents /\
    entries = map cli_github_entry
                (filter (fun item => is_file_or_dir item = true) contents) /\
    forall file, file ∈ entries -> type file = "file" \/ type file = "dir".
Proof.
  intros H. unfold cli_github_fetchContents in H.
  apply promise_bind_outcome in H as (contents & Hc & [= <-]).
  exists contents. repeat split; [done|].
  intros file Hin. apply list_elem_of_fmap in Hin as (item & -> & Hin).
  apply list_elem_of_filter in Hin as [Hkind _].
  unfold is_file_or_dir in Hkind. apply orb_true_iff in Hkind.
  simpl. by rewrite <- !String.eqb_eq.
Qed.

(** The web's GitHub adapter reports every item that is not a directory
    as a file. *)
Lemma github_entry_kind (item : GitHubContent) :
  gh_type item <> "dir" -> type (github_entry item) = "file".
Proof. intros H. simpl. by apply String.eqb_neq in H as ->. Qed.

(** C8, on the failing input: GitHub listings that hold a symbolic link
    and a submodule.  The web adapter reports both as files, so the walker
    collects them: the link is downloaded and archived, and the request for
    the submodule, answered 404, aborts the run.  The command line's adapter
    drops both items from the same listings. *)
Theorem C8_web_collects_other_kinds :
  result (collectFilesRecursively 1 GitHubExample.web GitHubExample.docs
            "docs" [])
  = Done [github_entry GitHubExample.item_a;
          github_entry GitHubExample.item_link] /\
  result (downloadDirectory 1 GitHubExample.web GitHubExample.docs)
  = Done (<["latest" := GitHubExample.bytes_link]>
          (<["a.txt" := GitHubExample.bytes_a]> ∅)) /\
  result (downloadDirectory 1 GitHubExample.web GitHubExample.deps)
  = Threw (EDownload (createProviderError "Failed to download file: 404")) /\
  outcome (cli_github_fetchContents GitHubExample.fetch GitHubExample.docs)
  = inr [cli_github_entry GitHubExample.item_a] /\
  outcome (cli_github_fetchContents GitHubExample.fetch GitHubExample.deps)
  = inr [cli_github_entry GitHubExample.item_b].
Proof. repeat split; vm_compute; reflexivity. Qed.

(** * Further properties *)

(** ** Traces of sequenced computations *)

Lemma trace_bind_ok {A B} (m : M A) (a : A) (f : A -> M B) :
  result m = Done a -> trace (bind m f) = trace m ++ trace (f a).
Proof.
  destruct m as [l r]. intros H. change (r = Done a) in H. subst r.
  by rewrite bind_Done.
Qed.

Lemma trace_bind_stop {A B} (m : M A) (f : A -> M B) :
  (forall a, result m <> Done a) -> trace (bind m f) = trace m.
Proof.
  destruct m as [l [a|e|]]; intros H; [by destruct (H a)|done..].
Qed.

Lemma result_bind_stop {A B} (m : M A) (f : A -> M B) e :
  result m = Threw e -> result (bind m f) = Threw e.
Proof.
  destruct m as [l r]. intros H. change (r = Threw e) in H. by subst r.
Qed.

Lemma listed_dirs_app (l1 l2 : list event) :
  listed_dirs (l1 ++ l2) = listed_dirs l1 ++ listed_dirs l2.
Proof. apply omap_app. Qed.

Lemma started_files_app (l1 l2 : list event) :
  started_files (l1 ++ l2) = started_files l1 ++ started_files l2.
Proof. apply omap_app. Qed.

Lemma written_files_app (l1 l2 : list event) :
  written_files (l1 ++ l2) = written_files l1 ++ written_files l2.
Proof. apply omap_app. Qed.

(** ** Every directory is listed once *)

Lemma walk_forest_listed fuel provider config basePath ts :
  Forall (fun t => forall acc,
            result (walk_step fuel provider config basePath (root_entry t) acc)
            = Done (acc ++ files_of t) /\
            listed_dirs
              (trace (walk_step fuel provider config basePath
                        (root_entry t) acc))
            = dirs_of t) ts ->
  forall acc,
    listed_dirs (trace (for_of (walk_step fuel provider config basePath)
                          (map root_entry ts) acc))
    = dirs_under ts.
Proof.
  unfold dirs_under.
  induction 1 as [|t ts Ht _ IH]; intros acc; simpl; [done|].
  destruct (Ht acc) as [Hres Hdirs].
  rewrite (trace_bind_ok _ _ _ Hres), listed_dirs_app, Hdirs.
  f_equal. apply IH.
Qed.

Lemma walk_tree_listed provider basePath t :
  forall config fuel acc,
    serves (web_listing provider) config t ->
    (depth t <= fuel)%nat ->
    listed_dirs (trace (walk_step fuel provider config basePath
                          (root_entry t) acc))
    = dirs_of t.
Proof.
  induction t as [e children IH] using tree_ind_forall.
  intros config fuel acc Hs' Hd.
  pose proof (proj1 (serves_Node _ _ _ _) Hs') as Hs.
  simpl in Hd |- *. unfold walk_step, is_file, is_dir in *.
  destruct (String.eqb (type e) "file") eqn:Hf; [done|].
  destruct (String.eqb (type e) "dir") eqn:Hdir; [|done].
  destruct fuel as [|fuel]; [lia|].
  destruct (Hs eq_refl eq_refl) as [Hls Hall]. unfold web_listing in Hls.
  injection Hls as Hls.
  assert (Hdepth : Forall (fun t => (depth t <= fuel)%nat) children).
  { apply depth_under_le. unfold depth_under. lia. }
  assert (Hres : result (collectFilesRecursively (S fuel) provider
                   (with_path config (path e)) basePath acc)
                 = Done (acc ++ files_under children)).
  { apply (collectFilesRecursively_served _ _ _ children).
    - split; [unfold web_listing; by rewrite Hls|].
      unfold serves_all in *. eapply Forall_impl; [exact Hall|].
      intros c Hc. by apply serves_with_path.
    - apply Nat.lt_succ_r. by apply depth_under_le. }
  rewrite (trace_bind_ok _ _ _ Hres), listed_dirs_app.
  rewrite collectFilesRecursively_S.
  rewrite (await_fetchContents_ok _ _ _ Hls), bind_Done. simpl.
  rewrite app_nil_r. f_equal.
  apply walk_forest_listed.
  unfold serves_all in Hall.
  clear Hls Hs Hs' Hd Hres. induction IH as [|c cs Hc _ IHcs]; [constructor|].
  inversion Hall; subst. inversion Hdepth; subst.
  constructor; [|by apply IHcs].
  intros acc'. split.
  - apply walk_tree; [by apply serves_with_path | done].
  - apply Hc; [by apply serves_with_path | done].
Qed.

Lemma collectFilesRecursively_listed provider config basePath ts fuel acc :
  serves_root (web_listing provider) config ts ->
  (depth_under ts < fuel)%nat ->
  listed_dirs (trace (collectFilesRecursively fuel provider config basePath
                        acc))
  = cfg_path config :: dirs_under ts.
Proof.
  intros [Hls Hall] Hfuel. destruct fuel as [|fuel]; [lia|].
  unfold web_listing in Hls. injection Hls as Hls.
  rewrite collectFilesRecursively_S.
  rewrite (await_fetchContents_ok _ _ _ Hls), bind_Done. simpl. f_equal.
  apply walk_forest_listed.
  assert (Hdepth : Forall (fun t => (depth t <= fuel)%nat) ts).
  { apply depth_under_le. lia. }
  unfold serves_all in Hall. clear Hls Hfuel.
  induction Hall as [|t ts' Ht _ IH]; [constructor|].
  inversion Hdepth; subst. constructor; [|by apply IH].
  intros acc'. split; [by apply walk_tree | by apply walk_tree_listed].
Qed.

Lemma cli_walk_forest_listed fuel provider config basePath ts :
  Forall (fun t => forall acc,
            result (cli_walk_step fuel provider config basePath
                      (root_entry t) acc)
            = Done (acc ++ map (to_download basePath) (files_of t)) /\
            listed_dirs
              (trace (cli_walk_step fuel provider config basePath
                        (root_entry t) acc))
            = dirs_of t) ts ->
  forall acc,
    listed_dirs (trace (for_of (cli_walk_step fuel provider config basePath)
                          (map root_entry ts) acc))
    = dirs_under ts.
Proof.
  unfold dirs_under.
  induction 1 as [|t ts Ht _ IH]; intros acc; simpl; [done|].
  destruct (Ht acc) as [Hres Hdirs].
  rewrite (trace_bind_ok _ _ _ Hres), listed_dirs_app, Hdirs.
  f_equal. apply IH.
Qed.

Lemma cli_walk_tree_listed provider basePath t :
  forall config fuel acc,
    serves (cli_listing provider) config t ->
    (depth t <= fuel)%nat ->
    listed_dirs (trace (cli_walk_step fuel provider config basePath
                          (root_entry t) acc))
    = dirs_of t.
Proof.
  induction t as [e children IH] using tree_ind_forall.
  intros config fuel acc Hs' Hd.
  pose proof (proj1 (serves_Node _ _ _ _) Hs') as Hs.
  simpl in Hd |- *. unfold cli_walk_step, is_file, is_dir in *.
  destruct (String.eqb (type e) "file") eqn:Hf; [done|].
  destruct (String.eqb (type e) "dir") eqn:Hdir; [|done].
  destruct fuel as [|fuel]; [lia|].
  destruct (Hs eq_refl eq_refl) as [Hls Hall].
  assert (Hdepth : Forall (fun t => (depth t <= fuel)%nat) children).
  { apply depth_under_le. unfold depth_under. lia. }
  assert (Hres : result (cli_collectFiles (S fuel) provider
                   (with_path config (path e)) basePath)
                 = Done (map (to_download basePath) (files_under children))).
  { apply (cli_collectFiles_served _ _ _ children).
    - split; [done|].
      unfold serves_all in *. eapply Forall_impl; [exact Hall|].
      intros c Hc. by apply serves_with_path.
    - apply Nat.lt_succ_r. by apply depth_under_le. }
  rewrite (trace_bind_ok _ _ _ Hres), listed_dirs_app.
  rewrite cli_collectFiles_S.
  rewrite (cli_await_fetchContents_ok _ _ _ Hls), bind_Done. simpl.
  rewrite app_nil_r. f_equal.
  apply cli_walk_forest_listed.
  unfold serves_all in Hall.
  clear Hls Hs Hs' Hd Hres. induction IH as [|c cs Hc _ IHcs]; [constructor|].
  inversion Hall; subst. inversion Hdepth; subst.
  constructor; [|by apply IHcs].
  intros acc'. split.
  - apply cli_walk_tree; [by apply serves_with_path | done].
  - apply Hc; [by apply serves_with_path | done].
Qed.

Lemma cli_collectFiles_listed provider config basePath ts fuel :
  serves_root (cli_listing provider) config ts ->
  (depth_under ts < fuel)%nat ->
  listed_dirs (trace (cli_collectFiles fuel provider config basePath))
  = cfg_path config :: dirs_under ts.
Proof.
  intros [Hls Hall] Hfuel. destruct fuel as [|fuel]; [lia|].
  rewrite cli_collectFiles_S.
  rewrite (cli_await_fetchContents_ok _ _ _ Hls), bind_Done. simpl. f_equal.
  apply cli_walk_forest_listed.
  assert (Hdepth : Forall (fun t => (depth t <= fuel)%nat) ts).
  { apply depth_under_le. lia. }
  unfold serves_all in Hall. clear Hls Hfuel.
  induction Hall as [|t ts' Ht _ IH]; [constructor|].
  inversion Hdepth; subst. constructor; [|by apply IH].
  intros acc'. split; [by apply cli_walk_tree | by apply cli_walk_tree_listed].
Qed.

Lemma listed_dirs_none (P : event -> Prop) (l : list event) :
  (forall dir failed, ~ P (EvList dir failed)) ->
  Forall P l -> listed_dirs l = [].
Proof.
  intros HP. induction 1 as [|ev l Hev _ IH]; [done|].
  destruct ev; try exact IH. by destruct (HP _ _ Hev).
Qed.

Lemma zip_events_listed total files :
  forall i, listed_dirs (zip_events total i files) = [].
Proof.
  induction files as [|file files IH]; intros i; simpl; [done|apply IH].
Qed.

(** X1: a run of the web engine on a served tree calls [fetchContents]
    once for the root and once for every directory of the tree, each
    before the directories below it, and for nothing else; downloading and
    archive assembly list nothing.  The command line's walker makes the
    same calls. *)
Theorem X1_every_directory_listed_once (fuel : nat) (config : FetchConfig)
    (ts : list tree) :
  (depth_under ts < fuel)%nat ->
  (forall provider,
     serves_root (web_listing provider) config ts ->
     listed_dirs (trace (downloadDirectory fuel provider config))
     = cfg_path config :: dirs_under ts) /\
  (forall provider basePath,
     serves_root (cli_listing provider) config ts ->
     listed_dirs (trace (cli_collectFiles fuel provider config basePath))
     = cfg_path config :: dirs_under ts).
Proof.
  intros Hfuel. split; [|intros; by apply cli_collectFiles_listed].
  intros provider Hs.
  pose proof (collectFilesRecursively_served provider config
                (cfg_path config) ts fuel [] Hs Hfuel) as Hres.
  pose proof (collectFilesRecursively_listed provider config
                (cfg_path config) ts fuel [] Hs Hfuel) as Hdirs.
  simpl in Hres.
  assert (Hcollect : listed_dirs (trace (collectFiles fuel provider config))
                     = cfg_path config :: dirs_under ts).
  { destruct (files_under ts) as [|file files] eqn:Hfiles.
    - rewrite (collectFiles_empty _ _ _ Hres). exact Hdirs.
    - rewrite (collectFiles_files _ _ _ _ Hres) by done.
      cbn [trace fst]. change (listed_dirs (?ev :: ?l)) with (listed_dirs l).
      rewrite listed_dirs_app, Hdirs.
      rewrite (listed_dirs_none download_event);
        [by rewrite app_nil_r|intros ? ? H; exact H|].
      apply download_loop_download. }
  destruct (result (collectFiles fuel provider config)) as [results|e|] eqn:Hr.
  - rewrite (downloadDirectory_done _ _ _ _ Hr). cbn [trace fst].
    rewrite listed_dirs_app, Hcollect, createAndDownloadZip_eq.
    cbn [trace fst]. change (listed_dirs (?ev :: ?l)) with (listed_dirs l).
    rewrite listed_dirs_app, zip_events_listed. by rewrite app_nil_r.
  - destruct (downloadDirectory_not_done fuel provider config) as [-> _];
      [by rewrite Hr|done].
  - destruct (downloadDirectory_not_done fuel provider config) as [-> _];
      [by rewrite Hr|done].
Qed.

Lemma X1_every_directory_listed_once_witness :
  listed_dirs (trace (downloadDirectory 3 Example.provider Example.config))
  = ["docs"; "docs/sub"; "docs/sub/nested"].
Proof.
  assert (Hfuel : (depth_under Example.repository < 3)%nat)
    by (vm_compute; lia).
  exact (proj1 (X1_every_directory_listed_once 3 Example.config
                  Example.repository Hfuel)
           Example.provider ExampleFacts.provider_serves).
Defined.

(** ** Every discovered file is requested once, in discovery order *)

Lemma start_events_started total completed batch :
  started_files (start_events total completed batch) = batch.
Proof.
  unfold start_events. induction batch as [|file batch IH]; [done|].
  simpl. by rewrite IH.
Qed.

Lemma settle_batch_started pending :
  forall completed, started_files (trace (settle_batch pending completed)) = [].
Proof.
  induction pending as [|[file p] pending IH]; intros completed; [done|].
  rewrite settle_batch_cons. destruct (outcome p) as [e|data]; [done|].
  unfold emit. rewrite bind_Done. apply IH.
Qed.

(** A batch calls [downloadFile] for each of its files, in order, whether
    or not the downloads fulfil. *)
Lemma downloadBatch_started provider config total completed batch :
  started_files (trace (downloadBatch provider config total completed batch))
  = batch.
Proof.
  unfold downloadBatch. rewrite start_batch_eq, bind_Done. cbn [trace fst].
  rewrite started_files_app, start_events_started.
  pose proof (settle_batch_started
                (merge_sort settles_before (started_of provider config batch))
                completed) as H.
  destruct (settle_batch _ completed) as [l [c|e|]]; simpl in *;
    rewrite ?app_nil_r, H; by rewrite app_nil_r.
Qed.

Lemma settle_batch_count pending :
  forall completed c,
    result (settle_batch pending completed) = Done c ->
    c = (completed + length pending)%nat.
Proof.
  induction pending as [|[file p] pending IH]; intros completed c.
  - simpl. intros [= <-]. lia.
  - rewrite settle_batch_cons. destruct (outcome p) as [e|data]; [done|].
    unfold emit. rewrite bind_Done. cbn [result snd]. intros H.
    apply IH in H. simpl. lia.
Qed.

Lemma downloadBatch_count provider config total completed batch cr :
  result (downloadBatch provider config total completed batch) = Done cr ->
  cr.1 = (completed + length batch)%nat.
Proof.
  unfold downloadBatch. rewrite start_batch_eq, bind_Done. cbn [result snd].
  intros H. apply result_bind_inv in H as (c & Hc & [= <-]).
  apply settle_batch_count in Hc. simpl.
  rewrite (merge_sort_Permutation settles_before _) in Hc.
  unfold started_of in Hc. by rewrite length_map in Hc.
Qed.

Lemma download_loop_started provider config files :
  forall n i completed results,
    (length files - i <= n)%nat ->
    (exists k,
       started_files
         (trace (download_loop n provider config files i completed results))
       = take k (drop i files)) /\
    (forall rs,
       result (download_loop n provider config files i completed results)
       = Done rs ->
       started_files
         (trace (download_loop n provider config files i completed results))
       = drop i files).
Proof.
  induction n as [|n IH]; intros i completed results Hn;
    rewrite download_loop_unfold; case_bool_decide as Hi; try lia.
  - rewrite drop_ge by lia. split; [by exists 0%nat|done].
  - set (batch := take CONCURRENT_DOWNLOADS (drop i files)).
    pose proof (downloadBatch_started provider config (length files)
                  completed batch) as Hb.
    destruct (result (downloadBatch provider config (length files)
                        completed batch)) as [cr|e|] eqn:Hr.
    + rewrite (trace_bind_ok _ _ _ Hr), (result_bind_Done _ _ _ Hr).
      rewrite started_files_app, Hb.
      destruct (IH (i + CONCURRENT_DOWNLOADS)%nat cr.1 (results ++ cr.2))
        as [[k Hk] Hdone]; [unfold CONCURRENT_DOWNLOADS; lia|].
      split.
      * exists (CONCURRENT_DOWNLOADS + k)%nat. rewrite Hk. unfold batch.
        by rewrite <- drop_drop, take_take_drop.
      * intros rs Hrs. rewrite (Hdone _ Hrs). unfold batch.
        by rewrite <- drop_batch.
    + rewrite trace_bind_stop by (intros a; by rewrite Hr).
      split; [by exists CONCURRENT_DOWNLOADS; rewrite Hb|].
      intros rs. by rewrite (result_bind_stop _ _ _ Hr).
    + rewrite trace_bind_stop by (intros a; by rewrite Hr).
      split; [by exists CONCURRENT_DOWNLOADS; rewrite Hb|].
      intros rs. destruct (downloadBatch _ _ _ _ _) as [l r].
      simpl in Hr. by subst r.
  - rewrite drop_ge by lia. split; [by exists 0%nat|done].
Qed.

Lemma started_files_none (P : event -> Prop) (l : list event) :
  (forall file, ~ P (EvStart file)) ->
  Forall P l -> started_files l = [].
Proof.
  intros HP. induction 1 as [|ev l Hev _ IH]; [done|].
  destruct ev; try exact IH. by destruct (HP _ Hev).
Qed.

Lemma zip_events_started total files :
  forall i, started_files (zip_events total i files) = [].
Proof.
  induction files as [|file files IH]; intros i; simpl; [done|apply IH].
Qed.

Lemma collectFiles_started fuel provider config files :
  result (collectFilesRecursively fuel provider config (cfg_path config) [])
  = Done files ->
  (exists k,
     started_files (trace (collectFiles fuel provider config))
     = take k files) /\
  (forall rs,
     result (collectFiles fuel provider config) = Done rs ->
     started_files (trace (collectFiles fuel provider config)) = files).
Proof.
  intros Hwalk.
  assert (Hnone : started_files
            (trace (collectFilesRecursively fuel provider config
                      (cfg_path config) [])) = []).
  { apply (started_files_none enumeration_event);
      [intros ? H; exact H|apply collectFilesRecursively_enumeration]. }
  destruct files as [|file files].
  - rewrite (collectFiles_empty _ _ _ Hwalk). cbn [trace result fst snd].
    change (started_files (started_fetching :: ?l)) with (started_files l).
    rewrite Hnone. split; [by exists 0%nat|done].
  - rewrite (collectFiles_files _ _ _ _ Hwalk) by done.
    cbn [trace result fst snd].
    change (started_files (started_fetching :: ?l)) with (started_files l).
    rewrite started_files_app, Hnone. cbn [app].
    destruct (download_loop_started provider config (file :: files)
                (length (file :: files)) 0 0 []) as [[k Hk] Hdone]; [lia|].
    rewrite drop_0 in *. split; [by exists k|exact Hdone].
Qed.

(** X2: in a run of the web engine whose traversal discovered [files],
    [downloadFile] is called for a prefix of [files], in that order and once
    per file; in a run that produces an archive it is called for all of
    them.  Archive assembly calls it for nothing. *)
Theorem X2_each_file_requested_once (fuel : nat) (provider : RepoProvider)
    (config : FetchConfig) (files : list FileEntry) :
  result (collectFilesRecursively fuel provider config (cfg_path config) [])
  = Done files ->
  (exists k,
     started_files (trace (downloadDirectory fuel provider config))
     = take k files) /\
  (forall archive,
     result (downloadDirectory fuel provider config) = Done archive ->
     started_files (trace (downloadDirectory fuel provider config)) = files).
Proof.
  intros Hwalk.
  destruct (collectFiles_started _ _ _ _ Hwalk) as [[k Hk] Hdone].
  destruct (result (collectFiles fuel provider config)) as [results|e|] eqn:Hr.
  - rewrite (downloadDirectory_done _ _ _ _ Hr). cbn [trace result fst snd].
    rewrite started_files_app, createAndDownloadZip_eq. cbn [trace fst].
    change (started_files (EvProgress ?p :: ?l)) with (started_files l).
    rewrite started_files_app, zip_events_started. cbn [started_files omap
      list_omap app]. rewrite app_nil_r.
    split; [by exists k|]. intros _ _. by apply (Hdone results).
  - destruct (downloadDirectory_not_done fuel provider config)
      as (-> & _ & Hno); [by rewrite Hr|].
    split; [by exists k|]. intros archive H. by destruct (Hno archive).
  - destruct (downloadDirectory_not_done fuel provider config)
      as (-> & _ & Hno); [by rewrite Hr|].
    split; [by exists k|]. intros archive H. by destruct (Hno archive).
Qed.

Lemma X2_each_file_requested_once_witness :
  (exists k,
     started_files
       (trace (downloadDirectory 3 Example.refusing_provider Example.config))
     = take k [Example.file_a; Example.file_b; Example.file_c]) /\
  (forall archive,
     result (downloadDirectory 3 Example.provider Example.config)
     = Done archive ->
     started_files
       (trace (downloadDirectory 3 Example.provider Example.config))
     = [Example.file_a; Example.file_b; Example.file_c]).
Proof.
  split.
  - apply (X2_each_file_requested_once 3 Example.refusing_provider
             Example.config). reflexivity.
  - apply (X2_each_file_requested_once 3 Example.provider Example.config).
    reflexivity.
Defined.

(** ** The results do not depend on when the answers arrive *)

Lemma result_bind_ext {A B} (m1 m2 : M A) (f1 f2 : A -> M B) :
  result m1 = result m2 ->
  (forall a, result m1 = Done a -> result (f1 a) = result (f2 a)) ->
  result (bind m1 f1) = result (bind m2 f2).
Proof.
  destruct m1 as [l1 r1], m2 as [l2 r2]. intros H. change (r1 = r2) in H.
  subst r2. destruct r1 as [a|e|]; [|done..].
  intros Hf. rewrite !bind_Done. apply Hf. done.
Qed.

Lemma result_for_of_ext {A S} (body1 body2 : A -> S -> M S) (l : list A) :
  (forall x s, result (body1 x s) = result (body2 x s)) ->
  forall s, result (for_of body1 l s) = result (for_of body2 l s).
Proof.
  intros Hbody. induction l as [|x l IH]; intros s; [done|].
  simpl. apply result_bind_ext; [apply Hbody|]. intros s' _. apply IH.
Qed.

Lemma result_await_fetchContents provider config :
  result (await_fetchContents provider config)
  = match outcome (fetchContents provider config) with
    | inl e => Threw e
    | inr entries => Done entries
    end.
Proof.
  unfold await_fetchContents.
  by destruct (outcome (fetchContents provider config)).
Qed.

Lemma walker_same_answers p q basePath :
  same_answers p q ->
  forall fuel config acc,
    result (collectFilesRecursively fuel p config basePath acc)
    = result (collectFilesRecursively fuel q config basePath acc).
Proof.
  intros [Hls _]. induction fuel as [|fuel IH]; intros config acc; [done|].
  rewrite !collectFilesRecursively_S. apply result_bind_ext.
  { by rewrite !result_await_fetchContents, Hls. }
  intros entries _. apply result_for_of_ext. intros entry s.
  unfold walk_step. apply result_bind_ext; [|done].
  destruct (String.eqb (type entry) "file"); [done|].
  destruct (String.eqb (type entry) "dir"); [apply IH|done].
Qed.

Lemma collectFiles_inv fuel provider config results :
  result (collectFiles fuel provider config) = Done results ->
  exists files,
    result (collectFilesRecursively fuel provider config (cfg_path config) [])
    = Done files /\
    files <> [] /\
    Forall (download_fulfils provider config) files /\
    results = omap (file_result provider config) files.
Proof.
  intros H.
  destruct (result (collectFilesRecursively fuel provider config
                      (cfg_path config) [])) as [files|e|] eqn:Hwalk.
  - exists files. split; [done|].
    destruct files as [|file files].
    { by rewrite (collectFiles_empty _ _ _ Hwalk) in H. }
    split; [done|].
    destruct (decide (Forall (download_fulfils provider config)
                        (file :: files))) as [Hall|Hnot].
    + split; [done|].
      rewrite (collectFiles_ok _ _ _ _ Hwalk) in H by done. congruence.
    + rewrite (collectFiles_files _ _ _ _ Hwalk) in H by done.
      cbn [result snd] in H.
      destruct (download_loop_rejects provider config (file :: files)
                  (length (file :: files)) 0 0 [])
        as (f & e & _ & _ & Hthrew); [lia|by rewrite drop_0|].
      congruence.
  - by rewrite (collectFiles_threw _ _ _ _ Hwalk) in H.
  - rewrite collectFiles_walk in H.
    destruct (collectFilesRecursively fuel provider config (cfg_path config)
                []) as [l r]. simpl in Hwalk. by subst r.
Qed.

Lemma omap_pointwise {A B} (f g : A -> option B) (l : list A) :
  (forall x, f x = g x) -> omap f l = omap g l.
Proof.
  intros H. induction l as [|x l IH]; [done|].
  change (match f x with Some y => y :: omap f l | None => omap f l end
          = match g x with Some y => y :: omap g l | None => omap g l end).
  by rewrite H, IH.
Qed.

Lemma collectFiles_same_answers p q fuel config results :
  same_answers p q ->
  result (collectFiles fuel p config) = Done results ->
  result (collectFiles fuel q config) = Done results.
Proof.
  intros Hsame H.
  apply collectFiles_inv in H as (files & Hwalk & Hne & Hall & ->).
  rewrite (walker_same_answers p q _ Hsame) in Hwalk.
  destruct Hsame as [_ Hdl].
  assert (Hq : Forall (download_fulfils q config) files).
  { eapply Forall_impl; [exact Hall|]. intros file [data Hd].
    exists data. by rewrite <- Hdl. }
  rewrite (collectFiles_ok _ _ _ _ Hwalk Hne Hq). f_equal.
  apply omap_pointwise. intros file. unfold file_result. by rewrite Hdl.
Qed.

Lemma same_answers_retimed p listing_time download_time :
  same_answers p (retimed p listing_time download_time).
Proof. by split. Qed.

(** X3: the results of a successful run of the web engine, and the archive
    made of them, depend on what the provider answers and not on when its
    answers arrive: a provider answering alike at other instants (so that
    the downloads of a batch settle in another order) gives the same
    results, in the same order, and the same archive. *)
Theorem X3_results_independent_of_timing (fuel : nat) (p q : RepoProvider)
    (config : FetchConfig) :
  same_answers p q ->
  (forall results,
     result (collectFiles fuel p config) = Done results ->
     result (collectFiles fuel q config) = Done results) /\
  (forall archive,
     result (downloadDirectory fuel p config) = Done archive ->
     result (downloadDirectory fuel q config) = Done archive).
Proof.
  intros Hsame. split; [intros; by eapply collectFiles_same_answers|].
  intros archive H.
  destruct (result (collectFiles fuel p config)) as [results|e|] eqn:Hr.
  - rewrite (downloadDirectory_done _ _ _ _ Hr) in H.
    rewrite (downloadDirectory_done _ _ _ results); [done|].
    by eapply collectFiles_same_answers.
  - destruct (downloadDirectory_not_done fuel p config) as (_ & _ & Hno);
      [by rewrite Hr|by destruct (Hno archive)].
  - destruct (downloadDirectory_not_done fuel p config) as (_ & _ & Hno);
      [by rewrite Hr|by destruct (Hno archive)].
Qed.

Lemma X3_results_independent_of_timing_witness :
  (forall results,
     result (collectFiles 3 Example.provider Example.config) = Done results ->
     result (collectFiles 3
               (retimed Example.provider (fun _ => 4%nat)
                  (fun file _ => String.length (name file)))
               Example.config) = Done results) /\
  (forall archive,
     result (downloadDirectory 3 Example.provider Example.config)
     = Done archive ->
     result (downloadDirectory 3
               (retimed Example.provider (fun _ => 4%nat)
                  (fun file _ => String.length (name file)))
               Example.config) = Done archive).
Proof.
  apply (X3_results_independent_of_timing 3 Example.provider).
  split; reflexivity.
Defined.

(** ** Progress reports *)

Lemma collectFilesRecursively_sound_progress provider basePath :
  forall fuel config acc,
    Forall sound_progress
      (trace (collectFilesRecursively fuel provider config basePath acc)).
Proof.
  induction fuel as [|fuel IH]; intros config acc; [constructor|].
  rewrite collectFilesRecursively_S. apply trace_bind_Forall.
  { unfold await_fetchContents.
    destruct (outcome (fetchContents provider config));
      by repeat constructor. }
  intros entries _. apply trace_for_of_Forall. intros entry s _.
  unfold walk_step. apply trace_bind_Forall.
  - destruct (String.eqb (type entry) "file"); [constructor|].
    destruct (String.eqb (type entry) "dir"); [apply IH | constructor].
  - intros c _. constructor; [|constructor]. split; simpl; [lia|done].
Qed.

Lemma start_events_sound_progress total completed batch :
  (completed < total)%nat ->
  Forall sound_progress (start_events total completed batch).
Proof.
  intros H. unfold start_events.
  induction batch as [|file batch IH]; simpl; [constructor|].
  constructor; [split; simpl; [lia|done]|]. constructor; [exact I|exact IH].
Qed.

Lemma settle_batch_sound_progress pending :
  forall completed,
    Forall sound_progress (trace (settle_batch pending completed)).
Proof.
  induction pending as [|[file p] pending IH]; intros completed;
    [constructor|].
  rewrite settle_batch_cons.
  destruct (outcome p) as [e|data]; [by repeat constructor|].
  apply trace_bind_Forall; [by repeat constructor|]. intros _ _. apply IH.
Qed.

Lemma download_loop_sound_progress provider config files :
  forall n i completed results,
    (completed <= i)%nat ->
    Forall sound_progress
      (trace (download_loop n provider config files i completed results)).
Proof.
  induction n as [|n IH]; intros i completed results Hc;
    rewrite download_loop_unfold; case_bool_decide as Hi; try constructor.
  apply trace_bind_Forall.
  - unfold downloadBatch. rewrite start_batch_eq.
    apply trace_bind_Forall; [apply start_events_sound_progress; lia|].
    intros started _.
    apply trace_bind_Forall; [apply settle_batch_sound_progress|].
    intros c _. constructor.
  - intros cr Hcr. apply IH. apply downloadBatch_count in Hcr. rewrite Hcr.
    rewrite length_take. unfold CONCURRENT_DOWNLOADS. lia.
Qed.

Lemma zip_events_sound_progress total files :
  forall i,
    (i + length files <= total)%nat ->
    Forall sound_progress (zip_events total i files).
Proof.
  induction files as [|file files IH]; intros i Hi; simpl in *;
    [constructor|].
  constructor; [exact I|]. constructor; [split; simpl; [lia|done]|].
  apply IH. lia.
Qed.

(** X4: every progress report of a run of the web engine has [current] at
    most [total] (a percentage made of it does not exceed 100), and a report
    of the downloading phase has [current] below [total]: it counts the
    files completed before the batch it was sent from started. *)
Theorem X4_progress_within_total (fuel : nat) (provider : RepoProvider)
    (config : FetchConfig) :
  Forall sound_progress (trace (downloadDirectory fuel provider config)).
Proof.
  unfold downloadDirectory. apply trace_bind_Forall.
  - rewrite collectFiles_walk. apply trace_bind_Forall.
    + apply trace_bind_Forall;
        [constructor; [split; simpl; [lia|done]|constructor]|].
      intros _ _. apply collectFilesRecursively_sound_progress.
    + intros files _. case_bool_decide; [constructor|].
      apply download_loop_sound_progress. lia.
  - intros results _. rewrite createAndDownloadZip_eq. cbn [trace fst].
    constructor; [simpl; split; [lia|done]|].
    apply Forall_app. split; [|by repeat constructor].
    apply zip_events_sound_progress. lia.
Qed.

(** ** What is handed to the archive *)

Lemma zipped_files_app (l1 l2 : list event) :
  zipped_files (l1 ++ l2) = zipped_files l1 ++ zipped_files l2.
Proof. apply omap_app. Qed.

Lemma zipped_files_no_archive (l : list event) :
  no_archive l -> zipped_files l = [].
Proof.
  induction l as [|ev l IH]; intros H; [done|].
  assert (Hl : zipped_files l = []).
  { apply IH. intros ev' Hin. apply H. by right. }
  destruct ev; try exact Hl. destruct (H _ (list_elem_of_here _ _)). exact I.
Qed.

Lemma zip_events_zipped total files :
  forall i,
    zipped_files (zip_events total i files)
    = map (fun file => (relativePath file, content file)) files.
Proof.
  induction files as [|file files IH]; intros i; [done|].
  cbn [zip_events zipped_files omap list_omap map]. f_equal. apply IH.
Qed.

(** The calls of [zip.file] of a run that got its results. *)
Lemma downloadDirectory_zipped fuel provider config results :
  result (collectFiles fuel provider config) = Done results ->
  zipped_files (trace (downloadDirectory fuel provider config))
  = map (fun file => (relativePath file, content file)) results.
Proof.
  intros H. rewrite (downloadDirectory_done _ _ _ _ H). cbn [trace fst].
  rewrite zipped_files_app, createAndDownloadZip_eq. cbn [trace fst].
  rewrite (zipped_files_no_archive _
             (before_archive_no_archive _
                (collectFiles_before_archive fuel provider config))).
  change (zipped_files
            (zip_events (length results) 0 results
             ++ [EvSave (dirName config +:+ ".zip")])
          = map (fun file => (relativePath file, content file)) results).
  by rewrite zipped_files_app, zip_events_zipped, app_nil_r.
Qed.

(** X5: in a run of the web engine whose traversal discovered [files] and
    whose downloads fulfil, [zip.file] is called exactly once per discovered
    file, in the order of discovery, with the file's relative path as the
    name and exactly the bytes the provider's [downloadFile] returned for
    that file as the data.  Files whose relative paths coincide get a call
    each. *)
Theorem X5_zip_file_calls (fuel : nat) (provider : RepoProvider)
    (config : FetchConfig) (files : list FileEntry) :
  result (collectFilesRecursively fuel provider config (cfg_path config) [])
  = Done files ->
  Forall (download_fulfils provider config) files ->
  Forall2 (fun file call =>
             call.1 = web_relativePath (cfg_path config) (path file) /\
             outcome (downloadFile provider file config) = inr call.2)
    files
    (zipped_files (trace (downloadDirectory fuel provider config))).
Proof.
  intros Hwalk Hall. destruct files as [|file files].
  { rewrite zipped_files_no_archive; [constructor|].
    apply no_archive_without_result. intros archive.
    destruct (downloadDirectory_not_done fuel provider config)
      as (_ & Hthrew & _).
    - intros results. by rewrite (collectFiles_empty _ _ _ Hwalk).
    - rewrite (Hthrew (EDownload createEmptyDirectoryError)); [done|].
      by rewrite (collectFiles_empty _ _ _ Hwalk). }
  pose proof (collectFiles_ok _ _ _ _ Hwalk ltac:(done) Hall) as Hcollect.
  destruct (results_of_files _ _ _ Hall) as (results & Hres & Hrel).
  rewrite Hres in Hcollect.
  rewrite (downloadDirectory_zipped _ _ _ _ Hcollect).
  clear -Hrel. induction Hrel as [|f r fs rs [Hr Hd] _ IH]; [constructor|].
  constructor; [by split|exact IH].
Qed.

Lemma X5_zip_file_calls_witness :
  Forall2 (fun file call =>
             call.1 = web_relativePath "docs" (path file) /\
             outcome (downloadFile Example.provider file Example.config)
             = inr call.2)
    [Example.file_a; Example.file_b; Example.file_c]
    (zipped_files
       (trace (downloadDirectory 3 Example.provider Example.config))).
Proof.
  apply (X5_zip_file_calls 3 Example.provider Example.config
           [Example.file_a; Example.file_b; Example.file_c]).
  - reflexivity.
  - repeat constructor; eexists; reflexivity.
Defined.

(** ** The command line writes what it downloads, file by file *)

Section CliWriteLoop.

Variable fetch : string -> option string -> reply.
Variable encodeURIComponent : string -> string.
Variable from_base64 : string -> bytes.
Variable join : string -> string -> string.
Variable dirname : string -> string.
Variable mkdir : string -> option exn.
Variable writeFile : string -> bytes -> option exn.

Lemma cli_downloadDirectory_files fuel provider config outputDir files :
  result (cli_collectFiles fuel provider config (cfg_path config))
  = Done files ->
  files <> [] ->
  cli_downloadDirectory fetch encodeURIComponent from_base64 join dirname
    mkdir writeFile fuel provider config outputDir
  = (trace (cli_collectFiles fuel provider config (cfg_path config))
     ++ trace (for_of (cli_write_step fetch encodeURIComponent from_base64
                         join dirname mkdir writeFile provider config
                         outputDir (length files))
                 files 0%nat),
     match result (for_of (cli_write_step fetch encodeURIComponent
                             from_base64 join dirname mkdir writeFile
                             provider config outputDir (length files))
                     files 0%nat) with
     | Done _ => Done tt
     | Threw e => Threw e
     | OutOfFuel => OutOfFuel
     end).
Proof.
  intros H Hne. unfold cli_downloadDirectory.
  destruct (cli_collectFiles fuel provider config (cfg_path config))
    as [l r]. change (r = Done files) in H. subst r.
  rewrite bind_Done. rewrite bool_decide_false by by destruct files.
  fold (cli_write_step fetch encodeURIComponent from_base64 join dirname
          mkdir writeFile provider config outputDir (length files)).
  destruct (for_of _ files 0%nat) as [l' [c|e|]]; simpl;
    by rewrite ?app_nil_r.
Qed.

(** The body of the loop for a file all of whose awaits fulfil. *)
Lemma cli_write_step_ok provider config outputDir total ftd current data :
  mkdir (dirname (join outputDir (ftd_relativePath ftd))) = None ->
  outcome (downloadFileContent fetch encodeURIComponent from_base64
             provider (ftd_file ftd) config) = inr data ->
  writeFile (join outputDir (ftd_relativePath ftd)) data = None ->
  cli_write_step fetch encodeURIComponent from_base64 join dirname mkdir
    writeFile provider config outputDir total ftd current
  = ([EvCliProgress (S current) total (ftd_relativePath ftd);
      EvMkdir (dirname (join outputDir (ftd_relativePath ftd))) None;
      EvStart (ftd_file ftd);
      EvWriteFile (join outputDir (ftd_relativePath ftd)) data None],
     Done (S current)).
Proof.
  intros Hm Hd Hw. unfold cli_write_step, await_mkdir, await_writeFile, await.
  rewrite Hm, Hd. simpl. by rewrite Hw.
Qed.

(** The body of the loop for a file one of whose awaits rejects. *)
Lemma cli_write_step_rejects provider config outputDir total ftd current e :
  cli_file_outcome fetch encodeURIComponent from_base64 join dirname mkdir
    writeFile provider config outputDir ftd = inl e ->
  let step := cli_write_step fetch encodeURIComponent from_base64 join
                dirname mkdir writeFile provider config outputDir total ftd
                current in
  result step = Threw e /\
  written_files (trace step) = [] /\
  started_files (trace step)
  = match mkdir (dirname (join outputDir (ftd_relativePath ftd))) with
    | None => [ftd_file ftd]
    | Some _ => []
    end.
Proof.
  unfold cli_file_outcome, cli_write_step, await_mkdir, await_writeFile,
    await.
  destruct (mkdir _) as [e1|]; [by intros [= <-]|].
  destruct (outcome _) as [e2|data]; [by intros [= <-]|]. simpl.
  destruct (writeFile _ _) as [e3|]; [by intros [= <-]|done].
Qed.

Lemma cli_writes_cons provider config outputDir ftd files data :
  outcome (downloadFileContent fetch encodeURIComponent from_base64
             provider (ftd_file ftd) config) = inr data ->
  cli_writes fetch encodeURIComponent from_base64 join provider config
      outputDir (ftd :: files)
  = (join outputDir (ftd_relativePath ftd), data)
    :: cli_writes fetch encodeURIComponent from_base64 join provider config
      outputDir files.
Proof.
  intros H. unfold cli_writes. cbn [omap list_omap]. by rewrite H.
Qed.

(** The loop over files all of whose awaits fulfil, up to a first file for
    which one rejects ([rest] empty: there is none). *)
Lemma cli_write_loop provider config outputDir total pre rest :
  Forall (cli_fulfils fetch encodeURIComponent from_base64 join dirname
            mkdir writeFile provider config outputDir) pre ->
  (rest = [] \/
   exists ftd post e,
     rest = ftd :: post /\
     cli_file_outcome fetch encodeURIComponent from_base64 join dirname
       mkdir writeFile provider config outputDir ftd = inl e) ->
  forall current,
    let run := for_of (cli_write_step fetch encodeURIComponent from_base64
                         join dirname mkdir writeFile provider config
                         outputDir total)
                 (pre ++ rest) current in
    written_files (trace run)
    = cli_writes fetch encodeURIComponent from_base64 join provider config
        outputDir pre /\
    started_files (trace run)
    = map ftd_file pre
      ++ match rest with
         | [] => []
         | ftd :: _ =>
           match mkdir (dirname (join outputDir (ftd_relativePath ftd))) with
           | None => [ftd_file ftd]
           | Some _ => []
           end
         end /\
    result run = match rest with
                 | [] => Done (current + length pre)%nat
                 | ftd :: _ =>
                   match cli_file_outcome fetch encodeURIComponent
                           from_base64 join dirname mkdir writeFile provider
                           config outputDir ftd with
                   | inl e => Threw e
                   | inr _ => OutOfFuel
                   end
                 end.
Proof.
  intros Hpre Hrest.
  induction Hpre as [|ftd pre (data & Hm & Hd & Hw) _ IH];
    intros current run.
  - destruct Hrest as [->|(ftd & post & e & -> & He)]; subst run.
    + simpl. by rewrite Nat.add_0_r.
    + cbn [app for_of].
      destruct (cli_write_step_rejects provider config outputDir total ftd
                  current e He) as (Hr & Hw & Hs).
      rewrite (trace_bind_stop _ _), (result_bind_stop _ _ _ Hr), He;
        [done|by rewrite Hr].
  - subst run. cbn [app for_of].
    rewrite (cli_write_step_ok _ _ _ _ _ _ _ Hm Hd Hw), bind_Done.
    cbn [trace result fst snd].
    destruct (IH (S current)) as (Hw' & Hs & Hr).
    rewrite written_files_app, started_files_app, Hw', Hs, Hr.
    rewrite (cli_writes_cons _ _ _ _ _ _ Hd).
    repeat split. destruct rest; [|done]. f_equal. simpl. lia.
Qed.

End CliWriteLoop.

Lemma cli_collectFiles_quiet provider basePath :
  forall fuel config,
    Forall enumeration_event
      (trace (cli_collectFiles fuel provider config basePath)).
Proof.
  induction fuel as [|fuel IH]; intros config; [constructor|].
  rewrite cli_collectFiles_S. apply trace_bind_Forall.
  { unfold cli_await_fetchContents.
    destruct (cli_fetchContents provider config) as [p|]; [|constructor].
    destruct (outcome p); by repeat constructor. }
  intros entries _. apply trace_for_of_Forall. intros entry s _.
  unfold cli_walk_step.
  destruct (String.eqb (type entry) "file"); [constructor|].
  destruct (String.eqb (type entry) "dir"); [|constructor].
  apply trace_bind_Forall; [apply IH|]. intros; constructor.
Qed.

Lemma written_files_none (P : event -> Prop) (l : list event) :
  (forall dest data, ~ P (EvWriteFile dest data None)) ->
  Forall P l -> written_files l = [].
Proof.
  intros HP. induction 1 as [|ev l Hev _ IH]; [done|].
  destruct ev as [| | | | | | | | |dest data []]; try exact IH.
  by destruct (HP _ _ Hev).
Qed.

(** X6: when, for every file the command line's traversal found, the
    directory can be made, the content arrives and the write is accepted,
    [downloadDirectory] returns normally, [writeFile] having fulfilled once
    per file, in the order of discovery, at [join(outputDir, relativePath)]
    and with the content downloaded for that file; the files were requested
    one after the other, in that order. *)
Theorem X6_cli_writes_every_file fetch encodeURIComponent from_base64
    join dirname mkdir writeFile (fuel : nat) (provider : CliRepoProvider)
    (config : FetchConfig) (outputDir : string)
    (files : list FileToDownload) :
  result (cli_collectFiles fuel provider config (cfg_path config))
  = Done files ->
  Forall (cli_fulfils fetch encodeURIComponent from_base64 join dirname
            mkdir writeFile provider config outputDir) files ->
  let run := cli_downloadDirectory fetch encodeURIComponent from_base64
               join dirname mkdir writeFile fuel provider config outputDir in
  result run = Done tt /\
  written_files (trace run)
  = cli_writes fetch encodeURIComponent from_base64 join provider config
      outputDir files /\
  map fst (written_files (trace run))
  = map (fun ftd => join outputDir (ftd_relativePath ftd)) files /\
  started_files (trace run) = map ftd_file files.
Proof.
  intros Hwalk Hall run. subst run.
  assert (Hquiet := cli_collectFiles_quiet provider (cfg_path config) fuel
                      config).
  assert (Hdest : map fst (cli_writes fetch encodeURIComponent from_base64
                             join provider config outputDir files)
                  = map (fun ftd => join outputDir (ftd_relativePath ftd))
                      files).
  { clear Hwalk Hquiet.
    induction Hall as [|ftd files (data & _ & Hd & _) _ IH]; [done|].
    rewrite (cli_writes_cons _ _ _ _ _ _ _ _ _ _ Hd). simpl. by rewrite IH. }
  destruct files as [|ftd files].
  { rewrite cli_downloadDirectory_empty by done. cbn [trace result fst snd].
    rewrite written_files_app, started_files_app.
    rewrite (written_files_none enumeration_event _ (fun _ _ H => H) Hquiet).
    rewrite (started_files_none enumeration_event _ (fun _ H => H) Hquiet).
    done. }
  rewrite (cli_downloadDirectory_files _ _ _ _ _ _ _ _ _ _ _ _ Hwalk)
    by done.
  cbn [trace result fst snd].
  destruct (cli_write_loop fetch encodeURIComponent from_base64 join dirname
              mkdir writeFile provider config outputDir
              (length (ftd :: files)) (ftd :: files) [] Hall
              (or_introl eq_refl) 0%nat)
    as (Hw & Hs & Hr).
  rewrite app_nil_r in Hw, Hs, Hr. rewrite Hr.
  rewrite written_files_app, started_files_app, Hw, Hs.
  rewrite (written_files_none enumeration_event _ (fun _ _ H => H) Hquiet).
  rewrite (started_files_none enumeration_event _ (fun _ H => H) Hquiet).
  by rewrite app_nil_r.
Qed.

Lemma X6_cli_writes_every_file_witness :
  let run := cli_downloadDirectory no_fetch (fun s => s) (fun _ => [])
               join_paths (fun s => s) accepting_mkdir accepting_writeFile
               3 Example.cli_provider Example.config "out" in
  result run = Done tt /\
  written_files (trace run)
  = [("out/a.txt", Example.bytes_a); ("out/sub/b.txt", Example.bytes_b);
     ("out/sub/nested/c.txt", Example.bytes_c)] /\
  map fst (written_files (trace run))
  = ["out/a.txt"; "out/sub/b.txt"; "out/sub/nested/c.txt"] /\
  started_files (trace run)
  = [Example.file_a; Example.file_b; Example.file_c].
Proof.
  apply (X6_cli_writes_every_file no_fetch (fun s => s) (fun _ => [])
           join_paths (fun s => s) accepting_mkdir accepting_writeFile 3
           Example.cli_provider Example.config "out"
           (map (to_download "docs")
              [Example.file_a; Example.file_b; Example.file_c])).
  - reflexivity.
  - repeat constructor; eexists; repeat split; reflexivity.
Defined.

(** X7: when for one of the files the command line's traversal found
    [mkdir], the download or [writeFile] rejects, [downloadDirectory] throws
    the error of the first such file, unchanged.  The writes of the files
    before it have fulfilled and nothing undoes them; no write fulfils for
    that file or for a file after it.  The files after it are not
    requested, and that file is requested only when its directory could be
    made. *)
Theorem X7_cli_partial_output_on_failure fetch encodeURIComponent
    from_base64 join dirname mkdir writeFile (fuel : nat)
    (provider : CliRepoProvider) (config : FetchConfig) (outputDir : string)
    (pre post : list FileToDownload) (ftd : FileToDownload) (e : exn) :
  result (cli_collectFiles fuel provider config (cfg_path config))
  = Done (pre ++ ftd :: post) ->
  Forall (cli_fulfils fetch encodeURIComponent from_base64 join dirname
            mkdir writeFile provider config outputDir) pre ->
  cli_file_outcome fetch encodeURIComponent from_base64 join dirname mkdir
    writeFile provider config outputDir ftd = inl e ->
  let run := cli_downloadDirectory fetch encodeURIComponent from_base64
               join dirname mkdir writeFile fuel provider config outputDir in
  result run = Threw e /\
  written_files (trace run)
  = cli_writes fetch encodeURIComponent from_base64 join provider config
      outputDir pre /\
  length (written_files (trace run)) = length pre /\
  started_files (trace run)
  = map ftd_file pre
    ++ match mkdir (dirname (join outputDir (ftd_relativePath ftd))) with
       | None => [ftd_file ftd]
       | Some _ => []
       end.
Proof.
  intros Hwalk Hpre He run. subst run.
  assert (Hquiet := cli_collectFiles_quiet provider (cfg_path config) fuel
                      config).
  assert (Hlen : length (cli_writes fetch encodeURIComponent from_base64
                           join provider config outputDir pre) = length pre).
  { clear Hwalk. induction Hpre as [|f fs (data & _ & Hd & _) _ IH]; [done|].
    rewrite (cli_writes_cons _ _ _ _ _ _ _ _ _ _ Hd). simpl. by rewrite IH. }
  rewrite (cli_downloadDirectory_files _ _ _ _ _ _ _ _ _ _ _ _ Hwalk)
    by by destruct pre.
  cbn [trace result fst snd].
  destruct (cli_write_loop fetch encodeURIComponent from_base64 join dirname
              mkdir writeFile provider config outputDir
              (length (pre ++ ftd :: post)) pre (ftd :: post) Hpre
              (or_intror (ex_intro _ ftd (ex_intro _ post
                 (ex_intro _ e (conj eq_refl He))))) 0%nat)
    as (Hw & Hs & Hr).
  rewrite Hr, He.
  rewrite written_files_app, started_files_app, Hw, Hs.
  rewrite (written_files_none enumeration_event _ (fun _ _ H => H) Hquiet).
  rewrite (started_files_none enumeration_event _ (fun _ H => H) Hquiet).
  done.
Qed.

Lemma X7_cli_partial_output_on_failure_witness :
  let run := cli_downloadDirectory no_fetch (fun s => s) (fun _ => [])
               join_paths (fun s => s) accepting_mkdir refusing_writeFile
               3 Example.cli_provider Example.config "out" in
  result run
  = Threw (EError "EACCES: permission denied, open 'out/sub/b.txt'") /\
  written_files (trace run) = [("out/a.txt", Example.bytes_a)] /\
  length (written_files (trace run)) = 1%nat /\
  started_files (trace run) = [Example.file_a; Example.file_b].
Proof.
  apply (X7_cli_partial_output_on_failure no_fetch (fun s => s)
           (fun _ => []) join_paths (fun s => s) accepting_mkdir
           refusing_writeFile 3 Example.cli_provider Example.config "out"
           [to_download "docs" Example.file_a]
           [to_download "docs" Example.file_c]
           (to_download "docs" Example.file_b)).
  - reflexivity.
  - repeat constructor; eexists; repeat split; reflexivity.
  - reflexivity.
Defined.

(** ** The command line's GitLab listing reads every page *)

Section GitLabPaging.

Variable fetch : string -> option string -> reply.
Variable encodeURIComponent : string -> string.

Lemma gitlab_pages_page fuel config page allItems items :
  serves_page fetch encodeURIComponent config page items ->
  gitlab_pages fetch encodeURIComponent (S fuel) config page allItems
  = if bool_decide (length items < perPage)%nat then
      Some (mkPromise [gitlab_page_url encodeURIComponent config page]
              (arrives_at (fetch (gitlab_page_url encodeURIComponent config
                                    page) (token config)))
              (inr (allItems ++ items)))
    else
      match gitlab_pages fetch encodeURIComponent fuel config (S page)
              (allItems ++ items) with
      | Some q =>
        Some (mkPromise
                (gitlab_page_url encodeURIComponent config page :: requests q)
                (arrives_at (fetch (gitlab_page_url encodeURIComponent config
                                      page) (token config))
                 + settles_at q)
                (outcome q))
      | None => None
      end.
Proof.
  intros (r & Hr & Hok & Hjson).
  cbn [gitlab_pages]. fold (gitlab_page_url encodeURIComponent config page).
  unfold cli_fetch_then. cbn [outcome requests settles_at].
  rewrite Hr, Hok, Hjson. done.
Qed.

Lemma gitlab_pages_collect config (full : list (list GitLabTreeItem))
    (final : list GitLabTreeItem) :
  Forall (fun items => (perPage <= length items)%nat) full ->
  (length final < perPage)%nat ->
  forall page allItems fuel,
    (forall j items,
       (full ++ [final]) !! j = Some items ->
       serves_page fetch encodeURIComponent config (page + j) items) ->
    (length full < fuel)%nat ->
    exists p,
      gitlab_pages fetch encodeURIComponent fuel config page allItems
      = Some p /\
      outcome p = inr (allItems ++ concat (full ++ [final])) /\
      requests p
      = map (fun j => gitlab_page_url encodeURIComponent config (page + j))
          (seq 0 (S (length full))).
Proof.
  intros Hfull Hfinal.
  induction Hfull as [|items full Hitems _ IH];
    intros page allItems fuel Hserves Hfuel;
    (destruct fuel as [|fuel]; [simpl in Hfuel; lia|]).
  - rewrite (gitlab_pages_page _ _ _ _ final)
      by (rewrite <- (Nat.add_0_r page); by apply Hserves).
    rewrite bool_decide_true by done. eexists. split; [done|]. simpl.
    by rewrite app_nil_r, Nat.add_0_r.
  - rewrite (gitlab_pages_page _ _ _ _ items)
      by (rewrite <- (Nat.add_0_r page); by apply Hserves).
    rewrite bool_decide_false by lia.
    destruct (IH (S page) (allItems ++ items) fuel) as (q & -> & Hq & Hreq).
    { intros j items' Hj. replace (S page + j)%nat with (page + S j)%nat by lia.
      by apply Hserves. }
    { simpl in Hfuel. lia. }
    eexists. split; [done|]. cbn [outcome requests]. split.
    + rewrite Hq. simpl. by rewrite <- app_assoc.
    + rewrite Hreq. cbn [length].
      rewrite <- (cons_seq (S (length full)) 0), <- seq_shift. cbn [map].
      rewrite Nat.add_0_r, map_map. f_equal.
      apply map_ext. intros j. f_equal. lia.
Qed.

Lemma gitlab_pages_endless config :
  (forall page, exists items,
     serves_page fetch encodeURIComponent config page items /\
     (perPage <= length items)%nat) ->
  forall fuel page allItems,
    gitlab_pages fetch encodeURIComponent fuel config page allItems = None.
Proof.
  intros Hserves. induction fuel as [|fuel IH]; intros page allItems; [done|].
  destruct (Hserves page) as (items & Hpage & Hlen).
  rewrite (gitlab_pages_page _ _ _ _ items) by done.
  rewrite bool_decide_false by lia. by rewrite IH.
Qed.

End GitLabPaging.

(** X8: when the server answers the pages 1, 2, ... of a directory with
    [full] pages of at least 100 items followed by a page of fewer, the
    command line's [gitlab.fetchContents] requests exactly these pages, in
    order and once each, and returns the entries of all their items, in
    order. *)
Theorem X8_cli_gitlab_reads_every_page fetch encodeURIComponent
    (config : FetchConfig) (full : list (list GitLabTreeItem))
    (final : list GitLabTreeItem) (fuel : nat) :
  Forall (fun items => (perPage <= length items)%nat) full ->
  (length final < perPage)%nat ->
  (forall j items,
     (full ++ [final]) !! j = Some items ->
     serves_page fetch encodeURIComponent config (S j) items) ->
  (length full < fuel)%nat ->
  exists p,
    cli_gitlab_fetchContents fetch encodeURIComponent fuel config = Some p /\
    outcome p = inr (map cli_gitlab_entry (concat (full ++ [final]))) /\
    requests p
    = map (fun j => gitlab_page_url encodeURIComponent config (S j))
        (seq 0 (S (length full))).
Proof.
  intros Hfull Hfinal Hserves Hfuel.
  destruct (gitlab_pages_collect fetch encodeURIComponent config full final
              Hfull Hfinal 1%nat [] fuel Hserves Hfuel) as (p & Hp & Ho & Hr).
  unfold cli_gitlab_fetchContents. rewrite Hp. eexists. split; [done|].
  unfold promise_bind. rewrite Ho. cbn [outcome requests].
  by rewrite app_nil_r.
Qed.

Lemma X8_cli_gitlab_reads_every_page_witness :
  exists p,
    cli_gitlab_fetchContents GitLabPagesExample.fetch GitLabExample.encode 2
      GitLabPagesExample.config = Some p /\
    outcome p
    = inr (map cli_gitlab_entry
             (concat ([GitLabPagesExample.first_page]
                      ++ [GitLabPagesExample.second_page]))) /\
    requests p
    = map (fun j => gitlab_page_url GitLabExample.encode
                      GitLabPagesExample.config (S j))
        (seq 0 (S (length [GitLabPagesExample.first_page]))).
Proof.
  apply (X8_cli_gitlab_reads_every_page GitLabPagesExample.fetch
           GitLabExample.encode GitLabPagesExample.config
           [GitLabPagesExample.first_page] GitLabPagesExample.second_page 2).
  - repeat constructor.
  - vm_compute. lia.
  - intros [|[|j]] items [= <-]; eexists; repeat split; reflexivity.
  - simpl. lia.
Defined.

(** X9: the page loop of the command line's [gitlab.fetchContents] has no
    bound of its own: against a server that answers every page with at
    least 100 items it never returns. *)
Theorem X9_cli_gitlab_page_loop_unbounded fetch encodeURIComponent
    (config : FetchConfig) :
  (forall page, exists items,
     serves_page fetch encodeURIComponent config page items /\
     (perPage <= length items)%nat) ->
  forall fuel,
    cli_gitlab_fetchContents fetch encodeURIComponent fuel config = None.
Proof.
  intros Hserves fuel. unfold cli_gitlab_fetchContents.
  by rewrite (gitlab_pages_endless _ _ _ Hserves).
Qed.

Lemma X9_cli_gitlab_page_loop_unbounded_witness :
  cli_gitlab_fetchContents GitLabPagesExample.endless_fetch
    GitLabExample.encode 1000 GitLabPagesExample.config = None.
Proof.
  apply (X9_cli_gitlab_page_loop_unbounded GitLabPagesExample.endless_fetch
           GitLabExample.encode GitLabPagesExample.config).
  intros page. exists GitLabPagesExample.first_page.
  split; [eexists; repeat split; reflexivity|vm_compute; lia].
Defined.

(** ** The web adapters and the transport *)

Section WebAdapterFacts.

Variable fetch : string -> option string -> reply.
Variable encodeURIComponent : string -> string.
Variable atob : string -> option string.
Variable charCodes : string -> bytes.

Lemma fetch_then_reports {A} url tok (k : Response -> exn + A) :
  transport_free k ->
  reports_transport fetch tok (fetch_then fetch url tok k).
Proof.
  intros Hk. unfold reports_transport, fetch_then. cbn [outcome requests].
  destruct (fetch_result (fetch url tok)) as [| |r] eqn:Hr;
    (split; [|split]).
  - done.
  - intros (e & [=] & _).
  - intros (u & ->%list_elem_of_singleton & Hu). congruence.
  - intros (u & ->%list_elem_of_singleton & Hu). congruence.
  - intros _. exists url. split; [by left|done].
  - intros _. by exists createNetworkError.
  - intros (u & ->%list_elem_of_singleton & Hu). congruence.
  - intros (e & He & Hc). by destruct (Hk r e He).
  - intros (u & ->%list_elem_of_singleton & Hu). congruence.
Qed.

Lemma too_large_reports {A} tok filename :
  reports_transport (A := A) fetch tok
    (mkPromise [] 0%nat (inl (EDownload (createFileTooLargeError filename)))).
Proof.
  unfold reports_transport. cbn [outcome requests]. split; [|split].
  - intros (u & Hu & _). by apply elem_of_nil in Hu.
  - intros (e & [= <-] & Hc). done.
  - intros (u & Hu & _). by apply elem_of_nil in Hu.
Qed.

Ltac solve_transport_free :=
  intros r e He; repeat (case_match; try done);
  injection He as <-; done.

(** X10: the six calls of the three web adapters tell cancellation from
    network failure.  A call whose request was aborted rejects with the
    transport's [AbortError], rethrown as it is; and a call rejects with a
    [DownloadError] of code [NETWORK_ERROR] exactly when [fetch] itself
    failed for its request: no answer of the server is reported as a
    network error. *)
Theorem X10_web_adapters_report_transport (file : FileEntry)
    (config : FetchConfig) :
  reports_transport fetch (token config) (github_fetchContents fetch config) /\
  reports_transport fetch (token config)
    (github_downloadFile fetch atob charCodes file config) /\
  reports_transport fetch (token config)
    (gitlab_fetchContents fetch encodeURIComponent config) /\
  reports_transport fetch (token config)
    (gitlab_downloadFile fetch encodeURIComponent file config) /\
  reports_transport fetch (token config)
    (bitbucket_fetchContents fetch encodeURIComponent config) /\
  reports_transport fetch (token config)
    (bitbucket_downloadFile fetch encodeURIComponent file config).
Proof.
  unfold github_fetchContents, github_downloadFile, gitlab_fetchContents,
    gitlab_downloadFile, bitbucket_fetchContents, bitbucket_downloadFile.
  repeat split;
    repeat (case_match; try apply too_large_reports);
    apply fetch_then_reports; solve_transport_free.
Qed.

(** X11: a [downloadFile] of a web adapter makes no request for an entry
    whose size exceeds 100MB and rejects with [FILE_TOO_LARGE]; for every
    other entry it makes exactly one request and never rejects with
    [FILE_TOO_LARGE].  A [fetchContents] of a web adapter makes exactly one
    request, whatever the answer (the GitLab and Bitbucket listings read
    one page). *)
Theorem X11_web_adapters_requests (file : FileEntry) (config : FetchConfig) :
  Forall (fun p : promise bytes =>
            (MAX_FILE_SIZE < size file ->
             outcome p
             = inl (EDownload (createFileTooLargeError (name file))) /\
             requests p = []) /\
            (size file <= MAX_FILE_SIZE ->
             (exists url, requests p = [url]) /\
             forall e, outcome p = inl (EDownload e) ->
                       code e <> FILE_TOO_LARGE))
    [github_downloadFile fetch atob charCodes file config;
     gitlab_downloadFile fetch encodeURIComponent file config;
     bitbucket_downloadFile fetch encodeURIComponent file config] /\
  Forall (fun p : promise (list FileEntry) => exists url, requests p = [url])
    [github_fetchContents fetch config;
     gitlab_fetchContents fetch encodeURIComponent config;
     bitbucket_fetchContents fetch encodeURIComponent config].
Proof.
  split.
  - unfold github_downloadFile, gitlab_downloadFile, bitbucket_downloadFile.
    destruct (size file >? MAX_FILE_SIZE) eqn:Hsize.
    + apply Z.gtb_lt in Hsize.
      repeat constructor; try done; intros; lia.
    + assert (size file <= MAX_FILE_SIZE)
        by (rewrite Z.gtb_ltb in Hsize; by apply Z.ltb_ge).
      repeat apply Forall_cons_2; try apply Forall_nil_2;
        (split; [intros; lia|intros _; split]).
      all: try (repeat case_match; by eexists).
      all: intros e; repeat case_match; unfold fetch_then; cbn [outcome];
        repeat case_match; try done; intros [= <-]; done.
  - repeat constructor; by eexists.
Qed.

End WebAdapterFacts.

(** ** The command line downloads through the functions that take the
    configuration *)

Lemma redirect_message_first_unit (msg : string) :
  redirect_message msg -> first_unit msg = Some (Ascii.ascii_of_nat 85).
Proof. by intros [->| ->]. Qed.

Ltac not_redirect :=
  let H := fresh in
  intros H; apply redirect_message_first_unit in H; vm_compute in H;
  discriminate H.

Lemma cli_fetch_then_not_redirect {A} fetch url tok
    (k : Response -> exn + A) msg :
  (forall r m, k r = inl (EError m) -> ~ redirect_message m) ->
  outcome (cli_fetch_then fetch url tok k) = inl (EError msg) ->
  ~ redirect_message msg.
Proof.
  intros Hk. unfold cli_fetch_then. cbn [outcome].
  destruct (fetch_result (fetch url tok)) as [| |r]; [done| |apply Hk].
  intros [= <-]. not_redirect.
Qed.

(** X12: the command line's [downloadFileContent] never rejects with the
    message by which [github.downloadFile] and [gitlab.downloadFile] refuse
    a download ("Use downloadGitHubFile ...", "Use downloadGitLabFile
    ..."), whatever the file and the answers of the server: for these two
    providers it does not call [provider.downloadFile].  Called directly,
    [gitlab.downloadFile] always refuses, and [github.downloadFile] refuses
    every file above 1MB or without a download URL, both without a
    request. *)
Theorem X12_cli_redirect_never_surfaces fetch encodeURIComponent from_base64
    (fuel : nat) (file : FileEntry) (config : FetchConfig) :
  (forall provider msg,
     provider = cli_github fetch \/
     provider = cli_gitlab fetch encodeURIComponent fuel ->
     outcome (downloadFileContent fetch encodeURIComponent from_base64
                provider file config) = inl (EError msg) ->
     ~ redirect_message msg) /\
  (forall tok,
     requests (cli_gitlab_downloadFile file tok) = [] /\
     exists msg,
       outcome (cli_gitlab_downloadFile file tok) = inl (EError msg) /\
       redirect_message msg) /\
  (forall tok,
     LARGE_FILE_THRESHOLD < size file \/
     truthy_opt (downloadUrl file) = false ->
     requests (cli_github_downloadFile fetch file tok) = [] /\
     exists msg,
       outcome (cli_github_downloadFile fetch file tok) = inl (EError msg) /\
       redirect_message msg).
Proof.
  split; [|split].
  - intros provider msg [-> | ->]; unfold downloadFileContent;
      cbn [cli_name cli_github cli_gitlab String.eqb Ascii.eqb Bool.eqb].
    + unfold downloadGitHubFile, fetchBlob, downloadRaw.
      repeat case_match.
      * cbn [outcome]. intros [= <-]. not_redirect.
      * apply cli_fetch_then_not_redirect. intros r m.
        repeat case_match; try done; intros [= <-]; not_redirect.
      * apply cli_fetch_then_not_redirect. intros r m.
        repeat case_match; try done; intros [= <-]; not_redirect.
    + unfold downloadGitLabFile.
      apply cli_fetch_then_not_redirect. intros r m.
      repeat case_match; try done; intros [= <-]; not_redirect.
  - intros tok. split; [done|]. eexists. split; [done|]. by right.
  - intros tok Hfile. unfold cli_github_downloadFile.
    assert ((size file >? LARGE_FILE_THRESHOLD)
            || negb (truthy_opt (downloadUrl file)) = true) as ->.
    { destruct Hfile as [H|H].
      - apply Z.gtb_lt in H. by rewrite H.
      - rewrite H. by rewrite orb_true_r. }
    split; [done|]. eexists. split; [done|]. by left.
Qed.

(** ** The two relativizers compared *)

Lemma strip_leading_slash_split (s : string) :
  exists r, (r = "" \/ r = "/") /\ s = r +:+ JsString.strip_leading_slash s.
Proof.
  unfold JsString.strip_leading_slash, JsString.startsWith.
  destruct (String.prefix "/" s) eqn:H.
  - exists "/". split; [by right|]. by apply JsStringFacts.prefix_split in H.
  - exists "". split; [by left|done].
Qed.

Lemma string_app_nil_r (s : string) : s +:+ "" = s.
Proof.
  induction s as [|c s IH]; [done|]. by rewrite JsStringFacts.app_cons, IH.
Qed.

Lemma string_cons_neq (c : Ascii.ascii) (s : string) : s <> String c s.
Proof.
  intros H. apply (f_equal String.length) in H. simpl in H. lia.
Qed.

(** X13: on a provider path that starts with the root path, the
    relativizer of the web engine and the relativizer of the command line
    give the same relative path, unless the root path is not empty and is
    followed by two slashes; then, and only then, they differ (the web
    engine strips both slashes, the command line one). *)
Theorem X13_relativizers_agree (rootPath rest : string) :
  web_relativePath rootPath (rootPath +:+ rest)
  = cli_relativePath rootPath (rootPath +:+ rest)
  <-> rootPath = "" \/ JsString.startsWith rest "//" = false.
Proof.
  rewrite cli_relativePath_prefix.
  destruct rootPath as [|c root].
  { rewrite JsStringFacts.app_nil. split; [by left|]. intros _.
    by apply web_relativePath_verbatim; left. }
  set (rootPath := String c root).
  assert (Hroot : rootPath <> "") by done.
  destruct (JsString.startsWith rest "/") eqn:Hslash.
  - unfold JsString.startsWith in Hslash.
    apply JsStringFacts.prefix_split in Hslash. cbn [String.length] in Hslash.
    set (r := JsString.slice 1 rest) in *. rewrite Hslash.
    rewrite (web_relativePath_slash _ _ Hroot).
    assert (JsString.strip_leading_slash ("/" +:+ r) = r) as ->.
    { unfold JsString.strip_leading_slash, JsString.startsWith.
      rewrite JsStringFacts.prefix_app.
      apply (JsStringFacts.slice_app "/" r). }
    assert (JsString.startsWith ("/" +:+ r) "//" = JsString.startsWith r "/")
      as ->.
    { unfold JsString.startsWith.
      apply (prefix_app_same "/" "/" r). }
    unfold JsString.strip_leading_slash.
    destruct (JsString.startsWith r "/") eqn:Hr.
    + split; [|by intros [?|?]]. intros H. exfalso.
      unfold JsString.startsWith in Hr.
      apply JsStringFacts.prefix_split in Hr. cbn [String.length] in Hr.
      rewrite Hr in H at 2. by apply string_cons_neq in H.
    + split; [by right|done].
  - rewrite (web_relativePath_glued _ _ Hroot Hslash).
    rewrite (strip_leading_slash_id _ Hslash). split; [|done]. intros _.
    right. unfold JsString.startsWith in *.
    destruct (String.prefix "//" rest) eqn:H; [|done].
    by rewrite (prefix_app_l "/" "/" rest H) in Hslash.
Qed.

(** X14: the web engine's relative path is always what is left of the
    provider path after removing a prefix: nothing, one slash, the root
    path, or the root path and one or two slashes.  No code unit of the
    rest is changed. *)
Theorem X14_web_relativePath_is_suffix (rootPath fullPath : string) :
  exists removed,
    fullPath = removed +:+ web_relativePath rootPath fullPath /\
    (removed = "" \/ removed = "/" \/ removed = rootPath \/
     removed = rootPath +:+ "/" \/ removed = rootPath +:+ "//").
Proof.
  rewrite web_relativePath_strip.
  destruct (JsString.truthy rootPath).
  - destruct (JsString.startsWith fullPath (rootPath +:+ "/")) eqn:Hs.
    + unfold JsString.startsWith in Hs.
      apply JsStringFacts.prefix_split in Hs.
      rewrite JsStringFacts.length_app in Hs. cbn [String.length] in Hs.
      set (t := JsString.slice (String.length rootPath + 1) fullPath) in *.
      destruct (strip_leading_slash_split t) as (r & Hr & Ht).
      exists (rootPath +:+ "/" +:+ r). split.
      * rewrite Hs at 1. rewrite Ht at 1.
        by rewrite !JsStringFacts.app_assoc.
      * destruct Hr as [->| ->]; [|by do 4 right].
        do 3 right. left. by rewrite string_app_nil_r.
    + destruct (JsString.startsWith fullPath rootPath) eqn:Hp.
      * unfold JsString.startsWith in Hp, Hs.
        apply JsStringFacts.prefix_split in Hp.
        set (t := JsString.slice (String.length rootPath) fullPath) in *.
        rewrite Hp, prefix_app_same in Hs.
        rewrite (strip_leading_slash_id t) by done.
        exists rootPath. split; [done|]. by do 2 right; left.
      * destruct (strip_leading_slash_split fullPath) as (r & Hr & Hf).
        exists r. split; [done|]. destruct Hr as [->| ->]; auto.
  - destruct (strip_leading_slash_split fullPath) as (r & Hr & Hf).
    exists r. split; [done|]. destruct Hr as [->| ->]; auto.
Qed.

(** ** Splitting a path at its slashes *)

Lemma rev_app_spec (s acc : string) :
  String.rev_app s acc = String.rev_app s "" +:+ acc.
Proof.
  revert acc. induction s as [|c s IH]; intros acc; [done|].
  cbn [String.rev_app]. rewrite (IH (String c acc)), (IH (String c "")).
  by rewrite JsStringFacts.app_assoc.
Qed.

Lemma rev_cons (c : Ascii.ascii) (cur : string) :
  String.rev (String c cur) = String.rev cur +:+ String c "".
Proof. unfold String.rev. cbn [String.rev_app]. apply rev_app_spec. Qed.

Lemma split_slash_cons (cur : string) (c : Ascii.ascii) (s : string) :
  split_slash cur (String c s)
  = if Ascii.eqb c (Ascii.ascii_of_nat 47)
    then String.rev cur :: split_slash "" s
    else split_slash (String c cur) s.
Proof. reflexivity. Qed.

(** What is read before the first slash is put in front of the first
    part. *)
Lemma split_slash_acc (s cur : string) :
  split_slash cur s
  = match split_slash "" s with
    | [] => []
    | x :: xs => (String.rev cur +:+ x) :: xs
    end.
Proof.
  revert cur. induction s as [|c s IH]; intros cur.
  - cbn [split_slash]. by rewrite string_app_nil_r.
  - rewrite !split_slash_cons.
    destruct (Ascii.eqb c (Ascii.ascii_of_nat 47)).
    + by rewrite string_app_nil_r.
    + rewrite (IH (String c cur)), (IH (String c "")).
      destruct (split_slash "" s) as [|x xs]; [done|].
      rewrite rev_cons. by rewrite JsStringFacts.app_assoc.
Qed.

Lemma split_slash_segment (seg t : string) :
  no_slash seg = true ->
  split_slash "" (seg +:+ t)
  = match split_slash "" t with
    | [] => []
    | x :: xs => (seg +:+ x) :: xs
    end.
Proof.
  induction seg as [|c seg IH]; intros Hseg.
  - rewrite JsStringFacts.app_nil. by destruct (split_slash "" t).
  - cbn [no_slash] in Hseg. apply andb_true_iff in Hseg as [Hc Hseg].
    apply negb_true_iff in Hc.
    rewrite JsStringFacts.app_cons, split_slash_cons, Hc.
    rewrite split_slash_acc, (IH Hseg).
    by destruct (split_slash "" t).
Qed.

Lemma split_slash_slash (t : string) :
  split_slash "" ("/" +:+ t) = "" :: split_slash "" t.
Proof. reflexivity. Qed.

Lemma split_join (segs : list string) :
  Forall segment segs -> segs <> [] ->
  split_slash "" (join_slash segs) = segs /\
  split_slash "" (join_slash segs +:+ "/") = segs ++ [""].
Proof.
  induction 1 as [|x segs [_ Hx] Hsegs IH]; [done|]. intros _.
  destruct segs as [|y segs].
  - cbn [join_slash]. split.
    + rewrite <- (string_app_nil_r x) at 1.
      rewrite (split_slash_segment _ _ Hx).
      change (split_slash "" "") with [""]. cbv beta iota.
      by rewrite string_app_nil_r.
    + rewrite (split_slash_segment _ _ Hx).
      change (split_slash "" "/") with [""; ""]. cbv beta iota.
      by rewrite string_app_nil_r.
  - destruct IH as [IH1 IH2]; [done|].
    change (join_slash (x :: y :: segs))
      with (x +:+ "/" +:+ join_slash (y :: segs)).
    split.
    + rewrite (split_slash_segment _ _ Hx), split_slash_slash, IH1.
      by rewrite string_app_nil_r.
    + rewrite !JsStringFacts.app_assoc.
      rewrite (split_slash_segment _ _ Hx), split_slash_slash, IH2.
      by rewrite string_app_nil_r.
Qed.

Lemma segment_truthy (s : string) : segment s -> JsString.truthy s = true.
Proof. intros [H _]. by apply truthy_iff. Qed.

Lemma filter_segments (segs : list string) :
  Forall segment segs ->
  filter (fun s => JsString.truthy s = true) segs = segs.
Proof.
  induction 1 as [|x segs Hx _ IH]; [done|].
  rewrite filter_cons_True by by apply segment_truthy. by rewrite IH.
Qed.

(** The parts of a path of segments, with or without a leading and a
    trailing slash, are its segments. *)
Lemma pathname_parts_join (lead trail : string) (segs : list string) :
  Forall segment segs ->
  lead = "" \/ lead = "/" ->
  trail = "" \/ trail = "/" ->
  pathname_parts (lead +:+ join_slash segs +:+ trail) = segs.
Proof.
  intros Hsegs Hlead Htrail. unfold pathname_parts.
  destruct segs as [|x segs].
  { by destruct Hlead as [->| ->], Htrail as [->| ->]. }
  destruct (split_join (x :: segs) Hsegs) as [H1 H2]; [done|].
  assert (Hparts : filter (fun s => JsString.truthy s = true)
                     (split_slash "" (join_slash (x :: segs) +:+ trail))
                   = x :: segs).
  { destruct Htrail as [->| ->].
    - rewrite string_app_nil_r, H1. by apply filter_segments.
    - rewrite H2, filter_app, filter_segments by done.
      by rewrite app_nil_r. }
  destruct Hlead as [->| ->]; [by rewrite JsStringFacts.app_nil|].
  rewrite split_slash_slash. by rewrite filter_cons_False.
Qed.

Lemma no_slash_app (a b : string) :
  no_slash (a +:+ b) = no_slash a && no_slash b.
Proof.
  induction a as [|c a IH]; [done|].
  rewrite JsStringFacts.app_cons. cbn [no_slash]. rewrite IH.
  by rewrite andb_assoc.
Qed.

Lemma split_slash_no_slash (s cur : string) :
  no_slash (String.rev cur) = true ->
  Forall (fun x => no_slash x = true) (split_slash cur s).
Proof.
  revert cur. induction s as [|c s IH]; intros cur Hcur.
  - by repeat constructor.
  - rewrite split_slash_cons.
    destruct (Ascii.eqb c (Ascii.ascii_of_nat 47)) eqn:Hc.
    + constructor; [done|]. by apply IH.
    + apply IH. rewrite rev_cons, no_slash_app, Hcur. cbn [no_slash].
      by rewrite Hc.
Qed.

(** Every part of a path is a segment. *)
Lemma pathname_parts_segments (p : string) :
  Forall segment (pathname_parts p).
Proof.
  unfold pathname_parts.
  pose proof (split_slash_no_slash p "" eq_refl) as H.
  induction H as [|x xs Hx _ IH]; [constructor|].
  destruct (JsString.truthy x) eqn:Hxt.
  - rewrite filter_cons_True by done. constructor; [|done].
    split; [by apply truthy_iff|done].
  - by rewrite filter_cons_False by congruence.
Qed.

Lemma segment_main : segment "main".
Proof. by split. Qed.

(** ** The name of the archive *)

(** X15: the name [downloadDirectory] gives the archive (before ".zip")
    is the repository's name or a segment of the path, not empty and
    without a slash.  For a path of segments, with or without a leading
    and a trailing slash, it is the last segment. *)
Theorem X15_dirName_last_segment (config : FetchConfig) :
  (dirName config = repo config \/ segment (dirName config)) /\
  (forall lead trail segs d,
     Forall segment (segs ++ [d]) ->
     lead = "" \/ lead = "/" ->
     trail = "" \/ trail = "/" ->
     cfg_path config = lead +:+ join_slash (segs ++ [d]) +:+ trail ->
     dirName config = d).
Proof.
  unfold dirName.
  change (filter (fun s => JsString.truthy s = true)
            (split_slash "" (cfg_path config)))
    with (pathname_parts (cfg_path config)).
  split.
  - destruct (JsString.truthy (cfg_path config)); [|by left].
    destruct (last (pathname_parts (cfg_path config))) as [d|] eqn:Hlast;
      [|by left].
    right. apply last_Some in Hlast as [l Hl].
    pose proof (pathname_parts_segments (cfg_path config)) as H.
    rewrite Hl in H. apply Forall_app in H as [_ H]. by inversion H.
  - intros lead trail segs d Hsegs Hlead Htrail Hpath.
    pose proof (pathname_parts_join lead trail _ Hsegs Hlead Htrail) as H.
    rewrite <- Hpath in H. rewrite H, last_snoc.
    destruct (JsString.truthy (cfg_path config)) eqn:Ht; [done|].
    destruct (cfg_path config); [|done]. by destruct segs.
Qed.

(** ** JavaScript's array primitives *)

Lemma js_rel_nat (len n : nat) : js_rel len (Z.of_nat n) = Nat.min n len.
Proof.
  unfold js_rel. rewrite (proj2 (Z.ltb_ge _ _)) by lia. by rewrite Nat2Z.id.
Qed.

Lemma js_at_nat {A} (xs : list A) (n : nat) : js_at xs (Z.of_nat n) = xs !! n.
Proof.
  unfold js_at. rewrite (proj2 (Z.ltb_ge _ _)) by lia. by rewrite Nat2Z.id.
Qed.

Lemma js_slice_from_nat {A} (xs : list A) (n : nat) :
  js_slice_from xs (Z.of_nat n) = drop n xs.
Proof.
  unfold js_slice_from. rewrite js_rel_nat.
  destruct (decide (n <= length xs)%nat).
  - by rewrite Nat.min_l.
  - rewrite Nat.min_r by lia. by rewrite !drop_ge by lia.
Qed.

Lemma js_slice_0_nat {A} (xs : list A) (n : nat) :
  js_slice xs 0 (Z.of_nat n) = take n xs.
Proof.
  unfold js_slice. rewrite js_rel_nat. change (js_rel (length xs) 0) with 0%nat.
  rewrite drop_0, Nat.sub_0_r.
  destruct (decide (n <= length xs)%nat).
  - by rewrite Nat.min_l.
  - rewrite Nat.min_r by lia. by rewrite !take_ge by lia.
Qed.

Lemma js_slice_0_minus_1 {A} (xs : list A) :
  js_slice xs 0 (-1) = take (length xs - 1) xs.
Proof.
  unfold js_slice. change (js_rel (length xs) 0) with 0%nat.
  rewrite drop_0, Nat.sub_0_r. f_equal. unfold js_rel.
  change (-1 <? 0) with true. cbv beta iota. lia.
Qed.

Lemma js_indexOf_app (x : string) (pre post : list string) :
  x ∉ pre -> js_indexOf x (pre ++ x :: post) = Z.of_nat (length pre).
Proof.
  induction pre as [|y pre IH]; intros Hx; cbn [app js_indexOf].
  - by rewrite String.eqb_refl.
  - apply not_elem_of_cons in Hx as [Hne Hx].
    rewrite (proj2 (String.eqb_neq y x)) by done. rewrite (IH Hx).
    rewrite (proj2 (Z.ltb_ge _ _)) by lia. cbn [length]. lia.
Qed.

Lemma js_indexOf_absent (x : string) (xs : list string) :
  x ∉ xs -> js_indexOf x xs = -1.
Proof.
  induction xs as [|y xs IH]; intros Hx; cbn [js_indexOf]; [done|].
  apply not_elem_of_cons in Hx as [Hne Hx].
  rewrite (proj2 (String.eqb_neq y x)) by done. by rewrite (IH Hx).
Qed.

(** ** Detecting the provider of a URL *)

Section WebUrlFacts.

Variable URL : string -> option Location.

Lemma providers_inv (p : UrlProvider) :
  p ∈ providers URL ->
  p = github_urls URL \/ p = gitlab_urls URL \/ p = bitbucket_urls URL.
Proof.
  unfold providers. rewrite !elem_of_cons, elem_of_nil. tauto.
Qed.

Lemma detectProvider_eq (url : string) :
  detectProvider URL url
  = match URL url with
    | Some parsed =>
      if String.eqb (hostname parsed) "github.com"
      then Some (github_urls URL)
      else if String.eqb (hostname parsed) "gitlab.com"
      then Some (gitlab_urls URL)
      else if String.eqb (hostname parsed) "bitbucket.org"
      then Some (bitbucket_urls URL)
      else None
    | None => None
    end.
Proof.
  unfold detectProvider, providers.
  cbn [List.find canHandle github_urls gitlab_urls bitbucket_urls].
  unfold canHandle_host. by destruct (URL url).
Qed.

(** X16: [detectProvider] returns a provider of the list that handles the
    URL, and none only when none of them does; at most one provider
    handles a URL, so the order of the list decides nothing; and the name
    the form computes on its own ([detectProviderName]) is the name of the
    provider [detectProvider] returns. *)
Theorem X16_provider_detection (url : string) :
  getProviderName URL url = detectProviderName URL url /\
  (forall p, detectProvider URL url = Some p ->
             p ∈ providers URL /\ canHandle p url = true) /\
  (detectProvider URL url = None <->
   forall p, p ∈ providers URL -> canHandle p url = false) /\
  (forall p q, p ∈ providers URL -> q ∈ providers URL ->
               canHandle p url = true -> canHandle q url = true -> p = q).
Proof.
  split; [|split; [|split]].
  - unfold getProviderName. rewrite detectProvider_eq.
    unfold detectProviderName. destruct (URL url); [|done].
    by repeat case_match.
  - intros p Hp. rewrite detectProvider_eq in Hp.
    destruct (URL url) as [loc|] eqn:HURL; [|done].
    repeat case_match; try done; injection Hp as <-;
      (split; [unfold providers; set_solver|]);
      cbn [canHandle github_urls gitlab_urls bitbucket_urls];
      unfold canHandle_host; by rewrite HURL.
  - rewrite detectProvider_eq. split.
    + intros Hnone p Hp.
      apply providers_inv in Hp as [->|[->| ->]];
        cbn [canHandle github_urls gitlab_urls bitbucket_urls];
        unfold canHandle_host; (destruct (URL url); [|done]);
        by repeat case_match.
    + intros Hall.
      pose proof (Hall (github_urls URL)) as H1.
      pose proof (Hall (gitlab_urls URL)) as H2.
      pose proof (Hall (bitbucket_urls URL)) as H3.
      cbn [canHandle github_urls gitlab_urls bitbucket_urls] in H1, H2, H3.
      unfold canHandle_host in H1, H2, H3.
      destruct (URL url); [|done].
      rewrite H1, H2, H3; [done|unfold providers; set_solver..].
  - intros p q Hp Hq.
    apply providers_inv in Hp as [->|[->| ->]];
      apply providers_inv in Hq as [->|[->| ->]]; try done;
      cbn [canHandle github_urls gitlab_urls bitbucket_urls];
      unfold canHandle_host; (destruct (URL url); [|done]);
      intros Ha%String.eqb_eq Hb%String.eqb_eq; congruence.
Qed.

End WebUrlFacts.

(** ** Parsing a repository URL *)

Section ParseUrlFacts.

Variable URL : string -> option Location.

Lemma github_parseUrl_ok (url : string) :
  (exists parsed, github_parseUrl URL url = inr parsed) <->
  exists loc, URL url = Some loc /\
              (2 <= length (pathname_parts (pathname loc)))%nat.
Proof.
  unfold github_parseUrl. destruct (URL url) as [loc|].
  - destruct (pathname_parts (pathname loc)) as [|owner [|repo rest]] eqn:Hp.
    + split; [by intros [? ?]|]. intros (? & [= <-] & H).
      rewrite Hp in H. simpl in H. lia.
    + split; [by intros [? ?]|]. intros (? & [= <-] & H).
      rewrite Hp in H. simpl in H. lia.
    + split.
      * intros _. exists loc. split; [done|]. rewrite Hp. simpl. lia.
      * intros _. case_match; by eexists.
  - split; [by intros [? ?]|by intros (? & ? & _)].
Qed.

Lemma bitbucket_parseUrl_ok (url : string) :
  (exists parsed, bitbucket_parseUrl URL url = inr parsed) <->
  exists loc, URL url = Some loc /\
              (2 <= length (pathname_parts (pathname loc)))%nat.
Proof.
  unfold bitbucket_parseUrl. destruct (URL url) as [loc|].
  - destruct (pathname_parts (pathname loc)) as [|owner [|repo rest]] eqn:Hp.
    + split; [by intros [? ?]|]. intros (? & [= <-] & H).
      rewrite Hp in H. simpl in H. lia.
    + split; [by intros [? ?]|]. intros (? & [= <-] & H).
      rewrite Hp in H. simpl in H. lia.
    + split.
      * intros _. exists loc. split; [done|]. rewrite Hp. simpl. lia.
      * intros _. case_match; by eexists.
  - split; [by intros [? ?]|by intros (? & ? & _)].
Qed.

Lemma gitlab_parseUrl_ok (url : string) :
  (exists parsed, gitlab_parseUrl URL url = inr parsed) <->
  exists loc, URL url = Some loc /\
              (2 <= length (pathname_parts (pathname loc)))%nat.
Proof.
  unfold gitlab_parseUrl. destruct (URL url) as [loc|].
  - case_bool_decide as Hlen.
    + split; [by intros [? ?]|]. intros (? & [= <-] & H). lia.
    + split.
      * intros _. exists loc. split; [done|lia].
      * intros _. repeat case_match; by eexists.
  - split; [by intros [? ?]|by intros (? & ? & _)].
Qed.

(** X17: the form's test [isValidRepoUrl] accepts exactly the URLs for
    which [detectProvider] finds a provider whose [parseUrl] does not
    throw: after the test, neither step of the submission can fail. *)
Theorem X17_valid_url_is_parsed (url : string) :
  isValidRepoUrl URL url = true <->
  exists p parsed,
    detectProvider URL url = Some p /\ parseUrl p url = inr parsed.
Proof.
  unfold isValidRepoUrl. rewrite detectProvider_eq.
  unfold detectProviderName.
  pose proof (github_parseUrl_ok url) as Hgh.
  pose proof (gitlab_parseUrl_ok url) as Hgl.
  pose proof (bitbucket_parseUrl_ok url) as Hbb.
  destruct (URL url) as [loc|] eqn:HURL.
  2:{ split; [done|]. by intros (p & parsed & ? & _). }
  assert (Hlen : bool_decide (2 <= length (pathname_parts (pathname loc)))%nat
                 = true <->
                 exists loc', Some loc = Some loc' /\
                   (2 <= length (pathname_parts (pathname loc')))%nat).
  { rewrite bool_decide_eq_true. split; [by exists loc|].
    by intros (? & [= <-] & ?). }
  destruct (String.eqb (hostname loc) "github.com");
    [|destruct (String.eqb (hostname loc) "gitlab.com");
      [|destruct (String.eqb (hostname loc) "bitbucket.org")]];
    rewrite ?Hlen.
  - rewrite <- Hgh. split.
    + intros [parsed H]. by exists (github_urls URL), parsed.
    + intros (p & parsed & [= <-] & H). by exists parsed.
  - rewrite <- Hgl. split.
    + intros [parsed H]. by exists (gitlab_urls URL), parsed.
    + intros (p & parsed & [= <-] & H). by exists parsed.
  - rewrite <- Hbb. split.
    + intros [parsed H]. by exists (bitbucket_urls URL), parsed.
    + intros (p & parsed & [= <-] & H). by exists parsed.
  - split; [done|]. by intros (p & parsed & ? & _).
Qed.

Lemma js_at_segment (parts : list string) (i : Z) (x : string) :
  Forall segment parts -> js_at parts i = Some x -> segment x.
Proof.
  intros Hparts. unfold js_at. destruct (i <? 0); [done|].
  intros H. by eapply Forall_lookup_1.
Qed.

Lemma normal_path_slice_from (parts : list string) (i : Z) :
  Forall segment parts -> normal_path (join_slash (js_slice_from parts i)).
Proof.
  intros H. eexists. split; [done|]. unfold js_slice_from.
  by apply Forall_drop.
Qed.

Lemma normal_path_slice (parts : list string) (i j : Z) :
  Forall segment parts -> normal_path (join_slash (js_slice parts i j)).
Proof.
  intros H. eexists. split; [done|]. unfold js_slice.
  by apply Forall_take, Forall_drop.
Qed.

Lemma normal_path_nil : normal_path "".
Proof. by exists []. Qed.

Lemma normal_path_segment (s : string) : segment s -> normal_path s.
Proof. intros H. exists [s]. split; [done|]. by constructor. Qed.

Lemma or_else_segment (o : option string) (d : string) :
  (forall x, o = Some x -> segment x) -> segment d -> segment (or_else o d).
Proof.
  intros Ho Hd. unfold or_else. destruct o as [x|]; [|done].
  destruct (JsString.truthy x); [by apply Ho|done].
Qed.

Lemma well_formed_intro (o : string) (r : option string) (b p : string) :
  segment b -> normal_path p -> normal_path o ->
  (forall x, r = Some x -> segment x) ->
  well_formed (mkParsedUrl o r b p).
Proof. intros. split; [|split; [|split]]; assumption. Qed.

Lemma default_at_segment (parts : list string) (n : nat) :
  Forall segment parts -> (n < length parts)%nat ->
  segment (default "" (js_at parts (Z.of_nat n))).
Proof.
  intros Hparts Hn. rewrite js_at_nat.
  destruct (lookup_lt_is_Some_2 parts n Hn) as [b Hb]. rewrite Hb.
  exact (Forall_lookup_1 _ _ _ _ Hparts Hb).
Qed.

Ltac solve_well_formed :=
  apply well_formed_intro;
  try first [ apply segment_main
        | apply normal_path_nil
        | by apply normal_path_slice_from
        | by apply normal_path_slice
        | by apply normal_path_segment
        | (intros ? ?; by eapply js_at_segment)
        | (apply or_else_segment; [|apply segment_main];
           intros ? ?; by eapply js_at_segment)
        | by intros ? [= <-] ].

(** X18: whatever the URL, a [parseUrl] of a web adapter that returns
    gives a branch that is one path segment (not empty, without a slash), a
    path in normal form (segments joined by single slashes: no leading,
    trailing or doubled slash) and an owner in normal form. *)
Theorem X18_parsed_url_well_formed (url : string) (p : UrlProvider)
    (parsed : ParsedUrl) :
  p ∈ providers URL ->
  parseUrl p url = inr parsed ->
  well_formed parsed.
Proof.
  intros Hp.
  apply providers_inv in Hp as [->|[->| ->]];
    cbn [parseUrl github_urls gitlab_urls bitbucket_urls];
    unfold github_parseUrl, gitlab_parseUrl, bitbucket_parseUrl;
    (destruct (URL url) as [loc|]; [|done]);
    pose proof (pathname_parts_segments (pathname loc)) as Hparts;
    set (parts := pathname_parts (pathname loc)) in *.
  - destruct parts as [|owner [|repo rest]] eqn:Hp; [done..|].
    rewrite <- Hp in *.
    assert (Ho : segment owner /\ segment repo).
    { rewrite Hp in Hparts. inversion Hparts as [|? ? ? H']; subst.
      by inversion H'. }
    destruct Ho as [Ho Hr].
    destruct (bool_decide (3 < length parts)%nat) eqn:Hlen; cbn [andb].
    + apply bool_decide_eq_true in Hlen.
      case_match; intros [= <-]; solve_well_formed.
      by apply (default_at_segment parts 3).
    + intros [= <-]. solve_well_formed.
  - case_bool_decide; [done|].
    repeat case_match; intros [= <-]; solve_well_formed.
  - destruct parts as [|owner [|repo rest]] eqn:Hp; [done..|].
    rewrite <- Hp in *.
    assert (Ho : segment owner /\ segment repo).
    { rewrite Hp in Hparts. inversion Hparts as [|? ? ? H']; subst.
      by inversion H'. }
    destruct Ho as [Ho Hr].
    destruct (bool_decide (3 < length parts)%nat) eqn:Hlen; cbn [andb].
    + apply bool_decide_eq_true in Hlen.
      case_match; intros [= <-]; solve_well_formed.
      by apply (default_at_segment parts 3).
    + intros [= <-]. solve_well_formed.
Qed.

End ParseUrlFacts.

Lemma X18_parsed_url_well_formed_witness :
  well_formed (mkParsedUrl "gitlab-org" (Some "gitlab") "master" "app").
Proof.
  apply (X18_parsed_url_well_formed https_URL
           "https://gitlab.com/gitlab-org/gitlab/-/tree/master/app"
           (gitlab_urls https_URL)).
  - apply elem_of_cons. right. apply elem_of_cons. by left.
  - reflexivity.
Defined.

(** ** Parsing the URLs the providers' sites show *)

Lemma segment_tree : segment "tree".
Proof. by split. Qed.
Lemma segment_blob : segment "blob".
Proof. by split. Qed.
Lemma segment_src : segment "src".
Proof. by split. Qed.
Lemma segment_dash : segment "-".
Proof. by split. Qed.

Lemma or_else_segment_id (x d : string) :
  segment x -> or_else (Some x) d = x.
Proof. intros H. unfold or_else. by rewrite (segment_truthy _ H). Qed.

Section ParseUrlRoundTrip.

Variable URL : string -> option Location.

(** X19: [parseUrl] of the GitHub and of the Bitbucket adapter on the URL
    of a directory or file ([/owner/repo/tree|blob/branch/segments] on
    GitHub, [/workspace/repo/src/branch/segments] on Bitbucket, with or
    without a trailing slash) returns the owner, the repository, the
    branch and the path of the URL; on the URL of a repository
    ([/owner/repo]) it returns the branch "main" and the empty path. *)
Theorem X19_github_bitbucket_parseUrl
    (tree_url src_url repo_url tree_host src_host repo_host : string)
    (owner repo branch kind : string)
    (segs : list string) (trail : string) :
  Forall segment (owner :: repo :: branch :: segs) ->
  trail = "" \/ trail = "/" ->
  kind = "tree" \/ kind = "blob" ->
  URL tree_url
  = Some (mkLocation tree_host
            ("/" +:+ join_slash (owner :: repo :: kind :: branch :: segs)
             +:+ trail)) ->
  URL src_url
  = Some (mkLocation src_host
            ("/" +:+ join_slash (owner :: repo :: "src" :: branch :: segs)
             +:+ trail)) ->
  URL repo_url
  = Some (mkLocation repo_host
            ("/" +:+ join_slash [owner; repo] +:+ trail)) ->
  github_parseUrl URL tree_url
  = inr (mkParsedUrl owner (Some repo) branch (join_slash segs)) /\
  bitbucket_parseUrl URL src_url
  = inr (mkParsedUrl owner (Some repo) branch (join_slash segs)) /\
  github_parseUrl URL repo_url
  = inr (mkParsedUrl owner (Some repo) "main" "") /\
  bitbucket_parseUrl URL repo_url
  = inr (mkParsedUrl owner (Some repo) "main" "").
Proof.
  intros Hsegs Htrail Hkind Htree Hsrc Hrepo.
  pose proof Hsegs as Hall.
  apply Forall_cons in Hall as [Ho Hall].
  apply Forall_cons in Hall as [Hr Hall].
  apply Forall_cons in Hall as [Hb Hs].
  assert (Hlen : forall k,
            bool_decide (3 < length (owner :: repo :: k :: branch :: segs))%nat
            = true).
  { intros k. apply bool_decide_eq_true. simpl. lia. }
  assert (Hp1 : pathname_parts
                  ("/" +:+ join_slash (owner :: repo :: kind :: branch :: segs)
                   +:+ trail)
                = owner :: repo :: kind :: branch :: segs).
  { apply pathname_parts_join; [|by right|done].
    do 2 (apply Forall_cons; split; [done|]). apply Forall_cons. split.
    - destruct Hkind as [->| ->]; [apply segment_tree|apply segment_blob].
    - by apply Forall_cons. }
  assert (Hp2 : pathname_parts
                  ("/" +:+ join_slash (owner :: repo :: "src" :: branch :: segs)
                   +:+ trail)
                = owner :: repo :: "src" :: branch :: segs).
  { apply pathname_parts_join; [|by right|done].
    do 2 (apply Forall_cons; split; [done|]). apply Forall_cons.
    split; [apply segment_src|by apply Forall_cons]. }
  assert (Hp3 : pathname_parts ("/" +:+ join_slash [owner; repo] +:+ trail)
                = [owner; repo]).
  { apply pathname_parts_join; [|by right|done].
    do 2 (apply Forall_cons; split; [done|]). constructor. }
  unfold github_parseUrl, bitbucket_parseUrl.
  rewrite Htree, Hsrc, Hrepo. cbn [pathname]. rewrite Hp1, Hp2, Hp3, !Hlen.
  change (js_at (owner :: repo :: kind :: branch :: segs) 2)
    with (Some kind).
  change (js_at (owner :: repo :: kind :: branch :: segs) 3)
    with (Some branch).
  change (js_at (owner :: repo :: "src" :: branch :: segs) 2)
    with (Some "src").
  change (js_at (owner :: repo :: "src" :: branch :: segs) 3)
    with (Some branch).
  cbn [default]. rewrite !(js_slice_from_nat _ 4).
  by destruct Hkind as [->| ->].
Qed.

End ParseUrlRoundTrip.

Lemma X19_github_bitbucket_parseUrl_witness :
  github_parseUrl https_URL
    "https://github.com/facebook/react/tree/v18/packages/react"
  = inr (mkParsedUrl "facebook" (Some "react") "v18" "packages/react") /\
  bitbucket_parseUrl https_URL
    "https://bitbucket.org/facebook/react/src/v18/packages/react"
  = inr (mkParsedUrl "facebook" (Some "react") "v18" "packages/react") /\
  github_parseUrl https_URL "https://github.com/facebook/react"
  = inr (mkParsedUrl "facebook" (Some "react") "main" "") /\
  bitbucket_parseUrl https_URL "https://github.com/facebook/react"
  = inr (mkParsedUrl "facebook" (Some "react") "main" "").
Proof.
  apply (X19_github_bitbucket_parseUrl https_URL
           "https://github.com/facebook/react/tree/v18/packages/react"
           "https://bitbucket.org/facebook/react/src/v18/packages/react"
           "https://github.com/facebook/react"
           "github.com" "bitbucket.org" "github.com"
           "facebook" "react" "v18" "tree"
           ["packages"; "react"] "").
  - repeat constructor; done.
  - by left.
  - by left.
  - reflexivity.
  - reflexivity.
  - reflexivity.
Defined.

Section GitLabUrlRoundTrip.

Variable URL : string -> option Location.

(** X20: [parseUrl] of the GitLab adapter on the URL of a directory or
    file of a project in a group or in nested subgroups
    ([/group/.../project/-/tree|blob/branch/segments], with or without a
    trailing slash) returns the groups joined by slashes as owner, the
    project as repository, the branch and the path; on the URL of the
    project it returns the branch "main" and the empty path. *)
Theorem X20_gitlab_parseUrl
    (tree_url project_url tree_host project_host : string)
    (groups : list string) (repo branch kind : string)
    (segs : list string) (trail : string) :
  Forall segment (groups ++ repo :: branch :: segs) ->
  "-" ∉ groups ++ [repo] ->
  groups <> [] ->
  trail = "" \/ trail = "/" ->
  kind = "tree" \/ kind = "blob" ->
  URL tree_url
  = Some (mkLocation tree_host
            ("/" +:+ join_slash (groups ++ repo :: "-" :: kind :: branch
                                 :: segs) +:+ trail)) ->
  URL project_url
  = Some (mkLocation project_host
            ("/" +:+ join_slash (groups ++ [repo]) +:+ trail)) ->
  gitlab_parseUrl URL tree_url
  = inr (mkParsedUrl (join_slash groups) (Some repo) branch
           (join_slash segs)) /\
  gitlab_parseUrl URL project_url
  = inr (mkParsedUrl (join_slash groups) (Some repo) "main" "").
Proof.
  intros Hsegs Hdash Hgroups Htrail Hkind Htree Hproject.
  apply Forall_app in Hsegs as [Hg Hsegs].
  apply Forall_cons in Hsegs as [Hr Hsegs].
  apply Forall_cons in Hsegs as [Hb Hs].
  assert (Hk : segment kind).
  { destruct Hkind as [->| ->]; [apply segment_tree|apply segment_blob]. }
  set (n := length groups).
  set (parts := groups ++ repo :: "-" :: kind :: branch :: segs).
  assert (Hp1 : pathname_parts ("/" +:+ join_slash parts +:+ trail) = parts).
  { apply pathname_parts_join; [|by right|done].
    apply Forall_app. split; [done|].
    repeat (apply Forall_cons; split; [done || apply segment_dash|]). done. }
  assert (Hp2 : pathname_parts
                  ("/" +:+ join_slash (groups ++ [repo]) +:+ trail)
                = groups ++ [repo]).
  { apply pathname_parts_join; [|by right|done].
    apply Forall_app. split; [done|]. by constructor. }
  assert (Hn : (0 < n)%nat) by (subst n; destruct groups; [done|simpl; lia]).
  unfold gitlab_parseUrl. rewrite Htree, Hproject. cbn [pathname].
  fold parts. rewrite Hp1, Hp2. split.
  - rewrite bool_decide_false
      by (unfold parts; rewrite length_app; simpl; fold n; lia).
    assert (Hidx : js_indexOf "-" parts = Z.of_nat (S n)).
    { unfold parts.
      change (groups ++ repo :: "-" :: kind :: branch :: segs)
        with (groups ++ [repo] ++ "-" :: kind :: branch :: segs).
      rewrite app_assoc, (js_indexOf_app _ _ _ Hdash), length_app.
      simpl. fold n. f_equal. lia. }
    rewrite Hidx. rewrite (proj2 (Z.eqb_neq _ _)) by lia.
    replace (Z.of_nat (S n) - 1) with (Z.of_nat n) by lia.
    replace (Z.of_nat (S n) + 1) with (Z.of_nat (n + 2)) by lia.
    replace (Z.of_nat (S n) + 2) with (Z.of_nat (n + 3)) by lia.
    replace (Z.of_nat (S n) + 3) with (Z.of_nat (n + 4)) by lia.
    rewrite !js_at_nat, js_slice_0_nat, js_slice_from_nat.
    unfold parts, n.
    rewrite take_app_length, drop_app_add, !lookup_app_r by lia.
    rewrite Nat.sub_diag, !Nat.add_sub'. cbn [lookup list_lookup drop].
    rewrite (or_else_segment_id _ _ Hb).
    by destruct Hkind as [->| ->].
  - rewrite bool_decide_false by (rewrite length_app; simpl; fold n; lia).
    rewrite (js_indexOf_absent _ _ Hdash). cbn [Z.eqb Pos.eqb].
    rewrite js_slice_0_minus_1.
    replace (Z.of_nat (length (groups ++ [repo])) - 1) with (Z.of_nat n)
      by (rewrite length_app; simpl; fold n; lia).
    rewrite js_at_nat, length_app. simpl. fold n.
    replace (n + 1 - 1)%nat with n by lia. unfold n.
    rewrite take_app_length, lookup_app_r by lia.
    by rewrite Nat.sub_diag.
Qed.

End GitLabUrlRoundTrip.

Lemma X20_gitlab_parseUrl_witness :
  gitlab_parseUrl https_URL
    "https://gitlab.com/group/subgroup/project/-/tree/master/app/models"
  = inr (mkParsedUrl "group/subgroup" (Some "project") "master"
           "app/models") /\
  gitlab_parseUrl https_URL "https://gitlab.com/group/subgroup/project"
  = inr (mkParsedUrl "group/subgroup" (Some "project") "main" "").
Proof.
  apply (X20_gitlab_parseUrl https_URL
           "https://gitlab.com/group/subgroup/project/-/tree/master/app/models"
           "https://gitlab.com/group/subgroup/project"
           "gitlab.com" "gitlab.com" ["group"; "subgroup"] "project"
           "master" "tree" ["app"; "models"] "").
  - repeat constructor; done.
  - cbn [app]. rewrite !not_elem_of_cons. repeat split; try done.
    apply not_elem_of_nil.
  - done.
  - by left.
  - by left.
  - reflexivity.
  - reflexivity.
Defined.

(** ** Where the error of a failed run comes from *)

Lemma throws_recorded_bind {A B} (m : M A) (f : A -> M B) :
  throws_recorded m ->
  (forall a, result m = Done a -> throws_recorded (f a)) ->
  throws_recorded (bind m f).
Proof.
  destruct m as [l [a|e|]]; intros Hm Hf e'.
  - rewrite bind_Done. cbn [trace result fst snd]. intros H.
    pose proof (Hf a eq_refl) as Hfa. unfold throws_recorded in Hfa.
    destruct (Hfa e' H) as (ev & Hin & Hev).
    exists ev. split; [|done]. apply elem_of_app. by right.
  - rewrite bind_Threw. intros [= <-]. exact (Hm e eq_refl).
  - done.
Qed.

Lemma throws_recorded_for_of {A S} (body : A -> S -> M S) (l : list A) :
  (forall x s, throws_recorded (body x s)) ->
  forall s, throws_recorded (for_of body l s).
Proof.
  intros Hbody. induction l as [|x l IH]; intros s; [done|].
  simpl. apply throws_recorded_bind; [apply Hbody|]. intros s' _. apply IH.
Qed.

Lemma throws_recorded_walker provider basePath :
  forall fuel config acc,
    throws_recorded
      (collectFilesRecursively fuel provider config basePath acc).
Proof.
  induction fuel as [|fuel IH]; intros config acc; [done|].
  rewrite collectFilesRecursively_S. apply throws_recorded_bind.
  { unfold await_fetchContents.
    destruct (outcome (fetchContents provider config)) as [e|entries];
      [|done].
    intros e' [= <-]. exists (EvList (cfg_path config) (Some e)).
    split; [by left|done]. }
  intros entries _. apply throws_recorded_for_of. intros entry s.
  unfold walk_step. apply throws_recorded_bind; [|done].
  destruct (String.eqb (type entry) "file"); [done|].
  destruct (String.eqb (type entry) "dir"); [apply IH|done].
Qed.

Lemma throws_recorded_settle_batch pending :
  forall completed, throws_recorded (settle_batch pending completed).
Proof.
  induction pending as [|[file p] pending IH]; intros completed; [done|].
  rewrite settle_batch_cons. destruct (outcome p) as [e|data].
  - intros e' [= <-]. exists (EvSettle file (Some e)). split; [by left|done].
  - apply throws_recorded_bind; [done|]. intros _ _. apply IH.
Qed.

Lemma throws_recorded_download_loop provider config files :
  forall n i completed results,
    throws_recorded
      (download_loop n provider config files i completed results).
Proof.
  induction n as [|n IH]; intros i completed results;
    rewrite download_loop_unfold; case_bool_decide; try done.
  apply throws_recorded_bind; [|intros cr _; apply IH].
  unfold downloadBatch. rewrite start_batch_eq.
  apply throws_recorded_bind; [done|]. intros started _.
  apply throws_recorded_bind; [apply throws_recorded_settle_batch|done].
Qed.

Lemma genuine_walker provider config0 basePath :
  forall fuel config acc,
    Forall (genuine provider config0)
      (trace (collectFilesRecursively fuel provider config basePath acc)).
Proof.
  induction fuel as [|fuel IH]; intros config acc; [constructor|].
  rewrite collectFilesRecursively_S. apply trace_bind_Forall.
  { unfold await_fetchContents.
    destruct (outcome (fetchContents provider config)) as [e|entries] eqn:He;
      repeat constructor. by exists config. }
  intros entries _. apply trace_for_of_Forall. intros entry s _.
  unfold walk_step. apply trace_bind_Forall.
  - destruct (String.eqb (type entry) "file"); [constructor|].
    destruct (String.eqb (type entry) "dir"); [apply IH | constructor].
  - intros c _. by repeat constructor.
Qed.

Lemma genuine_start_events provider config total completed batch :
  Forall (genuine provider config) (start_events total completed batch).
Proof.
  unfold start_events. induction batch as [|file batch IH]; simpl;
    by repeat constructor.
Qed.

Lemma genuine_settle_batch provider config pending :
  Forall (fun fp => fp.2 = downloadFile provider fp.1 config) pending ->
  forall completed,
    Forall (genuine provider config) (trace (settle_batch pending completed)).
Proof.
  induction 1 as [|[file p] pending Hp _ IH]; intros completed;
    [constructor|].
  rewrite settle_batch_cons. simpl in Hp. subst p.
  destruct (outcome (downloadFile provider file config)) as [e|data] eqn:He.
  - by repeat constructor.
  - apply trace_bind_Forall; [by repeat constructor|]. intros _ _. apply IH.
Qed.

Lemma genuine_download_loop provider config files :
  forall n i completed results,
    Forall (genuine provider config)
      (trace (download_loop n provider config files i completed results)).
Proof.
  induction n as [|n IH]; intros i completed results;
    rewrite download_loop_unfold; case_bool_decide; try constructor.
  apply trace_bind_Forall; [|intros cr _; apply IH].
  unfold downloadBatch. rewrite start_batch_eq.
  apply trace_bind_Forall; [apply genuine_start_events|].
  intros started [= <-]. apply trace_bind_Forall; [|intros; constructor].
  apply genuine_settle_batch.
  rewrite (merge_sort_Permutation settles_before _).
  unfold started_of. by apply Forall_map, Forall_true.
Qed.

Lemma collectFiles_provenance fuel provider config e :
  result (collectFiles fuel provider config) = Threw e ->
  e = EDownload createEmptyDirectoryError \/
  exists ev,
    ev ∈ trace (collectFiles fuel provider config) /\
    failure_of ev = Some e /\ genuine provider config ev.
Proof.
  intros H.
  assert (Hgen : Forall (genuine provider config)
                   (trace (collectFiles fuel provider config))).
  { rewrite collectFiles_walk. apply trace_bind_Forall.
    - apply trace_bind_Forall; [by repeat constructor|].
      intros _ _. apply genuine_walker.
    - intros files _. case_bool_decide; [constructor|].
      apply genuine_download_loop. }
  assert (Hrec : e = EDownload createEmptyDirectoryError \/
                 exists ev, ev ∈ trace (collectFiles fuel provider config) /\
                            failure_of ev = Some e).
  { revert H. rewrite collectFiles_walk. intros H.
    destruct (result (emit started_fetching ;;;
                      collectFilesRecursively fuel provider config
                        (cfg_path config) [])) as [files|e'|] eqn:Hw.
    - rewrite (result_bind_Done _ _ _ Hw) in H.
      case_bool_decide; [left; simpl in H; congruence|right].
      pose proof (throws_recorded_download_loop provider config files
                    (length files) 0%nat 0%nat []) as Hloop.
      unfold throws_recorded in Hloop.
      destruct (Hloop e H) as (ev & Hin & Hev).
      exists ev. split; [|done].
      destruct (_ ;;; collectFilesRecursively _ _ _ _ _) as [l r].
      simpl in Hw. subst r. rewrite bind_Done.
      rewrite bool_decide_false by done. apply elem_of_app. by right.
    - right.
      assert (Hthrow : throws_recorded
                (emit started_fetching ;;;
                 collectFilesRecursively fuel provider config
                   (cfg_path config) [])).
      { apply throws_recorded_bind; [done|]. intros _ _.
        apply throws_recorded_walker. }
      unfold throws_recorded in Hthrow.
      destruct (_ ;;; collectFilesRecursively _ _ _ _ _) as [l r].
      simpl in Hw. subst r. rewrite bind_Threw in H |- *.
      apply (Hthrow e). simpl in H. by injection H as ->.
    - destruct (_ ;;; collectFilesRecursively _ _ _ _ _) as [l r].
      simpl in Hw. by subst r. }
  destruct Hrec as [->|(ev & Hin & Hev)]; [by left|right].
  exists ev. repeat split; [done..|].
  by eapply (proj1 (Forall_forall _ _) Hgen).
Qed.

Lemma downloadDirectory_threw fuel provider config e :
  result (downloadDirectory fuel provider config) = Threw e ->
  result (collectFiles fuel provider config) = Threw e.
Proof.
  intros H.
  destruct (result (collectFiles fuel provider config)) as [rs|e'|] eqn:Hr.
  - by rewrite (downloadDirectory_done _ _ _ _ Hr) in H.
  - destruct (downloadDirectory_not_done fuel provider config)
      as (_ & Hthrew & _); [by rewrite Hr|].
    rewrite (Hthrew e' Hr) in H. congruence.
  - unfold downloadDirectory in H.
    destruct (collectFiles fuel provider config) as [l r].
    simpl in Hr. by subst r.
Qed.

Lemma genuine_failure provider config ev e :
  genuine provider config ev -> failure_of ev = Some e ->
  (exists config', outcome (fetchContents provider config') = inl e) \/
  (exists file, outcome (downloadFile provider file config) = inl e).
Proof.
  intros Hg Hev.
  destruct ev as [| dir [e'|] | | file [e'|] | | | | | |]; try done;
    injection Hev as ->; [left|right]; [exact Hg|by exists file].
Qed.

(** X21: the error of a failed run of the web engine is the
    [EmptyDirectory] error the engine raises itself, or the reason with
    which the provider rejected a listing or the download of a file, as
    the provider gave it: the engine wraps and replaces nothing. *)
Theorem X21_error_provenance (fuel : nat) (provider : RepoProvider)
    (config : FetchConfig) (e : exn) :
  result (downloadDirectory fuel provider config) = Threw e ->
  e = EDownload createEmptyDirectoryError \/
  (exists config', outcome (fetchContents provider config') = inl e) \/
  (exists file, outcome (downloadFile provider file config) = inl e).
Proof.
  intros H. apply downloadDirectory_threw in H.
  destruct (collectFiles_provenance _ _ _ _ H) as [->|(ev & _ & Hev & Hg)];
    [by left|right].
  by eapply genuine_failure.
Qed.

Lemma X21_error_provenance_witness :
  EDownload (createProviderError "Failed to download file: 403")
  = EDownload createEmptyDirectoryError \/
  (exists config',
     outcome (fetchContents Example.refusing_provider config')
     = inl (EDownload (createProviderError "Failed to download file: 403")))
  \/
  (exists file,
     outcome (downloadFile Example.refusing_provider file Example.config)
     = inl (EDownload (createProviderError "Failed to download file: 403"))).
Proof.
  apply (X21_error_provenance 3 Example.refusing_provider Example.config).
  reflexivity.
Defined.

(** ** The errors of a run through the web adapters *)

Lemma from_factory_retryable (e : DownloadError) :
  from_factory e -> retryable e = retryable_code (code e).
Proof. by destruct 1. Qed.

Section WebAdapterErrors.

Variable fetch : string -> option string -> reply.
Variable encodeURIComponent : string -> string.
Variable atob : string -> option string.
Variable charCodes : string -> bytes.

Ltac solve_engine_error :=
  unfold fetch_then; cbn [outcome];
  repeat (case_match; try done);
  intros [= <-]; (split; [constructor|by split]).

Lemma web_adapter_errors (provider : RepoProvider) (e : DownloadError) :
  provider = github fetch atob charCodes \/
  provider = gitlab fetch encodeURIComponent \/
  provider = bitbucket fetch encodeURIComponent ->
  (forall config,
     outcome (fetchContents provider config) = inl (EDownload e) ->
     engine_error e) /\
  (forall file config,
     outcome (downloadFile provider file config) = inl (EDownload e) ->
     engine_error e).
Proof.
  intros [->|[->| ->]]; split; intros;
    cbn [fetchContents downloadFile github gitlab bitbucket] in *;
    unfold github_fetchContents, github_downloadFile, gitlab_fetchContents,
      gitlab_downloadFile, bitbucket_fetchContents, bitbucket_downloadFile
      in *;
    match goal with H : outcome _ = _ |- _ => revert H end;
    solve_engine_error.
Qed.

End WebAdapterErrors.
(** X22: a [DownloadError] with which a run of the web engine through the
    GitHub, GitLab or Bitbucket adapter fails is made by one of the
    factories of errors.ts, never by [createCorsError] or
    [createInvalidUrlError]; its [retryable] flag is determined by its
    code, and it is not retryable exactly for [NOT_FOUND],
    [EMPTY_DIRECTORY] and [FILE_TOO_LARGE]. *)
Theorem X22_web_run_errors fetch encodeURIComponent atob charCodes
    (fuel : nat) (provider : RepoProvider) (config : FetchConfig)
    (e : DownloadError) :
  provider = github fetch atob charCodes \/
  provider = gitlab fetch encodeURIComponent \/
  provider = bitbucket fetch encodeURIComponent ->
  result (downloadDirectory fuel provider config) = Threw (EDownload e) ->
  from_factory e /\
  code e <> CORS_BLOCKED /\ code e <> INVALID_URL /\
  retryable e = retryable_code (code e) /\
  (retryable e = false <->
   code e = NOT_FOUND \/ code e = EMPTY_DIRECTORY \/ code e = FILE_TOO_LARGE).
Proof.
  intros Hp H.
  assert (He : engine_error e).
  { destruct (web_adapter_errors fetch encodeURIComponent atob charCodes
                provider e Hp) as [Hls Hdl].
    apply downloadDirectory_threw in H.
    destruct (collectFiles_provenance _ _ _ _ H)
      as [[= ->]|(ev & _ & Hev & Hg)]; [split; [constructor|by split]|].
    destruct (genuine_failure _ _ _ _ Hg Hev) as [[config' H']|[file H']].
    - by eapply Hls.
    - by eapply Hdl. }
  destruct He as (Hf & Hcors & Hurl).
  pose proof (from_factory_retryable e Hf) as Hr.
  repeat split; try done.
  - rewrite Hr. destruct (code e); simpl; intros; try done; auto.
  - rewrite Hr. by intros [->|[->| ->]].
Qed.

Lemma X22_web_run_errors_witness :
  from_factory (createProviderError "Failed to download file: 404") /\
  code (createProviderError "Failed to download file: 404") <> CORS_BLOCKED /\
  code (createProviderError "Failed to download file: 404") <> INVALID_URL /\
  retryable (createProviderError "Failed to download file: 404")
  = retryable_code (code (createProviderError "Failed to download file: 404"))
  /\
  (retryable (createProviderError "Failed to download file: 404") = false <->
   code (createProviderError "Failed to download file: 404") = NOT_FOUND \/
   code (createProviderError "Failed to download file: 404") = EMPTY_DIRECTORY
   \/
   code (createProviderError "Failed to download file: 404") = FILE_TOO_LARGE).
Proof.
  apply (X22_web_run_errors GitHubExample.fetch (fun s => s) (fun _ => None)
           (fun _ => []) 2 GitHubExample.web GitHubExample.deps).
  - by left.
  - reflexivity.
Defined.

(** ** The invariant of download tasks under well-formed listings *)





